(** * Chunked-upload session manager of [server.js]

    A shallow embedding of the [/upload-chunk] and [/combine-chunks]
    handlers, of the expiry timer and the hourly sweep, and of the helpers
    [removeDirectory] and [combineChunks], over an explicit model of the
    Node runtime objects they touch: the file system, the [uploadTracker]
    map, the session objects with their write stream, the timer table and
    the requests whose body is still being received. *)

From Stdlib Require Import ZArith NArith Ascii String List Lia.
From stdpp Require Import base option list gmap strings pretty.

Local Open Scope string_scope.
Local Open Scope list_scope.

(** ** JavaScript values *)

(** A JavaScript number as [parseInt] produces it: an integer or [NaN]
    ([None]).  Integers are taken exactly, which is what the code
    computes up to [MAX_SAFE_INTEGER]; statements that depend on the
    value of a number assume that bound. *)
Abbreviation jsnum := (option Z).

Definition NaN : jsnum := None.

(** [Number.MAX_SAFE_INTEGER]: up to it the integers are JavaScript
    numbers, each different from the next. *)
Definition MAX_SAFE_INTEGER : Z := 2 ^ 53 - 1.


(** [a === b] on numbers: [NaN] is different from everything. *)
Definition strict_eq (a b : jsnum) : bool :=
  match a, b with
  | Some x, Some y => bool_decide (x = y)
  | _, _ => false
  end.

(** [a < b] and [a >= b] on numbers: any comparison with [NaN] is false. *)
Definition js_lt (a b : jsnum) : bool :=
  match a, b with
  | Some x, Some y => bool_decide (x < y)%Z
  | _, _ => false
  end.

Definition js_ge (a b : jsnum) : bool :=
  match a, b with
  | Some x, Some y => bool_decide (y ≤ x)%Z
  | _, _ => false
  end.

(** [h || d] for a header that may be missing ([undefined]) or empty: both
    are falsy. *)
Definition or_default (h : option string) (d : string) : string :=
  match h with
  | Some (String a s) => String a s
  | _ => d
  end.

(** [!s] for a string. *)
Definition is_empty (s : string) : bool :=
  match s with
  | EmptyString => true
  | _ => false
  end.

(** The white space that [parseInt] skips.  A string is the sequence of
    the code units of a header value, which Node decodes as Latin-1: of
    the code units below 256 the white space and line terminators of
    JavaScript are tab to carriage return (9 to 13), the space (32) and
    the no-break space (160). *)
Definition is_ws (a : ascii) : bool :=
  let n := nat_of_ascii a in
  (n =? 32)%nat || ((9 <=? n)%nat && (n <=? 13)%nat) || (n =? 160)%nat.

Fixpoint skip_ws (s : string) : string :=
  match s with
  | String a s' => if is_ws a then skip_ws s' else s
  | EmptyString => EmptyString
  end.

Definition digit_of (a : ascii) : option Z :=
  let n := nat_of_ascii a in
  if ((48 <=? n)%nat && (n <=? 57)%nat)%bool
  then Some (Z.of_nat n - 48)%Z else None.

(** The longest prefix of decimal digits, read left to right; [acc] is
    [None] until a digit has been seen. *)
Fixpoint digits (s : string) (acc : option Z) : option Z :=
  match s with
  | String a s' =>
      match digit_of a with
      | Some d => digits s' (Some (10 * default 0%Z acc + d)%Z)
      | None => acc
      end
  | EmptyString => acc
  end.

(** [parseInt(s, 10)]. *)
Definition parseInt (s : string) : jsnum :=
  match skip_ws s with
  | String "-" s' => Z.opp <$> digits s' None
  | String "+" s' => digits s' None
  | s' => digits s' None
  end.

(** ** The file system

    Directories and files by path, without symbolic links, permissions
    or limits on lengths and space: a call fails only for the reasons
    given with it. *)

(** A path is the list of its components below the root. *)
Abbreviation path := (list string).

(** [path.join(d, n)] for a name [n] that is one component of a path:
    not empty, without [/], and neither [.] nor [..] (for other names
    [path.join] splits and normalizes).  The names that the server
    itself supplies are of that kind; of the names that come with a
    request (the file name, the upload identifier) the statements assume
    it, with [is_component]. *)
Definition path_join (d : path) (n : string) : path := d ++ [n].

Fixpoint no_slash (s : string) : bool :=
  match s with
  | EmptyString => true
  | String a s' => negb (Ascii.eqb a "/") && no_slash s'
  end.

(** A name that is one component of a path. *)
Definition plain_name (s : string) : Prop :=
  no_slash s = true ∧ s ≠ "" ∧ s ≠ "." ∧ s ≠ "..".

(** The file system calls of Node refuse a path with a null byte. *)
Fixpoint no_nul (s : string) : bool :=
  match s with
  | EmptyString => true
  | String a s' => negb (Ascii.eqb a "000") && no_nul s'
  end.

(** A name that [path.join] appends as it is and that the file system
    accepts. *)
Definition is_component (s : string) : Prop :=
  plain_name s ∧ no_nul s = true.

Global Instance plain_name_dec (s : string) : Decision (plain_name s).
Proof. unfold plain_name. apply _. Defined.

Global Instance is_component_dec (s : string) : Decision (is_component s).
Proof. unfold is_component. apply _. Defined.

Abbreviation bytes := (list Byte.byte).

Inductive entry :=
  | File (data : bytes)
  | Directory.

Global Instance byte_eq_dec : EqDecision Byte.byte := Byte.byte_eq_dec.

Global Instance entry_eq_dec : EqDecision entry.
Proof. solve_decision. Defined.

Abbreviation filesystem := (gmap path entry).

Definition parent (p : path) : path := removelast p.

Definition existsSync (p : path) (fs : filesystem) : bool :=
  bool_decide (is_Some (fs !! p)).

(** The names directly below [p] that exist. *)
Definition child_name (p k : path) : option string :=
  match k with
  | [] => None
  | _ => if decide (parent k = p) then last k else None
  end.

Definition children (p : path) (fs : filesystem) : list string :=
  omap (child_name p) (elements (dom fs)).

(** Every entry other than the root lies in a directory. *)
Definition fs_closed (fs : filesystem) : Prop :=
  map_Forall (λ k _, k = [] ∨ fs !! parent k = Some Directory) fs.

Global Instance fs_closed_dec (fs : filesystem) : Decision (fs_closed fs).
Proof. unfold fs_closed. apply _. Defined.

Definition fs_wf (fs : filesystem) : Prop :=
  fs !! [] = Some Directory ∧ fs_closed fs.

(** [fs'] is [fs] with some directories added. *)
Definition adds_dirs (fs fs' : filesystem) : Prop :=
  ∀ k, fs' !! k = fs !! k ∨ (fs !! k = None ∧ fs' !! k = Some Directory).

(** The file system without [p] and what lies below it. *)
Definition outside (p : path) (fs : filesystem) : filesystem :=
  filter (λ kv, ¬ p `prefix_of` kv.1) fs.

(** [fs.mkdirSync(p, { recursive: true })]: walks down from the root and
    creates what is missing; [None] is the exception thrown when a
    component on the way is a file. *)
Fixpoint mkdir_from (pre : path) (rest : list string) (fs : filesystem)
  : option filesystem :=
  match fs !! pre with
  | Some (File _) => None
  | cur =>
      let fs' := match cur with None => <[pre := Directory]> fs | _ => fs end in
      match rest with
      | [] => Some fs'
      | n :: rest' => mkdir_from (pre ++ [n]) rest' fs'
      end
  end.

Definition mkdirSync (p : path) (fs : filesystem) : option filesystem :=
  mkdir_from [] p fs.

(** [if (!fs.existsSync(d)) fs.mkdirSync(d, { recursive: true })]. *)
Definition ensureDir (d : path) (fs : filesystem) : option filesystem :=
  if existsSync d fs then Some fs else mkdirSync d fs.

(** Opening a path with flags ['w']: creates the file or truncates it;
    [None] when the open fails (the path is a directory, or it has no
    parent directory). *)
Definition openW (p : path) (fs : filesystem) : option filesystem :=
  match fs !! p with
  | Some Directory => None
  | Some (File _) => Some (<[p := File []]> fs)
  | None =>
      match p with
      | [] => None
      | _ =>
          match fs !! parent p with
          | Some Directory => Some (<[p := File []]> fs)
          | _ => None
          end
      end
  end.

(** Writing [b] at offset [pos] of a file: a gap left by a truncation is
    filled with zero bytes. *)
Definition pwrite (data : bytes) (pos : nat) (b : bytes) : bytes :=
  take pos data ++ replicate (pos - length data) Byte.x00 ++ b
    ++ drop (pos + length b) data.

Definition writeAt (p : path) (pos : nat) (b : bytes) (fs : filesystem)
  : filesystem :=
  match fs !! p with
  | Some (File d) => <[p := File (pwrite d pos b)]> fs
  | _ => fs
  end.

Definition readFile (p : path) (fs : filesystem) : option bytes :=
  match fs !! p with
  | Some (File d) => Some d
  | _ => None
  end.

(** *** Synchronous calls that may throw

    A computation on the file system returns the file system as it is when
    the computation ends, and [None] for the value when it threw. *)
Definition FsM (A : Type) : Type := filesystem → option A * filesystem.

Definition fs_ret {A} (a : A) : FsM A := λ fs, (Some a, fs).

Definition fs_throw {A} : FsM A := λ fs, (None, fs).

Definition fs_bind {A B} (m : FsM A) (k : A → FsM B) : FsM B :=
  λ fs, match m fs with
        | (Some a, fs') => k a fs'
        | (None, fs') => (None, fs')
        end.

Notation "'let!' x := m 'in' k" := (fs_bind m (λ x, k))
  (at level 10, x name, m at level 100, k at level 200, only parsing).
Notation "'do!' m 'in' k" := (fs_bind m (λ _, k))
  (at level 10, m at level 100, k at level 200, only parsing).

Fixpoint forEachM {A} (f : A → FsM unit) (l : list A) : FsM unit :=
  match l with
  | [] => fs_ret tt
  | x :: l' => do! f x in forEachM f l'
  end.

Definition existsSyncM (p : path) : FsM bool :=
  λ fs, (Some (existsSync p fs), fs).

Definition readdirSync (p : path) : FsM (list string) :=
  λ fs, match fs !! p with
        | Some Directory => (Some (children p fs), fs)
        | _ => (None, fs)
        end.

Definition lstat_isDirectory (p : path) : FsM bool :=
  λ fs, match fs !! p with
        | Some Directory => (Some true, fs)
        | Some (File _) => (Some false, fs)
        | None => (None, fs)
        end.

Definition unlinkSync (p : path) : FsM unit :=
  λ fs, match fs !! p with
        | Some (File _) => (Some tt, delete p fs)
        | _ => (None, fs)
        end.

Definition rmdirSync (p : path) : FsM unit :=
  λ fs, match fs !! p with
        | Some Directory =>
            match children p fs with
            | [] => (Some tt, delete p fs)
            | _ => (None, fs)
            end
        | _ => (None, fs)
        end.

(** [removeDirectory(dirPath)].  The recursion descends one directory
    level per call; [fuel] bounds the depth. *)
Fixpoint removeDirectory_rec (fuel : nat) (dirPath : path) : FsM unit :=
  match fuel with
  | O => fs_throw
  | S fuel' =>
      let! ex := existsSyncM dirPath in
      if (ex : bool) then
        let! files := readdirSync dirPath in
        do! forEachM (λ file,
              let curPath := path_join dirPath file in
              let! isdir := lstat_isDirectory curPath in
              if (isdir : bool) then removeDirectory_rec fuel' curPath
              else unlinkSync curPath) files in
        rmdirSync dirPath
      else fs_ret tt
  end.

(** The longest path of the file system. *)
Definition fs_depth (fs : filesystem) : nat :=
  max_list (length <$> elements (dom fs)).

Definition removeDirectory (dirPath : path) : FsM unit :=
  λ fs, removeDirectory_rec (S (fs_depth fs)) dirPath fs.

(** ** Runtime objects *)

Definition HIGH_WATER_MARK : N := 2 * 1024 * 1024.

Definition UPLOAD_TIMEOUT : Z := 24 * 60 * 60 * 1000.

(** An [fs.WriteStream]: the path it was opened on, the offset of its next
    write, the bytes handed to it and not yet flushed ([writableLength]),
    whether a ['drain'] event is owed, the requests waiting for that event
    in the order they subscribed, whether [end()] was called, the option
    [autoClose] it was created with, and whether its file descriptor was
    closed. *)
Record wstream := {
  ws_path : path;
  ws_pos : nat;
  ws_length : N;
  ws_needDrain : bool;
  ws_onDrain : list nat;
  ws_ended : bool;
  ws_autoClose : bool;
  ws_closed : bool;
}.

(** The object stored in [uploadTracker]; [timeout] is the handle of the
    timer armed with it. *)
Record session := {
  finalPath : path;
  receivedChunks : gset jsnum;
  writeStream : wstream;
  totalChunks : jsnum;
  createdAt : Z;
  timeout : nat;
}.

(** A pending [setTimeout]: its callback closes over [fileId] only. *)
Record timer := {
  tm_fileId : string;
  tm_due : Z;
}.

(** What the listeners of an [/upload-chunk] request close over: the
    parsed headers, the session object found when the request arrived and
    the body received so far. *)
Record pending := {
  p_fileName : string;
  p_chunkIndex : jsnum;
  p_totalChunks : jsnum;
  p_fileId : string;
  p_tempDir : path;
  p_upload : nat;
  p_dataBuffer : bytes;
  p_awaiting : bool;
}.

Inductive reply :=
  | MissingFileName
  | SessionNotFound (shouldRestart : bool)
  | AlreadyReceived (chunkIndex total : jsnum)
  | ChunkReceived (chunkIndex total : jsnum) (received : nat) (fileId : string)
  | UploadComplete (filePath : path)
  | ServerError
  | ChunkUploadError
  | MissingFileInformation
  | StagingNotFound
  | MissingChunk (i : Z)
  | WriteOutputFailed
  | Assembled (filePath : path)
  | CombineFailed.

(** What the server does that the outside can see, in order: the responses
    and, for the assembly of stored chunks, the file operations. *)
Inductive output :=
  | Response (rid : nat) (status : nat) (r : reply)
  | IoOpen (p : path)
  | IoPipe (src dst : path) (data : bytes)
  | IoEnd (p : path)
  | IoRemoveDirectory (p : path).

Record world := {
  fs : filesystem;
  heap : gmap nat session;
  uploadTracker : gmap string nat;
  timers : gmap nat timer;
  inflight : gmap nat pending;
  now : Z;
  nreq : nat;
  log : list output;
  crashed : bool;
}.

Definition with_fs (x : filesystem) (w : world) : world :=
  {| fs := x; heap := heap w; uploadTracker := uploadTracker w;
     timers := timers w; inflight := inflight w; now := now w;
     nreq := nreq w; log := log w; crashed := crashed w |}.

Definition with_heap (x : gmap nat session) (w : world) : world :=
  {| fs := fs w; heap := x; uploadTracker := uploadTracker w;
     timers := timers w; inflight := inflight w; now := now w;
     nreq := nreq w; log := log w; crashed := crashed w |}.

Definition with_tracker (x : gmap string nat) (w : world) : world :=
  {| fs := fs w; heap := heap w; uploadTracker := x;
     timers := timers w; inflight := inflight w; now := now w;
     nreq := nreq w; log := log w; crashed := crashed w |}.

Definition with_timers (x : gmap nat timer) (w : world) : world :=
  {| fs := fs w; heap := heap w; uploadTracker := uploadTracker w;
     timers := x; inflight := inflight w; now := now w;
     nreq := nreq w; log := log w; crashed := crashed w |}.

Definition with_inflight (x : gmap nat pending) (w : world) : world :=
  {| fs := fs w; heap := heap w; uploadTracker := uploadTracker w;
     timers := timers w; inflight := x; now := now w;
     nreq := nreq w; log := log w; crashed := crashed w |}.

Definition with_now (x : Z) (w : world) : world :=
  {| fs := fs w; heap := heap w; uploadTracker := uploadTracker w;
     timers := timers w; inflight := inflight w; now := x;
     nreq := nreq w; log := log w; crashed := crashed w |}.

Definition with_nreq (x : nat) (w : world) : world :=
  {| fs := fs w; heap := heap w; uploadTracker := uploadTracker w;
     timers := timers w; inflight := inflight w; now := now w;
     nreq := x; log := log w; crashed := crashed w |}.

Definition emit (o : output) (w : world) : world :=
  {| fs := fs w; heap := heap w; uploadTracker := uploadTracker w;
     timers := timers w; inflight := inflight w; now := now w;
     nreq := nreq w; log := log w ++ [o]; crashed := crashed w |}.

(** An uncaught exception or an ['error'] event without listener ends the
    process. *)
Definition crash (w : world) : world :=
  {| fs := fs w; heap := heap w; uploadTracker := uploadTracker w;
     timers := timers w; inflight := inflight w; now := now w;
     nreq := nreq w; log := log w; crashed := true |}.

(** [res.writeHead(status); res.end(...)]: the request is over. *)
Definition respond (rid status : nat) (r : reply) (w : world) : world :=
  emit (Response rid status r) (with_inflight (delete rid (inflight w)) w).

Definition with_dataBuffer (b : bytes) (p : pending) : pending :=
  {| p_fileName := p_fileName p; p_chunkIndex := p_chunkIndex p;
     p_totalChunks := p_totalChunks p; p_fileId := p_fileId p;
     p_tempDir := p_tempDir p; p_upload := p_upload p;
     p_dataBuffer := b; p_awaiting := p_awaiting p |}.

(** The listener is suspended on [await]. *)
Definition with_awaiting (p : pending) : pending :=
  {| p_fileName := p_fileName p; p_chunkIndex := p_chunkIndex p;
     p_totalChunks := p_totalChunks p; p_fileId := p_fileId p;
     p_tempDir := p_tempDir p; p_upload := p_upload p;
     p_dataBuffer := p_dataBuffer p; p_awaiting := true |}.

Definition with_stream (s : wstream) (u : session) : session :=
  {| finalPath := finalPath u; receivedChunks := receivedChunks u;
     writeStream := s; totalChunks := totalChunks u;
     createdAt := createdAt u; timeout := timeout u |}.

Definition with_received (r : gset jsnum) (u : session) : session :=
  {| finalPath := finalPath u; receivedChunks := r;
     writeStream := writeStream u; totalChunks := totalChunks u;
     createdAt := createdAt u; timeout := timeout u |}.

(** A stream finishes once [end()] was called and nothing is left to
    flush.  Only a stream with [autoClose] closes its descriptor then;
    the code calls neither [close()] nor [destroy()] on a stream. *)
Definition ws_finish (s : wstream) : wstream :=
  {| ws_path := ws_path s; ws_pos := ws_pos s; ws_length := ws_length s;
     ws_needDrain := ws_needDrain s; ws_onDrain := ws_onDrain s;
     ws_ended := ws_ended s; ws_autoClose := ws_autoClose s;
     ws_closed := ws_closed s
                  || (ws_ended s && (ws_length s =? 0)%N && ws_autoClose s) |}.

(** [writeStream.end()]. *)
Definition ws_end (s : wstream) : wstream :=
  ws_finish
    {| ws_path := ws_path s; ws_pos := ws_pos s; ws_length := ws_length s;
       ws_needDrain := ws_needDrain s; ws_onDrain := ws_onDrain s;
       ws_ended := true;
       ws_autoClose := ws_autoClose s; ws_closed := ws_closed s |}.

(** [writeStream.write(b)]: the bytes go to the file at the stream's
    offset; the result is [writableLength < highWaterMark], and a
    ['drain'] event is owed when it is false.  [None] is a write after
    [end()], which the stream reports with an ['error'] event. *)
Definition ws_write (b : bytes) (s : wstream) (f : filesystem)
  : option (bool * wstream * filesystem) :=
  if ws_ended s then None
  else
    let len := (ws_length s + N.of_nat (length b))%N in
    let ret := (len <? HIGH_WATER_MARK)%N in
    Some (ret,
          {| ws_path := ws_path s; ws_pos := ws_pos s + length b;
             ws_length := len;
             ws_needDrain := ws_needDrain s || negb ret;
             ws_onDrain := ws_onDrain s; ws_ended := false;
             ws_autoClose := ws_autoClose s; ws_closed := ws_closed s |},
          writeAt (ws_path s) (ws_pos s) b f).

Definition ws_subscribe (rid : nat) (s : wstream) : wstream :=
  {| ws_path := ws_path s; ws_pos := ws_pos s; ws_length := ws_length s;
     ws_needDrain := ws_needDrain s; ws_onDrain := ws_onDrain s ++ [rid];
     ws_ended := ws_ended s;
     ws_autoClose := ws_autoClose s; ws_closed := ws_closed s |}.

(** [uploadTracker.get(fileId)]: the session object, or [undefined]. *)
Definition tracker_get (fileId : string) (w : world) : option (nat * session) :=
  l ← uploadTracker w !! fileId; u ← heap w !! l; Some (l, u).

(** [upload.writeStream.end()] on the object at [l]. *)
Definition end_stream (l : nat) (w : world) : world :=
  with_heap (alter (λ u, with_stream (ws_end (writeStream u)) u) l (heap w)) w.

(** [clearTimeout(h)]. *)
Definition clearTimeout (h : nat) (w : world) : world :=
  with_timers (delete h (timers w)) w.

Definition tracker_delete (fileId : string) (w : world) : world :=
  with_tracker (delete fileId (uploadTracker w)) w.

(** The callback given to [setTimeout] when a session is created. *)
Definition timeoutCallback (fileId : string) (w : world) : world :=
  let w1 :=
    match tracker_get fileId w with
    | Some (l, _) => end_stream l w
    | None => w
    end in
  tracker_delete fileId w1.

(** ** The server *)

(** The headers and the query string of a request that the handlers
    read. *)
Record request := {
  x_file_name : option string;
  x_chunk_index : option string;
  x_total_chunks : option string;
  x_file_id : option string;
  query_path : option string;
}.

Inductive settled :=
  | Resolved (w : world)
  | Rejected (w : world)
  | Unsettled (w : world).

(** What the handlers take from the Node runtime: [process.cwd()],
    [os.tmpdir()], [path.resolve] and [decodeURIComponent] ([None] when it
    throws [URIError]). *)
Record runtime := {
  cwd : path;
  tmpdir : path;
  path_resolve : string → path;
  decodeURIComponent : string → option string;
}.

Section Server.

Variable rt : runtime.

(** [path.resolve(query.path || getCurrentPath())]. *)
Definition outputDirOf (q : option string) : path :=
  match q with
  | Some (String a s) => path_resolve rt (String a s)
  | _ => cwd rt
  end.

(** [path.join(os.tmpdir(), 'file-server-chunks', fileId)]. *)
Definition tempDirOf (fileId : string) : path :=
  path_join (path_join (tmpdir rt) "file-server-chunks") fileId.

(** [path.join(dir, `chunk-${i}`)]. *)
Definition chunkPathOf (dir : path) (i : Z) : path :=
  path_join dir ("chunk-" +:+ pretty i).

(** The block run for chunk index 0: the target directory is created,
    the destination is opened for writing and a new session object,
    with a new timer, is stored under [fileId].  [None] when creating
    the directory throws.  An open that fails is reported by the stream
    with an ['error'] event nobody listens to.  The stream is created
    with [autoClose: false]. *)
Definition createSession (fileId fileName : string) (total : jsnum)
           (q : option string) (w : world) : option world :=
  let outputDir := outputDirOf q in
  fs1 ← ensureDir outputDir (fs w);
  let finalFilePath := path_join outputDir fileName in
  let l := fresh (dom (heap w)) in
  let opened := openW finalFilePath fs1 in
  let u := {| finalPath := finalFilePath;
              receivedChunks := ∅;
              writeStream := {| ws_path := finalFilePath; ws_pos := 0;
                                ws_length := 0; ws_needDrain := false;
                                ws_onDrain := []; ws_ended := false;
                                ws_autoClose := false; ws_closed := false |};
              totalChunks := total;
              createdAt := now w;
              timeout := l |} in
  Some {| fs := default fs1 opened;
          heap := <[l := u]> (heap w);
          uploadTracker := <[fileId := l]> (uploadTracker w);
          timers := <[l := {| tm_fileId := fileId;
                              tm_due := (now w + UPLOAD_TIMEOUT)%Z |}]>
                      (timers w);
          inflight := inflight w; now := now w; nreq := nreq w;
          log := log w;
          crashed := crashed w || negb (bool_decide (is_Some opened)) |}.

(** The synchronous part of the [/upload-chunk] handler, up to the
    registration of the listeners on the request. *)
Definition uploadChunk (req : request) (w : world) : world :=
  let rid := nreq w in
  let w := with_nreq (S rid) w in
  match decodeURIComponent rt (or_default (x_file_name req) "") with
  | None => respond rid 500 ServerError w
  | Some fileName =>
    let chunkIndex := parseInt (or_default (x_chunk_index req) "0") in
    let total := parseInt (or_default (x_total_chunks req) "1") in
    let fileId := or_default (x_file_id req) (pretty (now w)) in
    if is_empty fileName then respond rid 400 MissingFileName w
    else
      match ensureDir (path_join (cwd rt) "uploads") (fs w) with
      | None => respond rid 500 ServerError w
      | Some fs1 =>
        let tempDir := tempDirOf fileId in
        match ensureDir tempDir fs1 with
        | None => respond rid 500 ServerError (with_fs fs1 w)
        | Some fs2 =>
          let w2 := with_fs fs2 w in
          match (if strict_eq chunkIndex (Some 0%Z)
                 then createSession fileId fileName total (query_path req) w2
                 else Some w2) with
          | None => respond rid 500 ServerError w2
          | Some w3 =>
            match tracker_get fileId w3 with
            | None =>
              if strict_eq chunkIndex (Some 0%Z) then
                (* the tracker is set again, but [upload] is still
                   [undefined] when its [receivedChunks] is read *)
                match createSession fileId fileName total
                        (query_path req) w3 with
                | None => respond rid 500 ServerError w3
                | Some w4 => respond rid 500 ServerError w4
                end
              else respond rid 400 (SessionNotFound true) w3
            | Some (l, upload) =>
              if bool_decide (chunkIndex ∈ receivedChunks upload) then
                respond rid 200 (AlreadyReceived chunkIndex total) w3
              else
                with_inflight
                  (<[rid := {| p_fileName := fileName;
                               p_chunkIndex := chunkIndex;
                               p_totalChunks := total;
                               p_fileId := fileId;
                               p_tempDir := tempDir;
                               p_upload := l;
                               p_dataBuffer := [];
                               p_awaiting := false |}]> (inflight w3)) w3
            end
          end
        end
      end
  end.

(** [req.on('data', ...)]. *)
Definition onData (rid : nat) (chunk : bytes) (w : world) : world :=
  match inflight w !! rid with
  | Some p =>
    if p_awaiting p then w
    else
      with_inflight
        (<[rid := with_dataBuffer (p_dataBuffer p ++ chunk) p]> (inflight w)) w
  | None => w
  end.

(** The part of the ['end'] listener after the write (and after the
    ['drain'] event when it waited for one): the chunk is marked as
    received and the request is answered. *)
Definition finishChunk (rid : nat) (p : pending) (w : world) : world :=
  let l := p_upload p in
  match heap w !! l with
  | None => respond rid 500 ServerError w
  | Some upload =>
    let upload := with_received ({[p_chunkIndex p]} ∪ receivedChunks upload)
                    upload in
    let w1 := with_heap (<[l := upload]> (heap w)) w in
    if strict_eq (Some (Z.of_nat (size (receivedChunks upload))))
         (totalChunks upload)
    then
      let w2 := end_stream l w1 in
      let w3 := clearTimeout (timeout upload) w2 in
      let w4 := tracker_delete (p_fileId p) w3 in
      let w5 := with_fs (removeDirectory (p_tempDir p) (fs w4)).2 w4 in
      respond rid 200 (UploadComplete (finalPath upload)) w5
    else
      respond rid 200
        (ChunkReceived (p_chunkIndex p) (p_totalChunks p)
           (size (receivedChunks upload)) (p_fileId p)) w1
  end.

(** [req.on('end', ...)]: the body is written to the session's stream;
    when the stream is saturated the listener waits for ['drain']. *)
Definition onEnd (rid : nat) (w : world) : world :=
  match inflight w !! rid with
  | Some p =>
    if p_awaiting p then w
    else
      let l := p_upload p in
      match heap w !! l with
      | None => respond rid 500 ServerError w
      | Some upload =>
        match ws_write (p_dataBuffer p) (writeStream upload) (fs w) with
        | None => crash w
        | Some (canContinue, s, fs') =>
          let w1 := with_fs fs' w in
          if (canContinue : bool) then
            finishChunk rid p
              (with_heap (<[l := with_stream s upload]> (heap w1)) w1)
          else
            with_inflight (<[rid := with_awaiting p]> (inflight w1))
              (with_heap
                 (<[l := with_stream (ws_subscribe rid s) upload]> (heap w1))
                 w1)
        end
      end
  | None => w
  end.

(** [req.on('error', ...)]. *)
Definition onError (rid : nat) (w : world) : world :=
  match inflight w !! rid with
  | Some p => if p_awaiting p then w else respond rid 500 ChunkUploadError w
  | None => w
  end.

(** The promise of a waiting ['end'] listener is resolved. *)
Definition resume (w : world) (rid : nat) : world :=
  match inflight w !! rid with
  | Some p => if p_awaiting p then finishChunk rid p w else w
  | None => w
  end.

(** The stream of the session object [l] has flushed what it held.  It
    emits ['drain'] when one is owed and [end()] was not called; the
    listeners run in the order they subscribed.  A stream that was ended
    finishes. *)
Definition onFlushed (l : nat) (w : world) : world :=
  match heap w !! l with
  | Some upload =>
    let s := writeStream upload in
    if negb (ws_ended s) && ws_needDrain s then
      let s' := {| ws_path := ws_path s; ws_pos := ws_pos s;
                   ws_length := 0; ws_needDrain := false;
                   ws_onDrain := []; ws_ended := false;
                   ws_autoClose := ws_autoClose s;
                   ws_closed := ws_closed s |} in
      foldl resume
        (with_heap (<[l := with_stream s' upload]> (heap w)) w)
        (ws_onDrain s)
    else
      let s' := ws_finish
                  {| ws_path := ws_path s; ws_pos := ws_pos s;
                     ws_length := 0; ws_needDrain := ws_needDrain s;
                     ws_onDrain := ws_onDrain s; ws_ended := ws_ended s;
                     ws_autoClose := ws_autoClose s;
                     ws_closed := ws_closed s |} in
      with_heap (<[l := with_stream s' upload]> (heap w)) w
  | None => w
  end.

(** A timer armed by [createSession] is due. *)
Definition onTimer (h : nat) (w : world) : world :=
  match timers w !! h with
  | Some tm =>
    if bool_decide (tm_due tm ≤ now w)%Z
    then timeoutCallback (tm_fileId tm) (clearTimeout h w)
    else w
  | None => w
  end.

(** One iteration of the loop over [uploadTracker.entries()] in the
    hourly clean-up. *)
Definition sweep_one (w : world) (e : string * nat) : world :=
  match heap w !! e.2 with
  | Some upload =>
    if bool_decide (now w - createdAt upload > UPLOAD_TIMEOUT)%Z then
      tracker_delete e.1 (clearTimeout (timeout upload) (end_stream e.2 w))
    else w
  | None => w
  end.

Definition sweep (w : world) : world :=
  foldl sweep_one w (map_to_list (uploadTracker w)).

(** The verification loop of [/combine-chunks]: the first [i] below
    [totalChunks] whose chunk path does not exist.  [n] counts the
    iterations left. *)
Fixpoint firstMissing (n : nat) (i : Z) (tempDir : path) (f : filesystem)
  : option Z :=
  match n with
  | O => None
  | S n' =>
    if existsSync (chunkPathOf tempDir i) f
    then firstMissing n' (i + 1)%Z tempDir f
    else Some i
  end.

(** No iteration when [totalChunks] is [NaN] or not positive. *)
Definition verifyChunks (total : jsnum) (tempDir : path) (f : filesystem)
  : option Z :=
  match total with
  | Some t => firstMissing (Z.to_nat t) 0%Z tempDir f
  | None => None
  end.

(** [combineChunks]: [processNextChunk] with [currentChunk] and the
    offset [pos] of the output stream. *)
Fixpoint processNextChunk (fuel : nat) (chunkDir : path) (total : jsnum)
         (out : path) (currentChunk : Z) (pos : nat) (w : world) : settled :=
  match fuel with
  | O => Unsettled w
  | S fuel' =>
    if js_ge (Some currentChunk) total then Resolved (emit (IoEnd out) w)
    else
      let chunkPath := chunkPathOf chunkDir currentChunk in
      match readFile chunkPath (fs w) with
      | None => Rejected w
      | Some d =>
        processNextChunk fuel' chunkDir total out (currentChunk + 1)%Z
          (pos + length d)
          (emit (IoPipe chunkPath out d)
             (with_fs (writeAt out pos d (fs w)) w))
      end
  end.

(** Each call reads one more chunk file, so the calls are bounded by
    [totalChunks], and by the number of entries of the file system
    when [totalChunks] is [NaN]. *)
Definition combineChunks (chunkDir : path) (total : jsnum) (out : path)
           (w : world) : settled :=
  let fuel := match total with
              | Some t => S (Z.to_nat t)
              | None => S (size (fs w))
              end in
  processNextChunk fuel chunkDir total out 0%Z 0 w.

(** The [/combine-chunks] handler. *)
Definition combineChunksHandler (req : request) (w : world) : world :=
  let rid := nreq w in
  let w := with_nreq (S rid) w in
  let fileName := or_default (x_file_name req) "" in
  let fileId := or_default (x_file_id req) "" in
  let total := parseInt (or_default (x_total_chunks req) "0") in
  if is_empty fileName || is_empty fileId || strict_eq total (Some 0%Z)
  then respond rid 400 MissingFileInformation w
  else
    let tempDir := tempDirOf fileId in
    if negb (existsSync tempDir (fs w))
    then respond rid 404 StagingNotFound w
    else
      match verifyChunks total tempDir (fs w) with
      | Some i => respond rid 400 (MissingChunk i) w
      | None =>
        match ensureDir (outputDirOf (query_path req)) (fs w) with
        | None => crash w
        | Some fs1 =>
          let finalPath := path_join (outputDirOf (query_path req))
                             fileName in
          match openW finalPath fs1 with
          | None =>
            (* the open fails after [combineChunks] was called.  With
               nothing to copy the promise is resolved by then, and the
               ['error'] listener of the stream answers a second time,
               which throws.  Otherwise the listener answers and the
               copy stops at the stream that failed. *)
            if js_ge (Some 0%Z) total then
              let w1 := emit (IoEnd finalPath) (with_fs fs1 w) in
              let w2 := emit (IoRemoveDirectory tempDir)
                          (with_fs (removeDirectory tempDir (fs w1)).2 w1) in
              crash (respond rid 200 (Assembled finalPath) w2)
            else respond rid 500 WriteOutputFailed (with_fs fs1 w)
          | Some fs2 =>
            match combineChunks tempDir total finalPath
                    (emit (IoOpen finalPath) (with_fs fs2 w)) with
            | Resolved w1 =>
              let w2 := emit (IoRemoveDirectory tempDir)
                          (with_fs (removeDirectory tempDir (fs w1)).2 w1) in
              respond rid 200 (Assembled finalPath) w2
            | Rejected w1 => respond rid 500 CombineFailed w1
            | Unsettled w1 => w1
            end
          end
        end
      end.

(** ** The event loop *)

Inductive event :=
  | EvUploadChunk (req : request)
  | EvData (rid : nat) (chunk : bytes)
  | EvEnd (rid : nat)
  | EvError (rid : nat)
  | EvFlushed (l : nat)
  | EvTimer (h : nat)
  | EvSweep
  | EvTick (dt : N)
  | EvCombineChunks (req : request).

Definition step (w : world) (e : event) : world :=
  if crashed w then w
  else
    match e with
    | EvUploadChunk req => uploadChunk req w
    | EvData rid chunk => onData rid chunk w
    | EvEnd rid => onEnd rid w
    | EvError rid => onError rid w
    | EvFlushed l => onFlushed l w
    | EvTimer h => onTimer h w
    | EvSweep => sweep w
    | EvTick dt => with_now (now w + Z.of_N dt)%Z w
    | EvCombineChunks req => combineChunksHandler req w
    end.

Definition run (w : world) (es : list event) : world := foldl step w es.

End Server.

Section Sequential.

Variable rt : runtime.

(** The body of the pending request [rid] arrives and ends with nothing
    in between; when its ['end'] listener then waits for ['drain'], the
    stream flushes next. *)
Definition receiveBody (rid : nat) (body : bytes) (w : world) : world :=
  let w1 := run rt w [EvData rid body; EvEnd rid] in
  match inflight w1 !! rid with
  | Some p => step rt w1 (EvFlushed (p_upload p))
  | None => w1
  end.

(** One chunk request served from arrival to answer. *)
Definition serve (w : world) (rb : request * bytes) : world :=
  receiveBody (nreq w) rb.2 (step rt w (EvUploadChunk rb.1)).

Definition serveAll (w : world) (rbs : list (request * bytes)) : world :=
  foldl serve w rbs.

End Sequential.

(** The server after start-up, on a file system [f] at time [t]. *)
Definition boot (f : filesystem) (t : Z) : world :=
  {| fs := f; heap := ∅; uploadTracker := ∅; timers := ∅; inflight := ∅;
     now := t; nreq := 0; log := []; crashed := false |}.

(** ** What a run of the server maintains *)

(** The relations between the tracker, the session objects, the timers,
    the pending requests and the responses that every event preserves. *)
Record world_ok (w : world) : Prop := {
  ok_tracker : ∀ f l, uploadTracker w !! f = Some l → is_Some (heap w !! l);
  ok_inj : ∀ f f' l,
    uploadTracker w !! f = Some l → uploadTracker w !! f' = Some l → f = f';
  ok_pending : ∀ rid p,
    inflight w !! rid = Some p → is_Some (heap w !! p_upload p);
  ok_owner : ∀ rid p f,
    inflight w !! rid = Some p → uploadTracker w !! f = Some (p_upload p) →
    f = p_fileId p;
  ok_timeout : ∀ l u, heap w !! l = Some u → timeout u = l;
  ok_timer : ∀ f l u,
    uploadTracker w !! f = Some l → heap w !! l = Some u →
    timers w !! l =
      Some {| tm_fileId := f; tm_due := (createdAt u + UPLOAD_TIMEOUT)%Z |};
  ok_timers : ∀ h tm, timers w !! h = Some tm → is_Some (heap w !! h);
  ok_size : ∀ f l u t,
    uploadTracker w !! f = Some l → heap w !! l = Some u →
    totalChunks u = Some t → (1 ≤ t)%Z →
    (Z.of_nat (size (receivedChunks u)) < t)%Z;
  ok_rid : ∀ rid p, inflight w !! rid = Some p → rid < nreq w;
  ok_drain_rid : ∀ l u rid,
    heap w !! l = Some u → rid ∈ ws_onDrain (writeStream u) → rid < nreq w;
  ok_drain_owner : ∀ l u rid p,
    heap w !! l = Some u → rid ∈ ws_onDrain (writeStream u) →
    inflight w !! rid = Some p → p_upload p = l;
  ok_log : ∀ rid st r,
    Response rid st r ∈ log w → rid < nreq w ∧ inflight w !! rid = None;
}.

(** The response that [w'] has logged since [w], when it is the only
    new output and answers the request that arrived first in [w]. *)
Definition answer (w w' : world) : option (nat * reply) :=
  match drop (length (log w)) (log w') with
  | [Response rid st r] => if decide (rid = nreq w) then Some (st, r) else None
  | _ => None
  end.




Definition settled_world (s : settled) : world :=
  match s with
  | Resolved w | Rejected w | Unsettled w => w
  end.

(** ** How a world changes *)


(** From [w] to [w'] the request [rid] was left alone: its listeners are
    as they were, no response to it was added, and the stream of the
    session object [l] has kept its ['drain'] listener and the ['drain']
    event it owes. *)
Definition undisturbed (rid l : nat) (w w' : world) : Prop :=
  inflight w' !! rid = inflight w !! rid ∧
  (∀ st r, Response rid st r ∈ log w' → Response rid st r ∈ log w) ∧
  (∀ u, heap w !! l = Some u →
     ∃ u', heap w' !! l = Some u' ∧
           (rid ∈ ws_onDrain (writeStream u) →
            rid ∈ ws_onDrain (writeStream u')) ∧
           (ws_needDrain (writeStream u) = true →
            ws_needDrain (writeStream u') = true)).

(** The ['end'] listener of the pending request [rid] is suspended on the
    ['drain'] event of its session's stream, which owes one, and the
    request has no response. *)
Definition waiting (rid : nat) (p : pending) (w : world) : Prop :=
  inflight w !! rid = Some p ∧ p_awaiting p = true ∧
  (∃ u, heap w !! p_upload p = Some u ∧
        rid ∈ ws_onDrain (writeStream u) ∧
        ws_needDrain (writeStream u) = true) ∧
  ∀ st r, Response rid st r ∉ log w.

(** A stream as [createSession] makes it: without [autoClose], its file
    descriptor not closed. *)
Definition unclosed (s : wstream) : Prop :=
  ws_autoClose s = false ∧ ws_closed s = false.



(** ** A concrete runtime *)

(** The components of a path written with [/]. *)
Fixpoint split_path (s cur : string) : path :=
  match s with
  | EmptyString => if is_empty cur then [] else [cur]
  | String a s' =>
    if Ascii.eqb a "/"
    then (if is_empty cur then [] else [cur]) ++ split_path s' ""
    else split_path s' (cur +:+ String a "")
  end.

(** [path.resolve(s)] of POSIX from the working directory [base]: a
    path that does not begin with [/] is read from [base], and [.] and
    [..] are resolved. *)
Definition resolve_segment (cur : path) (s : string) : path :=
  if String.eqb s "." then cur
  else if String.eqb s ".." then removelast cur
  else cur ++ [s].

Definition resolve_from (base : path) (s : string) : path :=
  foldl resolve_segment
    (match s with
     | String "/" _ => []
     | _ => base
     end)
    (split_path s "").

(** The server started in [/srv] with [/tmp] for temporary files;
    [decodeURIComponent] is taken on names without escapes. *)
Definition example_rt : runtime :=
  {| cwd := ["srv"]; tmpdir := ["tmp"];
     path_resolve := resolve_from ["srv"];
     decodeURIComponent := Some |}.

(** A file system with only the root directory. *)
Definition example_fs : filesystem := {[ [] := Directory ]}.

Definition chunk_request (name index total id : string) (q : option string)
  : request :=
  {| x_file_name := Some name; x_chunk_index := Some index;
     x_total_chunks := Some total; x_file_id := Some id; query_path := q |}.

(** ** What serving a chunk does *)

(** [w'] is [w] after the ['end'] listener of the pending request [p] has
    written [body] to the stream of its session object, marked its chunk
    and answered: the output grew at the stream's offset, and the
    session was finalized when the count reached its total. *)
Definition chunk_written (rid : nat) (p : pending) (body : bytes)
           (w w' : world) : Prop :=
  ∃ u u',
    heap w !! p_upload p = Some u ∧ heap w' !! p_upload p = Some u' ∧
    receivedChunks u' = {[p_chunkIndex p]} ∪ receivedChunks u ∧
    finalPath u' = finalPath u ∧ totalChunks u' = totalChunks u ∧
    timeout u' = timeout u ∧ createdAt u' = createdAt u ∧
    ws_path (writeStream u') = ws_path (writeStream u) ∧
    ws_pos (writeStream u') = ws_pos (writeStream u) + length body ∧
    ws_onDrain (writeStream u') = [] ∧
    nreq w' = nreq w ∧ crashed w' = false ∧ now w' = now w ∧
    let written := writeAt (ws_path (writeStream u)) (ws_pos (writeStream u))
                     body (fs w) in
    if strict_eq (Some (Z.of_nat (size (receivedChunks u')))) (totalChunks u)
    then
      ws_ended (writeStream u') = true ∧
      uploadTracker w' = delete (p_fileId p) (uploadTracker w) ∧
      timers w' = delete (timeout u) (timers w) ∧
      fs w' = (removeDirectory (p_tempDir p) written).2 ∧
      log w' = log w ++ [Response rid 200 (UploadComplete (finalPath u))]
    else
      ws_ended (writeStream u') = false ∧
      uploadTracker w' = uploadTracker w ∧ timers w' = timers w ∧
      fs w' = written ∧
      log w' = log w ++
        [Response rid 200
           (ChunkReceived (p_chunkIndex p) (p_totalChunks p)
              (size (receivedChunks u')) (p_fileId p))].

(** ** An upload in progress *)



(** * More of [server.js] *)

(** ** Chunks in any order *)


(** ** Shutdown *)

(** One iteration of the loop of the [SIGINT] handler over
    [uploadTracker.entries()]: the stream of the session is ended and its
    timer cleared. *)
Definition shutdown_one (w : world) (e : string * nat) : world :=
  match heap w !! e.2 with
  | Some upload => clearTimeout (timeout upload) (end_stream e.2 w)
  | None => w
  end.

(** The [SIGINT] handler: the loop, [uploadTracker.clear()] and
    [process.exit(0)], after which the process handles no event, as
    after [crash]. *)
Definition onSigint (w : world) : world :=
  crash (with_tracker ∅
           (foldl shutdown_one w (map_to_list (uploadTracker w)))).

(** ** The endpoints that only read *)

(** *** Paths of the operating system

    How a path written with [/] is looked up (POSIX, without symbolic
    links): from the root or from the working directory, one component
    after the other; every component on the way has to be a directory
    that exists. *)
Inductive resolved :=
  | At (p : path)
  | NoEntry
  | NotDir.

Fixpoint walk (f : filesystem) (cur : path) (segs : list string) : resolved :=
  match segs with
  | [] => At cur
  | s :: segs' =>
    match f !! cur with
    | Some Directory =>
      let next := if String.eqb s "." then cur
                  else if String.eqb s ".." then parent cur
                  else path_join cur s in
      match f !! next with
      | Some _ => walk f next segs'
      | None => NoEntry
      end
    | Some (File _) => NotDir
    | None => NoEntry
    end
  end.

Definition starts_with_slash (s : string) : bool :=
  match s with
  | String a _ => Ascii.eqb a "/"
  | EmptyString => false
  end.

Fixpoint ends_with_slash (s : string) : bool :=
  match s with
  | EmptyString => false
  | String a s' =>
    match s' with
    | EmptyString => Ascii.eqb a "/"
    | _ => ends_with_slash s'
    end
  end.

(** What [fs.readFile(s, callback)] hands to its callback: the data, or
    an error, of which the handlers tell [ENOENT] from the others
    ([ENOTDIR], [EISDIR]). *)
Inductive read_result :=
  | ReadOk (data : bytes)
  | ENOENT
  | OtherError.

Definition readFileAt (cwd : path) (s : string) (f : filesystem)
  : read_result :=
  if is_empty s then ENOENT
  else
    match walk f (if starts_with_slash s then [] else cwd)
            (split_path s "") with
    | At p =>
      match f !! p with
      | Some (File d) => if ends_with_slash s then OtherError else ReadOk d
      | Some Directory => OtherError
      | None => ENOENT
      end
    | NoEntry => ENOENT
    | NotDir => OtherError
    end.

(** *** The answers *)

Inductive content :=
  | NoContent
  | Text (s : string)
  | ErrorText
  | FileContent (contentType : string) (data : bytes)
  | FoldersRoot
  | FoldersOf (p : path) (folders : list string)
  | FoldersFailed.

(** The [switch] on the extension of the static file handler. *)
Definition contentTypeOf (ext : string) : string :=
  if String.eqb ext ".js" then "text/javascript"
  else if String.eqb ext ".css" then "text/css"
  else if String.eqb ext ".json" then "application/json"
  else if String.eqb ext ".png" then "image/png"
  else if String.eqb ext ".jpg" then "image/jpg"
  else if String.eqb ext ".svg" then "image/svg+xml"
  else "text/html".

(** The file that the static file handler reads for [pathname]. *)
Definition staticFilePath (pathname : string) : string :=
  let filePath := "." +:+ pathname in
  if String.eqb filePath "./" then "./public/index.html"
  else if negb (String.prefix "./public/" filePath)
       then "./public" +:+ pathname
       else filePath.

Section ReadOnly.

Variable rt : runtime.

(** [path.extname]. *)
Variable extname : string → string.

(** [process.platform === 'win32']. *)
Variable win32 : bool.

(** [GET /]. *)
Definition serveIndex (f : filesystem) : nat * content :=
  match readFileAt (cwd rt) "./public/index.html" f with
  | ReadOk d => (200, FileContent "text/html" d)
  | _ => (500, Text "Error loading HTML")
  end.

(** The last [GET] branch: static files from the [public] directory. *)
Definition serveStatic (pathname : string) (f : filesystem) : nat * content :=
  let filePath := staticFilePath pathname in
  let contentType := contentTypeOf (extname filePath) in
  match readFileAt (cwd rt) filePath f with
  | ReadOk d => (200, FileContent contentType d)
  | ENOENT => (404, Text "File not found")
  | OtherError => (500, ErrorText)
  end.

(** [GET /list-folders]: [q] is [query.path]. *)
Definition listFolders (q : option string) (f : filesystem) : nat * content :=
  let currentPath := or_default q "/" in
  if (String.eqb currentPath "/" || String.eqb currentPath "\") && win32
  then (200, FoldersRoot)
  else
    let currentPath := path_resolve rt currentPath in
    match readdirSync currentPath f with
    | (Some entries, _) =>
      (200, FoldersOf currentPath
              (filter (λ name, f !! path_join currentPath name = Some Directory)
                 entries))
    | (None, _) => (200, FoldersFailed)
    end.

End ReadOnly.

(** * Properties *)

(** [eval_in t H] computes the closed term [t] and names the equation. *)
Ltac eval_in t H :=
  let v := eval vm_compute in t in
  assert (t = v) as H by reflexivity.

(** [by_compute] proves a decidable closed proposition by evaluating its
    decision procedure. *)
Ltac by_compute :=
  match goal with
  | |- ?P => refine (@bool_decide_unpack P _ _); vm_compute; exact I
  end.

(** [ok_destruct H] names the fields of a proof of [world_ok]. *)
Ltac ok_destruct H :=
  destruct H as [Htr Hinj Hpe Hown Hto Htm Htms Hsz Hrid Hdr Hdo Hlog].

(** ** The file system *)

Lemma child_name_spec (p k : path) (n : string) : child_name p k = Some n ↔ k = p ++ [n].
Proof.
  unfold child_name, parent. split.
  - destruct k as [|a k']; [done|].
    case_decide as Hp; [|done].
    intros [l' Hl]%last_Some. rewrite Hl in Hp |- *.
    rewrite removelast_last in Hp. by subst.
  - intros ->. destruct (p ++ [n]) eqn:E; [by destruct p|]. rewrite <- E.
    rewrite removelast_last. rewrite decide_True by done. apply last_snoc.
Qed.

Lemma elem_of_children (p : path) (n : string) (fs : filesystem) :
  n ∈ children p fs ↔ is_Some (fs !! (p ++ [n])).
Proof.
  unfold children. rewrite list_elem_of_omap. split.
  - intros (k & Hk & Hc). apply child_name_spec in Hc as ->.
    by apply elem_of_dom, elem_of_elements.
  - intros H. exists (p ++ [n]). split; [|by apply child_name_spec].
    by apply elem_of_elements, elem_of_dom.
Qed.

Lemma NoDup_children (p : path) (fs : filesystem) : NoDup (children p fs).
Proof.
  unfold children. generalize (NoDup_elements (dom fs)).
  induction 1 as [|k l Hk Hl IH]; simpl; [constructor|].
  destruct (child_name p k) as [n|] eqn:E; [|done].
  constructor; [|done]. rewrite list_elem_of_omap. intros (k' & Hk' & E').
  apply child_name_spec in E, E'. congruence.
Qed.

Lemma length_le_fs_depth (fs : filesystem) (k : path) :
  is_Some (fs !! k) → (length k ≤ fs_depth fs)%nat.
Proof.
  intros H. unfold fs_depth. apply max_list_elem_of_le.
  apply list_elem_of_fmap. exists k. split; [done|].
  by apply elem_of_elements, elem_of_dom.
Qed.

(** What lies outside [p] is not touched by [removeDirectory(p)], whether
    it throws or not. *)
Lemma forEachM_frame {A} (f : A → FsM unit) (P : path → Prop) l :
  (∀ x fs k, P k → (f x fs).2 !! k = fs !! k) →
  ∀ fs k, P k → (forEachM f l fs).2 !! k = fs !! k.
Proof.
  intros Hf. induction l as [|x l IH]; intros fs k HP; simpl; [done|].
  unfold fs_bind. specialize (Hf x fs k HP).
  destruct (f x fs) as [[[]|] fs1]; simpl in *; [|done].
  by rewrite IH.
Qed.

Lemma removeDirectory_rec_frame (fuel : nat) (p : path) (fs : filesystem)
      (k : path) :
  ¬ p `prefix_of` k → (removeDirectory_rec fuel p fs).2 !! k = fs !! k.
Proof.
  revert p fs k. induction fuel as [|fuel IH]; intros p fs k Hk; simpl; [done|].
  unfold fs_bind, existsSyncM. destruct (existsSync p fs); [|done].
  unfold readdirSync. destruct (fs !! p) as [[|]|] eqn:Ep; try done.
  match goal with |- context [forEachM ?f ?l fs] =>
    pose proof (forEachM_frame f (λ k, ¬ p `prefix_of` k) l) as HF;
    assert ((forEachM f l fs).2 !! k = fs !! k) as HE;
    [apply HF; [clear -IH|done]|destruct (forEachM f l fs) as [[[]|] fs1]]
  end; simpl in *.
  - intros file fs k Hk. unfold fs_bind, lstat_isDirectory.
    destruct (fs !! path_join p file) as [[|]|] eqn:Ec; simpl; try done.
    + unfold unlinkSync. rewrite Ec. simpl. apply lookup_delete_ne.
      intros <-. apply Hk. by exists [file].
    + apply IH. intros [q Hq]. apply Hk. exists (file :: q).
      rewrite Hq. unfold path_join. by rewrite <- app_assoc.
  - rewrite <- HE. unfold rmdirSync. destruct (fs1 !! p) as [[|]|]; try done.
    destruct (children p fs1); [|done]. simpl. apply lookup_delete_ne.
    intros <-. by apply Hk.
  - done.
Qed.

Lemma lookup_outside (p : path) (fs : filesystem) (k : path) :
  outside p fs !! k = if decide (p `prefix_of` k) then None else fs !! k.
Proof.
  unfold outside. rewrite map_lookup_filter.
  destruct (fs !! k); simpl; case_decide; try done.
  - by rewrite option_guard_False by (simpl; tauto).
  - by rewrite option_guard_True.
Qed.

Lemma closed_ancestor (fs : filesystem) (p q : path) :
  fs_closed fs → q ≠ [] → is_Some (fs !! (p ++ q)) → fs !! p = Some Directory.
Proof.
  intros Hc. induction q as [|x q IH] using rev_ind; [done|]. intros _ [e He].
  pose proof (Hc _ _ He) as [Hnil|Hpar]; simpl in *.
  { by destruct p, q. }
  unfold parent in Hpar. rewrite app_assoc, removelast_last in Hpar.
  destruct q as [|y q]; [by rewrite app_nil_r in Hpar|].
  apply IH; [done|]. by exists Directory.
Qed.

Lemma outside_closed (c : path) (fs : filesystem) :
  fs_closed fs → fs_closed (outside c fs).
Proof.
  intros Hc k e. rewrite !lookup_outside. case_decide as Hk; [done|].
  intros He. destruct (Hc _ _ He) as [?|Hpar]; [by left|right]; simpl in *.
  rewrite decide_False; [done|].
  intros [q Hq]. apply Hk. exists (q ++ [default "" (last k)]).
  destruct k as [|a k] using rev_ind; [by destruct c, q|].
  unfold parent in Hq. rewrite removelast_last in Hq.
  rewrite last_snoc. simpl. by rewrite Hq, app_assoc.
Qed.

Lemma outside_file (c : path) (fs : filesystem) (d : bytes) :
  fs_closed fs → fs !! c = Some (File d) → delete c fs = outside c fs.
Proof.
  intros Hc Hf. apply map_eq. intros k. rewrite lookup_outside.
  case_decide as Hk.
  - destruct Hk as [q ->]. destruct q as [|x q].
    + rewrite app_nil_r. apply lookup_delete_eq.
    + rewrite lookup_delete_ne.
      2:{ intros E. apply (f_equal length) in E. rewrite length_app in E.
          simpl in E. lia. }
      apply eq_None_not_Some. intros Hs.
      apply closed_ancestor in Hs; [congruence|done..].
  - apply lookup_delete_ne. intros <-. by apply Hk.
Qed.

Lemma lookup_foldl_outside (p : path) (l : list string) (fs : filesystem)
      (k : path) :
  foldl (λ f n, outside (path_join p n) f) fs l !! k =
  if decide (Exists (λ n, path_join p n `prefix_of` k) l) then None
  else fs !! k.
Proof.
  revert fs. induction l as [|n l IH]; intros fs; cbn [foldl].
  - case_decide as H; [by apply Exists_nil in H|done].
  - rewrite IH. rewrite lookup_outside.
    destruct (decide (path_join p n `prefix_of` k)) as [Hn|Hn].
    + rewrite (decide_True (P := Exists _ (n :: l))) by by left.
      by case_decide.
    + case_decide as Hl.
      * rewrite decide_True; [done|]. by right.
      * rewrite decide_False; [done|]. by intros [?|?]%Exists_cons.
Qed.

(** On a file system where every entry lies in a directory,
    [removeDirectory(p)] on a directory returns normally and leaves the
    file system without [p] and everything below it, when [fuel] exceeds
    the depth of what is below [p]. *)
Lemma removeDirectory_rec_spec (fuel : nat) (p : path) (fs : filesystem) :
  fs_closed fs →
  fs !! p = Some Directory →
  (∀ k, is_Some (fs !! k) → p `prefix_of` k → length k < length p + fuel)%nat →
  removeDirectory_rec fuel p fs = (Some (), outside p fs).
Proof.
  revert p fs. induction fuel as [|fuel IH]; intros p fs Hc Hp Hd.
  { assert (length p < length p + 0)%nat; [|lia].
    apply Hd; [by rewrite Hp|done]. }
  simpl. unfold fs_bind at 1, existsSyncM, existsSync.
  rewrite bool_decide_true by by rewrite Hp.
  unfold fs_bind at 1, readdirSync. rewrite Hp.
  set (g := λ file : string, _).
  assert (∀ l cur,
    NoDup l → fs_closed cur → cur !! p = Some Directory →
    (∀ n, n ∈ l → is_Some (cur !! path_join p n)) →
    (∀ k, is_Some (cur !! k) → p `prefix_of` k →
          length k < length p + S fuel)%nat →
    forEachM g l cur =
      (Some (), foldl (λ f n, outside (path_join p n) f) cur l)) as Hloop.
  { clear Hc Hp Hd fs. induction l as [|n l IHl]; intros cur Hnd Hc Hp Hex Hd;
      cbn [forEachM foldl]; [done|].
    apply NoDup_cons in Hnd as [Hn Hnd]. unfold fs_bind at 1.
    assert (g n cur = (Some (), outside (path_join p n) cur)) as ->.
    { unfold g, fs_bind, lstat_isDirectory.
      destruct (Hex n) as [[d|] Hcn]; [by left| |]; rewrite Hcn.
      - unfold unlinkSync. rewrite Hcn. f_equal. by eapply outside_file.
      - apply IH; [done..|]. intros k Hk Hpre.
        assert (length k < length p + S fuel)%nat as Hlt.
        { apply Hd; [done|]. destruct Hpre as [q ->]. exists (n :: q).
          unfold path_join. by rewrite <- app_assoc. }
        unfold path_join. rewrite length_app. simpl. lia. }
    apply IHl; [done|by apply outside_closed|..].
    - rewrite lookup_outside, decide_False; [done|]. apply prefix_snoc_not.
    - intros n' Hn'. rewrite lookup_outside, decide_False.
      + apply Hex. by right.
      + intros Hpre. apply prefix_length_eq in Hpre.
        * apply app_inj_tail in Hpre as [_ ->]. done.
        * unfold path_join. rewrite !length_app. simpl. lia.
    - intros k. rewrite lookup_outside. case_decide; [by intros []|]. apply Hd. }
  unfold fs_bind. rewrite Hloop; [|apply NoDup_children|done..| |done].
  2:{ intros n. by rewrite elem_of_children. }
  unfold rmdirSync.
  rewrite lookup_foldl_outside. rewrite decide_False.
  2:{ intros (n & _ & Hn)%Exists_exists. by apply prefix_snoc_not in Hn. }
  rewrite Hp.
  match goal with |- context [children p ?f] =>
    assert (children p f = []) as -> end.
  { apply elem_of_nil_inv. intros n. rewrite elem_of_children.
    rewrite lookup_foldl_outside. case_decide as Hx; [by intros []|].
    intros Hs. apply Hx. apply Exists_exists. exists n.
    split; [by apply elem_of_children|done]. }
  f_equal. apply map_eq. intros k. rewrite lookup_outside.
  destruct (decide (k = p)) as [->|Hkp].
  { rewrite lookup_delete_eq. by rewrite decide_True. }
  rewrite lookup_delete_ne by done. rewrite lookup_foldl_outside.
  case_decide as Hx.
  - rewrite decide_True; [done|]. apply Exists_exists in Hx as (n & _ & Hn).
    destruct Hn as [q ->]. exists (n :: q). unfold path_join.
    by rewrite <- app_assoc.
  - case_decide as Hpre; [|done]. apply eq_None_not_Some. intros Hs.
    apply Hx. destruct Hpre as [q ->]. destruct q as [|n q].
    { by rewrite app_nil_r in Hkp. }
    apply Exists_exists. exists n. split.
    + apply elem_of_children. replace (p ++ n :: q) with ((p ++ [n]) ++ q) in Hs
        by by rewrite <- app_assoc.
      destruct q as [|m q]; [by rewrite app_nil_r in Hs|].
      erewrite closed_ancestor; [done|done| |done]. done.
    + exists q. unfold path_join. by rewrite <- app_assoc.
Qed.

Lemma removeDirectory_spec (p : path) (fs : filesystem) :
  fs_closed fs → fs !! p = Some Directory →
  removeDirectory p fs = (Some (), outside p fs).
Proof.
  intros Hc Hp. unfold removeDirectory. apply removeDirectory_rec_spec; [done..|].
  intros k Hk _. apply length_le_fs_depth in Hk. lia.
Qed.

Lemma removeDirectory_frame (p : path) (fs : filesystem) (k : path) :
  ¬ p `prefix_of` k → (removeDirectory p fs).2 !! k = fs !! k.
Proof. apply removeDirectory_rec_frame. Qed.

Lemma adds_dirs_refl (fs : filesystem) : adds_dirs fs fs.
Proof. intros k. by left. Qed.

Lemma adds_dirs_trans (fs1 fs2 fs3 : filesystem) :
  adds_dirs fs1 fs2 → adds_dirs fs2 fs3 → adds_dirs fs1 fs3.
Proof.
  intros H1 H2 k. destruct (H1 k) as [E1|[E1 E1']], (H2 k) as [E2|[E2 E2']];
    [left|right|right|left]; try split; congruence.
Qed.

Lemma closed_insert_dir (fs : filesystem) (k : path) :
  fs_closed fs → k = [] ∨ fs !! parent k = Some Directory →
  fs_closed (<[k := Directory]> fs).
Proof.
  intros Hc Hk k' e. rewrite lookup_insert. case_decide as E.
  - subst k'. intros _. destruct Hk as [?|Hk]; [by left|right].
    rewrite lookup_insert. by case_decide.
  - intros He. destruct (Hc _ _ He) as [?|Hp]; [by left|right]. simpl in *.
    rewrite lookup_insert. by case_decide.
Qed.

Lemma closed_insert_file (fs : filesystem) (k : path) (d : bytes) :
  fs_closed fs → k = [] ∨ fs !! parent k = Some Directory →
  fs !! k ≠ Some Directory →
  fs_closed (<[k := File d]> fs).
Proof.
  intros Hc Hk Hn k' e. rewrite lookup_insert. case_decide as E.
  - subst k'. intros _. destruct Hk as [?|Hk]; [by left|right].
    rewrite lookup_insert. case_decide as E'; [|done]. congruence.
  - intros He. destruct (Hc _ _ He) as [?|Hp]; [by left|right]. simpl in *.
    rewrite lookup_insert. case_decide as E'; [|done]. congruence.
Qed.

Lemma mkdir_from_spec (rest : list string) (pre : path) (fs fs' : filesystem) :
  fs_closed fs → pre = [] ∨ fs !! parent pre = Some Directory →
  mkdir_from pre rest fs = Some fs' →
  fs_closed fs' ∧ adds_dirs fs fs' ∧ fs' !! (pre ++ rest) = Some Directory.
Proof.
  revert pre fs. induction rest as [|n rest IH]; intros pre fs Hc Hpre; simpl.
  - rewrite app_nil_r. destruct (fs !! pre) as [[|]|] eqn:E; [done| |];
      intros [= <-].
    + split; [done|]. split; [apply adds_dirs_refl|done].
    + split; [by apply closed_insert_dir|]. split; [|apply lookup_insert_eq].
      intros k. rewrite lookup_insert. case_decide; [subst; by right|by left].
  - destruct (fs !! pre) as [[|]|] eqn:E; [done| |]; intros Hm.
    + apply IH in Hm as (?&?&Hl); [|done|].
      * by rewrite <- app_assoc in Hl.
      * right. unfold parent. by rewrite removelast_last.
    + apply IH in Hm as (?&Ha&Hl); [| |].
      * rewrite <- app_assoc in Hl. split; [done|]. split; [|done].
        eapply adds_dirs_trans; [|done]. intros k. rewrite lookup_insert.
        case_decide; [subst; by right|by left].
      * by apply closed_insert_dir.
      * right. unfold parent. rewrite removelast_last. apply lookup_insert_eq.
Qed.

Lemma ensureDir_spec (d : path) (fs fs' : filesystem) :
  fs_closed fs → ensureDir d fs = Some fs' →
  fs_closed fs' ∧ adds_dirs fs fs' ∧ is_Some (fs' !! d).
Proof.
  intros Hc. unfold ensureDir, existsSync. case_bool_decide as E.
  - intros [= <-]. split; [done|]. split; [apply adds_dirs_refl|done].
  - intros Hm. apply mkdir_from_spec in Hm as (?&?&Hl); [|done|by left].
    simpl in Hl. by rewrite Hl.
Qed.

Lemma adds_dirs_wf (fs fs' : filesystem) :
  fs_wf fs → adds_dirs fs fs' → fs_closed fs' → fs_wf fs'.
Proof.
  intros [Hr _] Ha Hc. split; [|done].
  destruct (Ha []) as [->|[? ->]]; done.
Qed.

Lemma adds_dirs_file (fs fs' : filesystem) (k : path) (d : bytes) :
  adds_dirs fs fs' → fs' !! k = Some (File d) ↔ fs !! k = Some (File d).
Proof. intros Ha. destruct (Ha k) as [->|[-> ->]]; done. Qed.

Lemma adds_dirs_Some (fs fs' : filesystem) (k : path) (e : entry) :
  adds_dirs fs fs' → fs !! k = Some e → fs' !! k = Some e.
Proof. intros Ha. destruct (Ha k) as [->|[-> ->]]; done. Qed.

Lemma openW_spec (p : path) (fs fs' : filesystem) :
  fs_closed fs → openW p fs = Some fs' →
  fs' = <[p := File []]> fs ∧ fs_closed fs' ∧ fs !! p ≠ Some Directory.
Proof.
  intros Hc. unfold openW. destruct (fs !! p) as [[|]|] eqn:E.
  - intros [= <-]. split; [done|]. split; [|done].
    apply closed_insert_file; [done| |congruence]. exact (Hc _ _ E).
  - done.
  - destruct p as [|a p]; [done|].
    destruct (fs !! parent (a :: p)) as [[|]|] eqn:Ep; try done.
    intros [= <-]. split; [done|]. split; [|done].
    apply closed_insert_file; [done|by right|congruence].
Qed.

Lemma writeAt_closed (p : path) (pos : nat) (b : bytes) (fs : filesystem) :
  fs_closed fs → fs_closed (writeAt p pos b fs).
Proof.
  intros Hc. unfold writeAt. destruct (fs !! p) as [[|]|] eqn:E; [|done..].
  apply closed_insert_file; [done| |congruence]. exact (Hc _ _ E).
Qed.

Lemma lookup_writeAt (p : path) (pos : nat) (b : bytes) (fs : filesystem)
      (k : path) :
  writeAt p pos b fs !! k =
  match fs !! k with
  | Some (File d) => Some (File (if decide (p = k) then pwrite d pos b else d))
  | e => e
  end.
Proof.
  unfold writeAt. destruct (fs !! p) as [[|]|] eqn:E.
  - rewrite lookup_insert. case_decide; [subst; by rewrite E|].
    by destruct (fs !! k) as [[|]|].
  - destruct (fs !! k) as [[|]|] eqn:Ek; try done. case_decide; congruence.
  - destruct (fs !! k) as [[|]|] eqn:Ek; try done. case_decide; congruence.
Qed.

Lemma pwrite_end (d b : bytes) : pwrite d (length d) b = d ++ b.
Proof.
  unfold pwrite. rewrite firstn_all, Nat.sub_diag. simpl.
  rewrite drop_ge by lia. by rewrite app_nil_r.
Qed.

(** ** The invariant of the event loop *)

Lemma boot_ok (f : filesystem) (t : Z) : world_ok (boot f t).
Proof. split; simpl; intros *; try rewrite lookup_empty; try done.
  by intros ?%elem_of_nil. Qed.

Lemma ok_with_fs (x : filesystem) (w : world) :
  world_ok w → world_ok (with_fs x w).
Proof. intros H; ok_destruct H. by split. Qed.

Lemma ok_with_now (x : Z) (w : world) : world_ok w → world_ok (with_now x w).
Proof. intros H; ok_destruct H. by split. Qed.

Lemma ok_crash (w : world) : world_ok w → world_ok (crash w).
Proof. intros H; ok_destruct H. by split. Qed.

Lemma ok_emit_io (o : output) (w : world) :
  (∀ rid st r, o ≠ Response rid st r) → world_ok w → world_ok (emit o w).
Proof.
  intros Ho H; ok_destruct H. split; try done. simpl. intros rid st r.
  rewrite elem_of_app, list_elem_of_singleton. intros [?|E]; [eauto|].
  by destruct (Ho rid st r).
Qed.

Lemma ok_bump (w : world) : world_ok w → world_ok (with_nreq (S (nreq w)) w).
Proof.
  intros H; ok_destruct H. split; try done; simpl.
  - intros. assert (rid < nreq w) by eauto. lia.
  - intros. assert (rid < nreq w) by eauto. lia.
  - intros rid st r Hr. destruct (Hlog _ _ _ Hr). split; [lia|done].
Qed.

Lemma ok_respond (rid st : nat) (r : reply) (w : world) :
  world_ok w → rid < nreq w → world_ok (respond rid st r w).
Proof.
  intros H Hlt; ok_destruct H. split; try done; simpl.
  - intros rid' p [_ E]%lookup_delete_Some. eauto.
  - intros rid' p f [_ E]%lookup_delete_Some. eauto.
  - intros rid' p [_ E]%lookup_delete_Some. eauto.
  - intros l u rid' p ?? [_ E]%lookup_delete_Some. eauto.
  - intros rid' st' r'. rewrite elem_of_app, list_elem_of_singleton.
    intros [Hr|[= -> -> ->]].
    + destruct (Hlog _ _ _ Hr). split; [done|].
      apply lookup_delete_None. by right.
    + split; [done|]. apply lookup_delete_eq.
Qed.

Lemma ok_tracker_delete (f : string) (w : world) :
  world_ok w → world_ok (tracker_delete f w).
Proof.
  intros H; ok_destruct H. split; try done; simpl.
  - intros f' l [_ E]%lookup_delete_Some. eauto.
  - intros f1 f2 l [_ E1]%lookup_delete_Some [_ E2]%lookup_delete_Some. eauto.
  - intros rid p f' ? [_ E]%lookup_delete_Some. eauto.
  - intros f' l u [_ E]%lookup_delete_Some. eauto.
  - intros f' l u t [_ E]%lookup_delete_Some. eauto.
Qed.

(** A session object is replaced by one that differs in the stream
    only, and whose stream has no new ['drain'] listener. *)
Lemma ok_set_stream (l : nat) (u : session) (s : wstream) (w : world) :
  world_ok w → heap w !! l = Some u →
  ws_onDrain s ⊆ ws_onDrain (writeStream u) →
  world_ok (with_heap (<[l := with_stream s u]> (heap w)) w).
Proof.
  intros H Hl Hs; ok_destruct H. split; try done; simpl.
  - intros f l' E. rewrite lookup_insert. case_decide; [done|eauto].
  - intros rid p E. rewrite lookup_insert. case_decide; [done|eauto].
  - intros l' u'. rewrite lookup_insert. case_decide; [|eauto].
    intros [= <-]. subst. simpl. eauto.
  - intros f l' u' E. rewrite lookup_insert. case_decide; [|eauto].
    intros [= <-]. subst. simpl. eauto.
  - intros h tm E. rewrite lookup_insert. case_decide; [done|eauto].
  - intros f l' u' t E. rewrite lookup_insert. case_decide; [|eauto].
    intros [= <-]. subst. simpl. eauto.
  - intros l' u' rid. rewrite lookup_insert. case_decide; [|eauto].
    intros [= <-]. subst. simpl. intros ?%Hs. eauto.
  - intros l' u' rid p. rewrite lookup_insert. case_decide; [|eauto].
    intros [= <-]. subst. simpl. intros ?%Hs. eauto.
Qed.

Lemma end_stream_unfold (l : nat) (w : world) :
  end_stream l w =
  match heap w !! l with
  | Some u => with_heap (<[l := with_stream (ws_end (writeStream u)) u]> (heap w)) w
  | None => w
  end.
Proof.
  unfold end_stream. destruct (heap w !! l) as [u|] eqn:E.
  - f_equal. apply map_eq. intros k. rewrite lookup_alter, lookup_insert.
    case_decide; [subst; by rewrite E|done].
  - destruct w; unfold with_heap; simpl in *. f_equal.
    apply map_eq. intros k. rewrite lookup_alter.
    case_decide; [subst; by rewrite E|done].
Qed.

Lemma ok_end_stream (l : nat) (w : world) :
  world_ok w → world_ok (end_stream l w).
Proof.
  intros H. rewrite end_stream_unfold. destruct (heap w !! l) eqn:E; [|done].
  by apply ok_set_stream.
Qed.

(** A session leaves the tracker and its timer is cleared. *)
Lemma ok_unregister (h : nat) (f : string) (w : world) :
  world_ok w → (∀ f', uploadTracker w !! f' = Some h → f' = f) →
  world_ok (tracker_delete f (clearTimeout h w)).
Proof.
  intros H Hh; ok_destruct H. split; try done; simpl.
  - intros f' l [_ E]%lookup_delete_Some. eauto.
  - intros f1 f2 l [_ E1]%lookup_delete_Some [_ E2]%lookup_delete_Some. eauto.
  - intros rid p f' ? [_ E]%lookup_delete_Some. eauto.
  - intros f' l u [Hf E]%lookup_delete_Some Hu.
    rewrite lookup_delete_ne; [eauto|]. intros <-. apply Hf. symmetry. by apply Hh.
  - intros h' tm [_ E]%lookup_delete_Some. eauto.
  - intros f' l u t [_ E]%lookup_delete_Some. eauto.
Qed.

Lemma tracker_get_Some (f : string) (w : world) (l : nat) (u : session) :
  tracker_get f w = Some (l, u) ↔
  uploadTracker w !! f = Some l ∧ heap w !! l = Some u.
Proof.
  unfold tracker_get. destruct (uploadTracker w !! f) as [l'|]; simpl.
  - destruct (heap w !! l') as [u'|] eqn:E; simpl; split.
    + by intros [= <- <-].
    + intros [[= <-] E']. congruence.
    + done.
    + intros [[= <-] ?]. congruence.
  - split; [done|]. by intros [? _].
Qed.

Lemma tracker_get_None (f : string) (w : world) :
  world_ok w → tracker_get f w = None ↔ uploadTracker w !! f = None.
Proof.
  intros H. unfold tracker_get.
  destruct (uploadTracker w !! f) as [l'|] eqn:E; simpl; [|done].
  destruct (ok_tracker _ H _ _ E) as [u ->]. done.
Qed.

Lemma ok_inflight_update (rid : nat) (p p' : pending) (w : world) :
  world_ok w → inflight w !! rid = Some p →
  p_upload p' = p_upload p → p_fileId p' = p_fileId p →
  world_ok (with_inflight (<[rid := p']> (inflight w)) w).
Proof.
  intros H Hp Eu Ef; ok_destruct H. split; try done; simpl.
  - intros rid' q. rewrite lookup_insert. case_decide; [|eauto].
    intros [= <-]. rewrite Eu. eauto.
  - intros rid' q f. rewrite lookup_insert. case_decide; [|eauto].
    intros [= <-]. rewrite Eu, Ef. eauto.
  - intros rid' q. rewrite lookup_insert. case_decide; [|eauto].
    intros [= <-]. subst. eauto.
  - intros l u rid' q ??. rewrite lookup_insert. case_decide; [|eauto].
    intros [= <-]. subst. rewrite Eu. eauto.
  - intros rid' st r Hr. destruct (Hlog _ _ _ Hr) as [? Hn]. split; [done|].
    rewrite lookup_insert. case_decide; [|done]. congruence.
Qed.

Lemma ok_subscribe (rid : nat) (p : pending) (u : session) (s : wstream)
      (w : world) :
  world_ok w → inflight w !! rid = Some p → heap w !! p_upload p = Some u →
  ws_onDrain s = ws_onDrain (writeStream u) ++ [rid] →
  world_ok (with_heap (<[p_upload p := with_stream s u]> (heap w)) w).
Proof.
  intros H Hp Hu Hs; ok_destruct H. split; try done; simpl.
  - intros f l' E. rewrite lookup_insert. case_decide; [done|eauto].
  - intros rid' q E. rewrite lookup_insert. case_decide; [done|eauto].
  - intros l' u'. rewrite lookup_insert. case_decide; [|eauto].
    intros [= <-]. subst. simpl. eauto.
  - intros f l' u' E. rewrite lookup_insert. case_decide; [|eauto].
    intros [= <-]. subst. simpl. eauto.
  - intros h tm E. rewrite lookup_insert. case_decide; [done|eauto].
  - intros f l' u' t E. rewrite lookup_insert. case_decide; [|eauto].
    intros [= <-]. subst. simpl. eauto.
  - intros l' u' rid'. rewrite lookup_insert. case_decide; [|eauto].
    intros [= <-]. simpl. rewrite Hs, elem_of_app, list_elem_of_singleton.
    intros [?| ->]; eauto.
  - intros l' u' rid' q. rewrite lookup_insert. case_decide; [|eauto].
    intros [= <-]. simpl. rewrite Hs, elem_of_app, list_elem_of_singleton.
    subst. intros [?| ->]; [eauto|]. congruence.
Qed.

(** A chunk index is added to a session object; when the session is in
    the tracker, the count stays below a positive total. *)
Lemma ok_mark (l : nat) (u : session) (r : gset jsnum) (w : world) :
  world_ok w → heap w !! l = Some u →
  (∀ f t, uploadTracker w !! f = Some l → totalChunks u = Some t →
          (1 ≤ t)%Z → (Z.of_nat (size r) < t)%Z) →
  world_ok (with_heap (<[l := with_received r u]> (heap w)) w).
Proof.
  intros H Hl Hs; ok_destruct H. split; try done; simpl.
  - intros f l' E. rewrite lookup_insert. case_decide; [done|eauto].
  - intros rid p E. rewrite lookup_insert. case_decide; [done|eauto].
  - intros l' u'. rewrite lookup_insert. case_decide; [|eauto].
    intros [= <-]. subst. simpl. eauto.
  - intros f l' u' E. rewrite lookup_insert. case_decide; [|eauto].
    intros [= <-]. subst. simpl. eauto.
  - intros h tm E. rewrite lookup_insert. case_decide; [done|eauto].
  - intros f l' u' t E. rewrite lookup_insert. case_decide; [|eauto].
    intros [= <-]. subst. simpl. eauto.
  - intros l' u' rid. rewrite lookup_insert. case_decide; [|eauto].
    intros [= <-]. subst. simpl. eauto.
  - intros l' u' rid p. rewrite lookup_insert. case_decide; [|eauto].
    intros [= <-]. subst. simpl. eauto.
Qed.

Lemma ok_listen (rid : nat) (p : pending) (w : world) :
  world_ok w → rid < nreq w →
  (∀ st r, Response rid st r ∉ log w) →
  (∀ l u, heap w !! l = Some u → rid ∉ ws_onDrain (writeStream u)) →
  uploadTracker w !! p_fileId p = Some (p_upload p) →
  world_ok (with_inflight (<[rid := p]> (inflight w)) w).
Proof.
  intros H Hlt Hnl Hnd Hp; ok_destruct H. split; try done; simpl.
  - intros rid' q. rewrite lookup_insert. case_decide; [|eauto].
    intros [= <-]. eauto.
  - intros rid' q f. rewrite lookup_insert. case_decide; [|eauto].
    intros [= <-]. eauto.
  - intros rid' q. rewrite lookup_insert. case_decide; [|eauto].
    intros [= <-]. by subst.
  - intros l u rid' q Hu Hin. rewrite lookup_insert. case_decide; [|eauto].
    subst. by destruct (Hnd _ _ Hu).
  - intros rid' st r Hr. destruct (Hlog _ _ _ Hr) as [? Hn]. split; [done|].
    rewrite lookup_insert. case_decide; [|done]. subst. by destruct (Hnl st r).
Qed.

Section CreateInvariant.

Variable rt : runtime.

Lemma createSession_ok (f name : string) (total : jsnum) (q : option string)
      (w w' : world) :
  world_ok w → createSession rt f name total q w = Some w' →
  world_ok w' ∧ nreq w' = nreq w ∧ inflight w' = inflight w ∧
  log w' = log w ∧
  (∀ l u, heap w' !! l = Some u →
          heap w !! l = Some u ∨ ws_onDrain (writeStream u) = []).
Proof.
  intros H. unfold createSession.
  destruct (ensureDir _ _) as [fs1|]; [|done]. simpl. intros [= <-].
  pose proof (is_fresh (dom (heap w))) as Hfr.
  rewrite elem_of_dom, <- eq_None_not_Some in Hfr.
  set (l := fresh (dom (heap w))) in *.
  split; [|split; [done|split; [done|split; [done|]]]].
  2:{ simpl. intros l' u'. rewrite lookup_insert. case_decide; [|by left].
      intros [= <-]. by right. }
  ok_destruct H. split; simpl; try done.
  - intros f' l'. rewrite lookup_insert. case_decide.
    + intros [= <-]. by rewrite lookup_insert_eq.
    + intros E. rewrite lookup_insert. case_decide; [done|eauto].
  - intros f1 f2 l'. rewrite !lookup_insert. repeat case_decide; subst.
    + done.
    + intros [= <-] E. apply Htr in E as [? E]. congruence.
    + intros E [= <-]. apply Htr in E as [? E]. congruence.
    + eauto.
  - intros rid p E. rewrite lookup_insert. case_decide; [done|eauto].
  - intros rid p f' E. rewrite lookup_insert. case_decide; [|eauto].
    intros [= E']. apply Hpe in E as [? E]. congruence.
  - intros l' u'. rewrite lookup_insert. case_decide; [|eauto].
    by intros [= <-].
  - intros f' l' u'. rewrite (lookup_insert (uploadTracker w)). case_decide.
    + intros [= <-]. rewrite !lookup_insert_eq. by intros [= <-]; subst.
    + intros E. pose proof (Htr _ _ E) as [u0 E0].
      assert (l ≠ l') by congruence.
      rewrite !lookup_insert_ne by done. eauto.
  - intros h tm. rewrite !lookup_insert. case_decide; [done|eauto].
  - intros f' l' u' t. rewrite (lookup_insert (uploadTracker w)). case_decide.
    + intros [= <-]. rewrite lookup_insert_eq. intros [= <-].
      intros _ ?. cbn [receivedChunks]. rewrite size_empty. lia.
    + intros E. pose proof (Htr _ _ E) as [u0 E0].
      assert (l ≠ l') by congruence.
      rewrite lookup_insert_ne by done. eauto.
  - intros l' u' rid. rewrite lookup_insert. case_decide; [|eauto].
    intros [= <-]. simpl. by intros ?%elem_of_nil.
  - intros l' u' rid p. rewrite lookup_insert. case_decide; [|eauto].
    intros [= <-]. simpl. by intros ?%elem_of_nil.
Qed.

Lemma uploadChunk_ok (req : request) (w : world) :
  world_ok w → world_ok (uploadChunk rt req w).
Proof.
  intros H. unfold uploadChunk.
  assert (∀ st r, Response (nreq w) st r ∉ log w) as Hnl.
  { intros st r Hr. apply (ok_log _ H) in Hr as [? _]. lia. }
  assert (∀ l u, heap w !! l = Some u → nreq w ∉ ws_onDrain (writeStream u))
    as Hnd.
  { intros l u Hu Hr. apply (ok_drain_rid _ H _ _ _ Hu) in Hr. lia. }
  apply ok_bump in H.
  set (w0 := with_nreq (S (nreq w)) w) in *.
  assert (nreq w < nreq w0) as Hlt by (simpl; lia).
  assert (∀ x, world_ok x → nreq x = nreq w0 → ∀ st r,
               world_ok (respond (nreq w) st r x)) as Hresp.
  { intros x Hx Ex st r. apply ok_respond; [done|]. rewrite Ex. done. }
  destruct (decodeURIComponent rt _) as [fileName|]; [|by apply Hresp].
  destruct (is_empty fileName); [by apply Hresp|].
  destruct (ensureDir _ (fs w0)) as [fs1|]; [|by apply Hresp].
  destruct (ensureDir _ fs1) as [fs2|];
    [|by apply Hresp; [apply ok_with_fs|]].
  set (w2 := with_fs fs2 w0).
  assert (world_ok w2) as H2 by by apply ok_with_fs.
  match goal with |- context [if ?b then createSession rt ?a1 ?a2 ?a3 ?a4 w2
                               else Some w2] =>
    assert (∀ w3, (if b then createSession rt a1 a2 a3 a4 w2 else Some w2)
                  = Some w3 →
       world_ok w3 ∧ nreq w3 = nreq w0 ∧ inflight w3 = inflight w ∧
       log w3 = log w ∧
       (∀ l u, heap w3 !! l = Some u →
               nreq w ∉ ws_onDrain (writeStream u))) as Hcs;
    [|destruct (if b then createSession rt a1 a2 a3 a4 w2 else Some w2)
        as [w3|] eqn:E3; [|by apply Hresp]]
  end.
  { intros w3. destruct (strict_eq _ _).
    - intros (?&?&?&?&Hh)%createSession_ok; [|done].
      do 4 (split; [done|]). intros l u Hu.
      destruct (Hh _ _ Hu) as [?| ->]; [by eapply Hnd|by intros ?%elem_of_nil].
    - intros [= <-]. by do 4 (split; [done|]). }
  destruct (Hcs _ eq_refl) as (H3 & En & Ei & El & Hd3).
  destruct (tracker_get _ w3) as [[l upload]|] eqn:Eg.
  - case_bool_decide; [by apply Hresp|].
    apply tracker_get_Some in Eg as [Et Eh].
    apply ok_listen; try done.
    + lia.
    + intros st r. rewrite El. apply Hnl.
  - destruct (strict_eq _ _); [|by apply Hresp].
    destruct (createSession rt _ _ _ _ w3) as [w4|] eqn:E4; [|by apply Hresp].
    apply createSession_ok in E4 as (?&?&?&?&?); [|done].
    apply Hresp; [done|congruence].
Qed.

Lemma onData_ok (rid : nat) (chunk : bytes) (w : world) :
  world_ok w → world_ok (onData rid chunk w).
Proof.
  intros H. unfold onData. destruct (inflight w !! rid) as [p|] eqn:E; [|done].
  destruct (p_awaiting p); [done|]. by eapply ok_inflight_update.
Qed.

Lemma onError_ok (rid : nat) (w : world) :
  world_ok w → world_ok (onError rid w).
Proof.
  intros H. unfold onError. destruct (inflight w !! rid) as [p|] eqn:E; [|done].
  destruct (p_awaiting p); [done|]. apply ok_respond; [done|].
  by eapply ok_rid.
Qed.

Lemma finishChunk_ok (rid : nat) (p : pending) (w : world) :
  world_ok w → inflight w !! rid = Some p →
  world_ok (finishChunk rid p w).
Proof.
  intros H Hp. unfold finishChunk.
  assert (rid < nreq w) as Hlt by by eapply ok_rid.
  destruct (heap w !! p_upload p) as [u|] eqn:Hu; [|by apply ok_respond].
  set (r := {[p_chunkIndex p]} ∪ receivedChunks u).
  assert (size r ≤ S (size (receivedChunks u)))%nat as Hsz.
  { unfold r. rewrite size_union_alt, size_singleton.
    assert (size (receivedChunks u ∖ {[p_chunkIndex p]})
            ≤ size (receivedChunks u))%nat; [|lia].
    apply subseteq_size, subseteq_difference_l. done. }
  cbn zeta. fold r.
  destruct (strict_eq (Some (Z.of_nat (size (receivedChunks (with_received r u)))))
              (totalChunks (with_received r u))) eqn:Hc.
  - change (world_ok (respond rid 200 (UploadComplete (finalPath u))
      (with_fs (removeDirectory (p_tempDir p) (fs w)).2
        (end_stream (p_upload p)
          (with_heap (<[p_upload p := with_received r u]>
             (heap (tracker_delete (p_fileId p)
                      (clearTimeout (timeout u) w))))
             (tracker_delete (p_fileId p) (clearTimeout (timeout u) w))))))).
    apply ok_respond; [|done]. apply ok_with_fs, ok_end_stream.
    rewrite (ok_timeout _ H _ _ Hu). apply ok_mark.
    + apply ok_unregister; [done|]. intros f' E. by eapply ok_owner.
    + done.
    + simpl. intros f t [Hne E]%lookup_delete_Some.
      destruct Hne. symmetry. by eapply ok_owner.
  - apply ok_respond; [|done]. apply ok_mark; [done..|].
    intros f t Ef Et Ht. pose proof (ok_size _ H _ _ _ _ Ef Hu Et Ht).
    simpl in Hc. rewrite Et in Hc. simpl in Hc.
    apply bool_decide_eq_false in Hc. fold r in Hc. lia.
Qed.

End CreateInvariant.

Lemma ws_write_onDrain (b : bytes) (s s' : wstream) (f f' : filesystem)
      (c : bool) :
  ws_write b s f = Some (c, s', f') → ws_onDrain s' = ws_onDrain s.
Proof. unfold ws_write. destruct (ws_ended s); [done|]. by intros [= <- <- <-]. Qed.

Lemma onEnd_ok (rid : nat) (w : world) : world_ok w → world_ok (onEnd rid w).
Proof.
  intros H. unfold onEnd. destruct (inflight w !! rid) as [p|] eqn:Hp; [|done].
  destruct (p_awaiting p); [done|].
  assert (rid < nreq w) as Hlt by by eapply ok_rid.
  destruct (heap w !! p_upload p) as [u|] eqn:Hu; [|by apply ok_respond].
  destruct (ws_write _ _ _) as [[[c s] fs']|] eqn:Hw; [|by apply ok_crash].
  apply ws_write_onDrain in Hw. cbn zeta. destruct c.
  - apply finishChunk_ok; [|done]. apply (ok_set_stream _ _ _ (with_fs fs' w));
      [by apply ok_with_fs|done|by rewrite Hw].
  - match goal with |- world_ok (with_inflight _ ?x) =>
      apply (ok_inflight_update rid p _ x); [|done..] end.
    apply (ok_subscribe rid p u _ (with_fs fs' w));
      [by apply ok_with_fs|done..|]. simpl. by rewrite Hw.
Qed.

Lemma resume_ok (w : world) (rid : nat) : world_ok w → world_ok (resume w rid).
Proof.
  intros H. unfold resume. destruct (inflight w !! rid) as [p|] eqn:Hp; [|done].
  destruct (p_awaiting p); [|done]. by apply finishChunk_ok.
Qed.

Lemma foldl_resume_ok (rids : list nat) (w : world) :
  world_ok w → world_ok (foldl resume w rids).
Proof.
  revert w. induction rids as [|rid rids IH]; intros w H; simpl; [done|].
  by apply IH, resume_ok.
Qed.

Lemma onFlushed_ok (l : nat) (w : world) :
  world_ok w → world_ok (onFlushed l w).
Proof.
  intros H. unfold onFlushed. destruct (heap w !! l) as [u|] eqn:Hu; [|done].
  destruct (negb _ && _).
  - apply foldl_resume_ok, ok_set_stream; [done..|]. simpl. set_solver.
  - by apply ok_set_stream.
Qed.

Lemma timeoutCallback_unfold (f : string) (w : world) :
  timeoutCallback f w =
  match tracker_get f w with
  | Some (l, _) => end_stream l (tracker_delete f w)
  | None => tracker_delete f w
  end.
Proof. unfold timeoutCallback. by destruct (tracker_get f w) as [[l u]|]. Qed.

Lemma onTimer_ok (h : nat) (w : world) : world_ok w → world_ok (onTimer h w).
Proof.
  intros H. unfold onTimer. destruct (timers w !! h) as [tm|] eqn:Ht; [|done].
  case_bool_decide; [|done]. rewrite timeoutCallback_unfold.
  assert (world_ok (tracker_delete (tm_fileId tm) (clearTimeout h w))) as H'.
  { apply ok_unregister; [done|]. intros f' E.
    destruct (ok_tracker _ H _ _ E) as [u Hu].
    pose proof (ok_timer _ H _ _ _ E Hu) as Ht'. rewrite Ht in Ht'.
    by injection Ht' as ->. }
  destruct (tracker_get _ _) as [[l u]|]; [|done]. by apply ok_end_stream.
Qed.

Lemma sweep_one_tracker (w : world) (e : string * nat) (f : string) (l : nat) :
  uploadTracker (sweep_one w e) !! f = Some l → uploadTracker w !! f = Some l.
Proof.
  unfold sweep_one. destruct (heap w !! e.2); [|done].
  case_bool_decide; [|done]. simpl. by intros [_ ?]%lookup_delete_Some.
Qed.

Lemma sweep_one_ok (w : world) (e : string * nat) :
  world_ok w → (∀ f', uploadTracker w !! f' = Some e.2 → f' = e.1) →
  world_ok (sweep_one w e).
Proof.
  intros H He. unfold sweep_one. destruct (heap w !! e.2) as [u|] eqn:Hu; [|done].
  case_bool_decide; [|done]. rewrite (ok_timeout _ H _ _ Hu).
  change (world_ok (end_stream e.2 (tracker_delete e.1 (clearTimeout e.2 w)))).
  by apply ok_end_stream, ok_unregister.
Qed.

Lemma foldl_sweep_one_ok (es : list (string * nat)) (w : world) :
  world_ok w →
  (∀ e f', e ∈ es → uploadTracker w !! f' = Some e.2 → f' = e.1) →
  world_ok (foldl sweep_one w es).
Proof.
  revert w. induction es as [|e es IH]; intros w H Hes; simpl; [done|].
  apply IH.
  - apply sweep_one_ok; [done|]. intros f'. apply Hes. by left.
  - intros e' f' He' E. apply sweep_one_tracker in E. apply Hes; [by right|done].
Qed.

Lemma sweep_ok (w : world) : world_ok w → world_ok (sweep w).
Proof.
  intros H. apply foldl_sweep_one_ok; [done|].
  intros [f l] f' He%elem_of_map_to_list E. simpl in *. by eapply ok_inj.
Qed.

Section Invariant.

Variable rt : runtime.

Lemma processNextChunk_ok (fuel : nat) (dir : path) (total : jsnum)
      (out : path) (i : Z) (pos : nat) (w : world) :
  world_ok w →
  world_ok (settled_world (processNextChunk fuel dir total out i pos w)) ∧
  nreq (settled_world (processNextChunk fuel dir total out i pos w)) = nreq w.
Proof.
  revert i pos w. induction fuel as [|fuel IH]; intros i pos w H;
    cbn [processNextChunk]; [done|].
  destruct (js_ge (Some i) total); simpl.
  { split; [|done]. by apply ok_emit_io. }
  destruct (readFile _ _) as [d|]; simpl; [|done].
  match goal with |- context [processNextChunk fuel dir total out ?i' ?pos' ?w'] =>
    destruct (IH i' pos' w') as [? ->];
    [by apply ok_emit_io; [|apply ok_with_fs]|by split]
  end.
Qed.

Lemma combineChunksHandler_ok (req : request) (w : world) :
  world_ok w → world_ok (combineChunksHandler rt req w).
Proof.
  intros H. unfold combineChunksHandler. apply ok_bump in H.
  set (w0 := with_nreq (S (nreq w)) w) in *.
  assert (∀ x, world_ok x → nreq x = nreq w0 → ∀ st r,
               world_ok (respond (nreq w) st r x)) as Hresp.
  { intros x Hx Ex st r. apply ok_respond; [done|]. rewrite Ex. simpl. lia. }
  destruct (_ || _); [by apply Hresp|].
  destruct (negb _); [by apply Hresp|].
  destruct (verifyChunks _ _ _); [by apply Hresp|].
  destruct (ensureDir _ _) as [fs1|]; [|by apply ok_crash].
  destruct (openW _ _) as [fs2|].
  2:{ destruct (js_ge _ _); [|by apply Hresp; [apply ok_with_fs|]].
      apply ok_crash, Hresp; [|done].
      apply ok_emit_io; [done|]. apply ok_with_fs.
      apply ok_emit_io; [done|]. by apply ok_with_fs. }
  unfold combineChunks.
  match goal with |- context [processNextChunk ?a ?b ?c ?d ?e ?f ?g] =>
    destruct (processNextChunk_ok a b c d e f g) as [Hs Hn];
    [by apply ok_emit_io; [|apply ok_with_fs]|];
    destruct (processNextChunk a b c d e f g) as [w1|w1|w1]
  end; simpl in Hs, Hn.
  - apply Hresp; [|done]. apply ok_emit_io; [done|]. by apply ok_with_fs.
  - by apply Hresp.
  - done.
Qed.

(** Every event preserves the invariant. *)
Lemma step_ok (w : world) (e : event) : world_ok w → world_ok (step rt w e).
Proof.
  intros H. unfold step. destruct (crashed w); [done|].
  destruct e.
  - by apply uploadChunk_ok.
  - by apply onData_ok.
  - by apply onEnd_ok.
  - by apply onError_ok.
  - by apply onFlushed_ok.
  - by apply onTimer_ok.
  - by apply sweep_ok.
  - by apply ok_with_now.
  - by apply combineChunksHandler_ok.
Qed.

Lemma run_ok (es : list event) (w : world) :
  world_ok w → world_ok (run rt w es).
Proof.
  revert w. induction es as [|e es IH]; intros w H; simpl; [done|].
  by apply IH, step_ok.
Qed.

End Invariant.

(** ** The file descriptors of the streams *)




Lemma unclosed_subscribe (rid : nat) (s : wstream) :
  unclosed s → unclosed (ws_subscribe rid s).
Proof. done. Qed.





















Section Descriptors.

Variable rt : runtime.








End Descriptors.

(** ** The received count and the declared total *)

(** C7, as the code has it: in every world that a run of the server
    reaches, a session of the tracker whose recorded total is a positive
    integer has received fewer chunks than that total; for such a total,
    and for a total that is not a number, the comparison of the total
    with the count, [total < size], is false: the count does not exceed
    the total. *)
Theorem received_below_positive_total (rt : runtime) (f : filesystem) (t : Z)
        (es : list event) (fileId : string) (l : nat) (u : session) :
  let received := Z.of_nat (size (receivedChunks u)) in
  tracker_get fileId (run rt (boot f t) es) = Some (l, u) →
  (∀ tot, totalChunks u = Some tot → (1 ≤ tot)%Z → (received < tot)%Z) ∧
  ((∀ tot, totalChunks u = Some tot → (1 ≤ tot)%Z) →
   js_lt (totalChunks u) (Some received) = false).
Proof.
  intros received [Ht Hu]%tracker_get_Some.
  pose proof (run_ok rt es _ (boot_ok f t)) as Hok.
  assert (∀ tot, totalChunks u = Some tot → (1 ≤ tot)%Z →
                 (received < tot)%Z) as Hlt
    by (intros tot Htot Hpos; by eapply (ok_size _ Hok)).
  split; [exact Hlt|]. intros Hpos.
  destruct (totalChunks u) as [tot|] eqn:Htot; [|done]. simpl.
  apply bool_decide_eq_false. specialize (Hlt tot eq_refl (Hpos tot eq_refl)).
  lia.
Qed.

Lemma received_below_positive_total_witness :
  let w := run example_rt (boot example_fs 1000)
             [EvUploadChunk (chunk_request "a.bin" "0" "2" "u1" None);
              EvData 0 [Byte.x61]; EvEnd 0] in
  ∃ l u,
    tracker_get "u1" w = Some (l, u) ∧ totalChunks u = Some 2%Z ∧
    (Z.of_nat (size (receivedChunks u)) < 2)%Z ∧
    js_lt (totalChunks u) (Some (Z.of_nat (size (receivedChunks u)))) = false.
Proof.
  intros w. eval_in (tracker_get "u1" w) E. eexists _, _.
  split; [exact E|]. split; [reflexivity|].
  destruct (received_below_positive_total example_rt example_fs 1000 _ "u1"
              _ _ E) as [Hlt Hle].
  split; [exact (Hlt 2%Z eq_refl ltac:(lia))|].
  apply Hle. intros tot [= <-]. lia.
Defined.

(** C7 as stated fails for a declared total of 0: after the first chunk
    the session is still in the tracker, with one chunk received. *)
Lemma received_exceeds_zero_total :
  let w := run example_rt (boot example_fs 1000)
             [EvUploadChunk (chunk_request "a.bin" "0" "0" "u1" None);
              EvData 0 [Byte.x61]; EvEnd 0] in
  ∃ l u,
    tracker_get "u1" w = Some (l, u) ∧ totalChunks u = Some 0%Z ∧
    size (receivedChunks u) = 1 ∧
    ¬ (Z.of_nat (size (receivedChunks u)) ≤ 0)%Z.
Proof.
  intros w. eval_in (tracker_get "u1" w) E. eexists _, _.
  split; [exact E|]. split; [reflexivity|].
  split; [vm_compute; reflexivity|]. by_compute.
Qed.

(** ** Chunk requests with an index other than 0 *)

Lemma is_empty_false (s : string) : is_empty s = false ↔ s ≠ "".
Proof. by destruct s. Qed.

Lemma mkdir_from_adds (rest : list string) (pre : path) (fs fs' : filesystem) :
  mkdir_from pre rest fs = Some fs' → adds_dirs fs fs'.
Proof.
  revert pre fs. induction rest as [|n rest IH]; intros pre fs; simpl.
  - destruct (fs !! pre) as [[|]|] eqn:E; [done| |]; intros [= <-].
    + apply adds_dirs_refl.
    + intros k. rewrite lookup_insert. case_decide; [subst; by right|by left].
  - destruct (fs !! pre) as [[|]|] eqn:E; [done| |]; intros Hm.
    + by eapply IH.
    + eapply adds_dirs_trans; [|by eapply IH]. intros k. rewrite lookup_insert.
      case_decide; [subst; by right|by left].
Qed.

Lemma mkdir_from_exists (rest : list string) (pre : path) (f f' : filesystem) :
  mkdir_from pre rest f = Some f' → is_Some (f' !! (pre ++ rest)).
Proof.
  revert pre f. induction rest as [|n rest IH]; intros pre f; simpl.
  - rewrite app_nil_r. destruct (f !! pre) as [[|]|] eqn:E; [done|..];
      intros [= <-]; [done|]. by rewrite lookup_insert_eq.
  - destruct (f !! pre) as [[|]|] eqn:E; [done|..]; intros Hm;
      apply IH in Hm; by rewrite <- app_assoc in Hm.
Qed.

Lemma ensureDir_adds (d : path) (fs fs' : filesystem) :
  ensureDir d fs = Some fs' → adds_dirs fs fs' ∧ is_Some (fs' !! d).
Proof.
  unfold ensureDir, existsSync. case_bool_decide as E.
  - intros [= <-]. split; [apply adds_dirs_refl|done].
  - intros Hm. split; [by eapply mkdir_from_adds|].
    by apply mkdir_from_exists in Hm.
Qed.

Section ChunkRequests.

Variable rt : runtime.

(** The handler on a request that names a file and whose index is not 0,
    once the two directories exist: it only looks the session up. *)
Lemma uploadChunk_nonzero (req : request) (w : world) (fileName : string)
      (fs1 fs2 : filesystem) :
  let chunkIndex := parseInt (or_default (x_chunk_index req) "0") in
  let total := parseInt (or_default (x_total_chunks req) "1") in
  let fileId := or_default (x_file_id req) (pretty (now w)) in
  decodeURIComponent rt (or_default (x_file_name req) "") = Some fileName →
  fileName ≠ "" →
  strict_eq chunkIndex (Some 0%Z) = false →
  ensureDir (path_join (cwd rt) "uploads") (fs w) = Some fs1 →
  ensureDir (tempDirOf rt fileId) fs1 = Some fs2 →
  uploadChunk rt req w =
  let w2 := with_fs fs2 (with_nreq (S (nreq w)) w) in
  match tracker_get fileId w with
  | None => respond (nreq w) 400 (SessionNotFound true) w2
  | Some (l, upload) =>
    if bool_decide (chunkIndex ∈ receivedChunks upload) then
      respond (nreq w) 200 (AlreadyReceived chunkIndex total) w2
    else
      with_inflight
        (<[nreq w := {| p_fileName := fileName; p_chunkIndex := chunkIndex;
                        p_totalChunks := total; p_fileId := fileId;
                        p_tempDir := tempDirOf rt fileId; p_upload := l;
                        p_dataBuffer := []; p_awaiting := false |}]>
           (inflight w)) w2
  end.
Proof.
  intros chunkIndex total fileId Hd Hn%is_empty_false Hi H1 H2.
  unfold uploadChunk. rewrite Hd, Hn. cbn [with_nreq fs now].
  rewrite H1. fold fileId. rewrite H2. fold chunkIndex. rewrite Hi.
  fold total. reflexivity.
Qed.

(** The session objects, the tracker and the timers are not touched by a
    request whose index is not 0. *)
Lemma uploadChunk_nonzero_frame (req : request) (w : world) :
  strict_eq (parseInt (or_default (x_chunk_index req) "0")) (Some 0%Z) = false →
  heap (uploadChunk rt req w) = heap w ∧
  uploadTracker (uploadChunk rt req w) = uploadTracker w ∧
  timers (uploadChunk rt req w) = timers w.
Proof.
  intros Hi. unfold uploadChunk. rewrite Hi.
  repeat (match goal with
          | |- context [match ?x with _ => _ end] => destruct x
          end; try done).
Qed.

(** C4, as the code has it: a request that names a file, for an
    identifier that is one path component, has no session and comes
    with an index other than 0, is answered with status 400, "session not
    found" and the restart flag once the uploads directory and the
    staging directory of the identifier exist or were created; no
    session object, tracker entry or timer is created and no file is
    created or changed.  The two directories are created when they are
    missing. *)
Theorem unknown_session_rejected (req : request) (w : world)
        (fileName : string) (fs1 fs2 : filesystem) :
  let chunkIndex := parseInt (or_default (x_chunk_index req) "0") in
  let fileId := or_default (x_file_id req) (pretty (now w)) in
  crashed w = false →
  decodeURIComponent rt (or_default (x_file_name req) "") = Some fileName →
  fileName ≠ "" →
  is_component fileId →
  strict_eq chunkIndex (Some 0%Z) = false →
  tracker_get fileId w = None →
  ensureDir (path_join (cwd rt) "uploads") (fs w) = Some fs1 →
  ensureDir (tempDirOf rt fileId) fs1 = Some fs2 →
  let w' := step rt w (EvUploadChunk req) in
  log w' = log w ++ [Response (nreq w) 400 (SessionNotFound true)] ∧
  heap w' = heap w ∧ uploadTracker w' = uploadTracker w ∧
  timers w' = timers w ∧
  fs w' = fs2 ∧ adds_dirs (fs w) (fs w') ∧
  (∀ k d, fs w' !! k = Some (File d) ↔ fs w !! k = Some (File d)) ∧
  is_Some (fs w' !! path_join (cwd rt) "uploads") ∧
  is_Some (fs w' !! tempDirOf rt fileId).
Proof.
  intros chunkIndex fileId Hc Hd Hn _ Hi Hg H1 H2 w'. unfold w', step.
  rewrite Hc. rewrite (uploadChunk_nonzero req w fileName fs1 fs2) by done.
  fold fileId. rewrite Hg. cbn.
  apply ensureDir_adds in H1 as [A1 S1]. apply ensureDir_adds in H2 as [A2 S2].
  assert (adds_dirs (fs w) fs2) as A by exact (adds_dirs_trans _ _ _ A1 A2).
  do 5 (split; [done|]). split; [done|]. split.
  { intros k d. by apply adds_dirs_file. }
  split; [|done]. destruct S1 as [e S1]. exists e. by apply (adds_dirs_Some fs1).
Qed.

(** The part of C3 that holds: a chunk request whose index is not 0
    leaves the session of its identifier as it is, with its stream, its
    set of received chunks and its timer. *)
Theorem known_session_unchanged (req : request) (w : world) (fileId : string)
        (l : nat) (u : session) :
  strict_eq (parseInt (or_default (x_chunk_index req) "0")) (Some 0%Z) = false →
  tracker_get fileId w = Some (l, u) →
  let w' := step rt w (EvUploadChunk req) in
  tracker_get fileId w' = Some (l, u) ∧ heap w' = heap w ∧
  uploadTracker w' = uploadTracker w ∧ timers w' = timers w.
Proof.
  intros Hi Hg w'. unfold w', step. destruct (crashed w); [done|].
  destruct (uploadChunk_nonzero_frame req w Hi) as (Hh & Ht & Htm).
  split; [|done]. unfold tracker_get in *. by rewrite Hh, Ht.
Qed.

(** The part of C2 that holds: a second submission of an index other
    than 0 that the session has received, for an identifier that is one
    path component, is answered "already received"; nothing is written,
    no file changes, and the request is over. *)
Theorem retry_already_received (req : request) (w : world)
        (fileName : string) (fs1 fs2 : filesystem) (l : nat) (u : session) :
  let chunkIndex := parseInt (or_default (x_chunk_index req) "0") in
  let total := parseInt (or_default (x_total_chunks req) "1") in
  let fileId := or_default (x_file_id req) (pretty (now w)) in
  crashed w = false →
  decodeURIComponent rt (or_default (x_file_name req) "") = Some fileName →
  fileName ≠ "" →
  is_component fileId →
  strict_eq chunkIndex (Some 0%Z) = false →
  tracker_get fileId w = Some (l, u) →
  chunkIndex ∈ receivedChunks u →
  ensureDir (path_join (cwd rt) "uploads") (fs w) = Some fs1 →
  ensureDir (tempDirOf rt fileId) fs1 = Some fs2 →
  let w' := step rt w (EvUploadChunk req) in
  log w' = log w ++ [Response (nreq w) 200 (AlreadyReceived chunkIndex total)] ∧
  heap w' = heap w ∧ uploadTracker w' = uploadTracker w ∧
  inflight w' !! nreq w = None ∧
  (∀ k d, fs w' !! k = Some (File d) ↔ fs w !! k = Some (File d)).
Proof.
  intros chunkIndex total fileId Hc Hd Hn _ Hi Hg Hin H1 H2 w'.
  unfold w', step.
  rewrite Hc. rewrite (uploadChunk_nonzero req w fileName fs1 fs2) by done.
  fold fileId. rewrite Hg. fold chunkIndex. rewrite bool_decide_true by done.
  cbn. apply ensureDir_adds in H1 as [A1 S1].
  apply ensureDir_adds in H2 as [A2 S2].
  do 3 (split; [done|]). split; [apply lookup_delete_eq|].
  intros k d. apply adds_dirs_file. exact (adds_dirs_trans _ _ _ A1 A2).
Qed.

End ChunkRequests.

Lemma unknown_session_rejected_witness :
  let req := chunk_request "a.bin" "5" "8" "u1" None in
  let w := boot example_fs 1000 in
  let w' := step example_rt w (EvUploadChunk req) in
  tracker_get "u1" w = None ∧
  log w' = [Response 0 400 (SessionNotFound true)] ∧
  heap w' = heap w ∧ uploadTracker w' = uploadTracker w.
Proof.
  intros req w w'.
  pose proof (unknown_session_rejected example_rt req w "a.bin"
                (<[ ["srv"; "uploads"] := Directory]>
                   (<[ ["srv"] := Directory]> example_fs))
                (fs w') eq_refl eq_refl ltac:(done) ltac:(by_compute)
                eq_refl eq_refl eq_refl eq_refl) as (Hl & Hh & Ht & _).
  split; [reflexivity|]. split; [exact Hl|]. split; [exact Hh|exact Ht].
Defined.

(** C4 as stated fails on "no directory is created": the request for an
    unknown identifier is rejected, and the staging directory of that
    identifier, absent before, exists afterwards. *)
Lemma unknown_session_creates_staging_directory :
  let req := chunk_request "a.bin" "5" "8" "u1" None in
  let w := boot example_fs 1000 in
  let w' := step example_rt w (EvUploadChunk req) in
  tracker_get "u1" w = None ∧
  parseInt "5" = Some 5%Z ∧
  log w' = [Response 0 400 (SessionNotFound true)] ∧
  fs w !! ["tmp"; "file-server-chunks"; "u1"] = None ∧
  fs w' !! ["tmp"; "file-server-chunks"; "u1"] = Some Directory ∧
  fs w !! ["srv"; "uploads"] = None ∧
  fs w' !! ["srv"; "uploads"] = Some Directory.
Proof. repeat split; reflexivity. Qed.

Lemma known_session_unchanged_witness :
  let w := run example_rt (boot example_fs 1000)
             [EvUploadChunk (chunk_request "a.bin" "0" "3" "u1" None);
              EvData 0 [Byte.x61]; EvEnd 0] in
  let w' := step example_rt w
              (EvUploadChunk (chunk_request "a.bin" "1" "3" "u1" None)) in
  is_Some (tracker_get "u1" w) ∧ tracker_get "u1" w' = tracker_get "u1" w.
Proof.
  intros w w'. eval_in (tracker_get "u1" w) E.
  split; [by rewrite E|].
  pose proof (known_session_unchanged example_rt
                (chunk_request "a.bin" "1" "3" "u1" None) w "u1" _ _
                eq_refl E) as [E' _].
  by rewrite E.
Defined.

Lemma retry_already_received_witness :
  let w := serveAll example_rt (boot example_fs 1000)
             [(chunk_request "a.bin" "0" "3" "u1" None, [Byte.x61; Byte.x62]);
              (chunk_request "a.bin" "1" "3" "u1" None, [Byte.x63])] in
  let w' := step example_rt w
              (EvUploadChunk (chunk_request "a.bin" "1" "3" "u1" None)) in
  answer w w' = Some (200, AlreadyReceived (Some 1%Z) (Some 3%Z)) ∧
  ∀ k d, fs w' !! k = Some (File d) ↔ fs w !! k = Some (File d).
Proof.
  intros w w'. split; [reflexivity|].
  eval_in (tracker_get "u1" w) E.
  refine (proj2 (proj2 (proj2 (proj2
    (retry_already_received example_rt
       (chunk_request "a.bin" "1" "3" "u1" None) w "a.bin" (fs w) (fs w) _ _
       eq_refl eq_refl ltac:(done) ltac:(by_compute) eq_refl E _ eq_refl
       eq_refl))))).
  by_compute.
Defined.

(** C2 on the index 0: a session has received the chunks 0 and 1; the
    chunk 0 is submitted again.  The answer is "received", not "already
    received", the body is written, and the destination falls from three
    bytes to two. *)
Theorem retry_of_chunk_zero_rewrites :
  let r0 := chunk_request "a.bin" "0" "3" "u1" None in
  let r1 := chunk_request "a.bin" "1" "3" "u1" None in
  let w := serveAll example_rt (boot example_fs 1000)
             [(r0, [Byte.x61; Byte.x62]); (r1, [Byte.x63])] in
  let w' := serve example_rt w (r0, [Byte.x61; Byte.x62]) in
  (∃ l u, tracker_get "u1" w = Some (l, u) ∧ Some 0%Z ∈ receivedChunks u) ∧
  fs w !! ["srv"; "a.bin"] = Some (File [Byte.x61; Byte.x62; Byte.x63]) ∧
  answer w w' = Some (200, ChunkReceived (Some 0%Z) (Some 3%Z) 1 "u1") ∧
  fs w' !! ["srv"; "a.bin"] = Some (File [Byte.x61; Byte.x62]).
Proof.
  intros r0 r1 w w'. split.
  { eval_in (tracker_get "u1" w) E. eexists _, _. split; [exact E|].
    by_compute. }
  repeat split; reflexivity.
Qed.

(** C3 on the index 0: the identifier has a session that received the
    chunk 0; five seconds later a request with index 0 arrives for it.
    The tracker then holds another session object, with an empty set of
    received chunks, its own creation time and timer and a stream at
    offset 0, and the destination is truncated. *)
Theorem chunk_zero_replaces_session :
  let r0 := chunk_request "a.bin" "0" "3" "u1" None in
  let w := run example_rt (boot example_fs 1000)
             [EvUploadChunk r0; EvData 0 [Byte.x61; Byte.x62]; EvEnd 0;
              EvTick 5000] in
  let w' := step example_rt w (EvUploadChunk r0) in
  ∃ u u',
    tracker_get "u1" w = Some (0, u) ∧ tracker_get "u1" w' = Some (1, u') ∧
    receivedChunks u = {[Some 0%Z]} ∧ receivedChunks u' = ∅ ∧
    createdAt u = 1000%Z ∧ createdAt u' = 6000%Z ∧
    timeout u = 0 ∧ timeout u' = 1 ∧
    ws_pos (writeStream u) = 2 ∧ ws_pos (writeStream u') = 0 ∧
    fs w !! ["srv"; "a.bin"] = Some (File [Byte.x61; Byte.x62]) ∧
    fs w' !! ["srv"; "a.bin"] = Some (File []).
Proof.
  intros r0 w w'. eval_in (tracker_get "u1" w) E. eval_in (tracker_get "u1" w') E'.
  eexists _, _. split; [exact E|]. split; [exact E'|].
  repeat split; reflexivity.
Qed.

(** ** Assembly of stored chunks *)

Section Assembly.

Variable rt : runtime.

Lemma firstMissing_first (n : nat) (i0 i : Z) (dir : path) (f : filesystem) :
  (i0 ≤ i < i0 + Z.of_nat n)%Z →
  existsSync (chunkPathOf dir i) f = false →
  (∀ j, (i0 ≤ j < i)%Z → existsSync (chunkPathOf dir j) f = true) →
  firstMissing n i0 dir f = Some i.
Proof.
  revert i0. induction n as [|n IH]; intros i0 Hi Hm Hb; [lia|].
  simpl. destruct (decide (i0 = i)) as [->|Hne].
  - by rewrite Hm.
  - rewrite Hb by lia. apply IH; [lia|done|]. intros j Hj. apply Hb. lia.
Qed.

Lemma firstMissing_none (n : nat) (i0 : Z) (dir : path) (f : filesystem) :
  (∀ j, (i0 ≤ j < i0 + Z.of_nat n)%Z → existsSync (chunkPathOf dir j) f = true) →
  firstMissing n i0 dir f = None.
Proof.
  revert i0. induction n as [|n IH]; intros i0 Hb; [done|].
  simpl. rewrite Hb by lia. apply IH. intros j Hj. apply Hb. lia.
Qed.

(** C5: a request for the assembly that names a file and an identifier
    whose staging directory exists, with declared total [T], when [i] is
    the smallest index below [T] whose chunk path does not exist: the
    answer is status 400 with "missing chunk [i]"; the output is not
    opened, no directory is created and the file system is as before. *)
Theorem missing_chunk_reported (req : request) (w : world) (T i : Z) :
  let fileName := or_default (x_file_name req) "" in
  let fileId := or_default (x_file_id req) "" in
  let tempDir := tempDirOf rt fileId in
  crashed w = false →
  fileName ≠ "" → fileId ≠ "" →
  parseInt (or_default (x_total_chunks req) "0") = Some T →
  existsSync tempDir (fs w) = true →
  (0 ≤ i < T)%Z →
  existsSync (chunkPathOf tempDir i) (fs w) = false →
  (∀ j, (0 ≤ j < i)%Z → existsSync (chunkPathOf tempDir j) (fs w) = true) →
  let w' := step rt w (EvCombineChunks req) in
  log w' = log w ++ [Response (nreq w) 400 (MissingChunk i)] ∧
  fs w' = fs w ∧ heap w' = heap w ∧ uploadTracker w' = uploadTracker w.
Proof.
  intros fileName fileId tempDir Hc Hn%is_empty_false Hid%is_empty_false Ht
    He Hi Hm Hb w'.
  unfold w', step. rewrite Hc. unfold combineChunksHandler.
  fold fileName fileId. rewrite Hn, Hid, Ht. cbn [orb].
  replace (strict_eq (Some T) (Some 0%Z)) with false
    by (symmetry; apply bool_decide_eq_false; intros [=]; lia).
  cbn [with_nreq fs]. fold tempDir. rewrite He. cbn [negb].
  unfold verifyChunks.
  rewrite (firstMissing_first _ 0 i) by (try done; lia). done.
Qed.

Lemma js_ge_int (a b : Z) : js_ge (Some a) (Some b) = bool_decide (b ≤ a)%Z.
Proof. done. Qed.

Lemma processNextChunk_S (fuel : nat) (dir : path) (total : jsnum) (out : path)
      (i : Z) (pos : nat) (w : world) :
  processNextChunk (S fuel) dir total out i pos w =
  if js_ge (Some i) total then Resolved (emit (IoEnd out) w)
  else
    match readFile (chunkPathOf dir i) (fs w) with
    | None => Rejected w
    | Some d =>
      processNextChunk fuel dir total out (i + 1)%Z (pos + length d)
        (emit (IoPipe (chunkPathOf dir i) out d)
           (with_fs (writeAt out pos d (fs w)) w))
    end.
Proof. done. Qed.

(** [combineChunks] on a directory that holds a file for every index from
    [i] on: the chunk paths are read in ascending order, each one is
    piped to the output, and the output is ended after the last one. *)
Lemma processNextChunk_reads (n : nat) (dir out : path) (T i : Z) (pos : nat)
      (w : world) :
  (i + Z.of_nat n = T)%Z →
  (∀ j, (i ≤ j < T)%Z → ∃ d, fs w !! chunkPathOf dir j = Some (File d)) →
  ∃ ds w',
    processNextChunk (S n) dir (Some T) out i pos w = Resolved w' ∧
    length ds = n ∧
    log w' = log w ++
      imap (λ k d, IoPipe (chunkPathOf dir (i + Z.of_nat k)) out d) ds ++
      [IoEnd out] ∧
    nreq w' = nreq w ∧
    (∀ k, fs w' !! k = fs w !! k ∨
          (k = out ∧ ∃ d d', fs w !! k = Some (File d) ∧
                             fs w' !! k = Some (File d'))) ∧
    (fs_closed (fs w) → fs_closed (fs w')) ∧
    ((∀ j, (i ≤ j < T)%Z → chunkPathOf dir j ≠ out) →
     ∀ c, fs w !! out = Some (File c) → pos = length c →
       (∀ k d, ds !! k = Some d →
               fs w !! chunkPathOf dir (i + Z.of_nat k) = Some (File d)) ∧
       fs w' !! out = Some (File (c ++ concat ds))).
Proof.
  revert i pos w. induction n as [|n IH]; intros i pos w Hi Hf.
  - exists [], (emit (IoEnd out) w). rewrite processNextChunk_S.
    rewrite js_ge_int, bool_decide_true by lia.
    split; [done|]. split; [done|]. split; [done|]. split; [done|].
    split; [by left|]. split; [done|]. intros _ c Hc _. split; [done|].
    by rewrite app_nil_r.
  - rewrite processNextChunk_S, js_ge_int, bool_decide_false by lia.
    destruct (Hf i) as [d Hd]; [lia|]. unfold readFile. rewrite Hd.
    set (w1 := emit _ _).
    destruct (IH (i + 1)%Z (pos + length d) w1) as
      (ds & w' & Hr & Hlen & Hlog & Hn & Hfr & Hcl & Hco); [lia| |].
    { intros j Hj. destruct (Hf j) as [dj Hj']; [lia|]. simpl.
      rewrite lookup_writeAt, Hj'. eauto. }
    exists (d :: ds), w'. split; [exact Hr|]. split; [simpl; lia|].
    split.
    { rewrite Hlog. simpl. rewrite <- app_assoc. simpl. f_equal.
      rewrite Z.add_0_r. f_equal. f_equal. apply imap_ext. intros k x _.
      simpl. do 2 f_equal. lia. }
    split; [done|]. split.
    { intros k. destruct (Hfr k) as [E|(-> & d1 & d2 & E1 & E2)].
      - rewrite E. simpl. rewrite lookup_writeAt.
        destruct (fs w !! k) as [[dk|]|] eqn:Ek; [|by left..].
        case_decide; [|by left]. subst. right. eauto.
      - right. split; [done|]. simpl in E1. rewrite lookup_writeAt in E1.
        destruct (fs w !! out) as [[dk|]|]; [|done..]. eauto. }
    split.
    { intros Hc. apply Hcl. simpl. by apply writeAt_closed. }
    intros Hne c Hc ->.
    destruct (Hco (λ j Hj, Hne j ltac:(lia)) (c ++ d)) as [Hds Hout].
    { simpl. rewrite lookup_writeAt, Hc. rewrite decide_True by done.
      by rewrite pwrite_end. }
    { by rewrite length_app. }
    split.
    + intros [|k] dk; simpl.
      * intros [= <-]. by rewrite Z.add_0_r.
      * intros Hk. pose proof (lookup_lt_Some _ _ _ Hk) as Hlt.
        apply Hds in Hk. simpl in Hk. rewrite lookup_writeAt in Hk.
        replace (i + 1 + Z.of_nat k)%Z with (i + Z.of_nat (S k))%Z in Hk by lia.
        destruct (fs w !! chunkPathOf dir (i + Z.of_nat (S k))) as [[dk'|]|];
          [|done..].
        rewrite decide_False in Hk; [done|]. intros E.
        apply (Hne (i + Z.of_nat (S k))%Z); [lia|done].
    + rewrite Hout. simpl. by rewrite <- app_assoc.
Qed.

Lemma parent_path_join (d : path) (n : string) : parent (path_join d n) = d.
Proof. unfold parent, path_join. apply removelast_last. Qed.

Lemma path_join_nonempty (d : path) (n : string) : path_join d n ≠ [].
Proof. unfold path_join. by destruct d. Qed.

(** C6: a request for the assembly whose file name and identifier are
    each one path component, with a positive declared total [T] (a safe
    integer), on a file system where every index below [T] has its chunk
    file, and whose output can be opened.
    The output is opened, the chunk paths 0, 1, ..., [T]-1 are read in
    this order and each one's bytes are piped to the output, the output
    is ended after the last pipe, then the staging directory is removed
    with everything below it, and last the response "assembled" with the
    final path is sent.  When the output does not lie in the staging
    directory the bytes piped are those of the chunk files and the output
    holds their concatenation. *)
Theorem stored_chunks_assembled (req : request) (w : world) (T : Z)
        (fs1 fs2 : filesystem) :
  let fileName := or_default (x_file_name req) "" in
  let fileId := or_default (x_file_id req) "" in
  let tempDir := tempDirOf rt fileId in
  let finalPath := path_join (outputDirOf rt (query_path req)) fileName in
  crashed w = false → fs_closed (fs w) →
  is_component fileName → is_component fileId →
  parseInt (or_default (x_total_chunks req) "0") = Some T →
  (1 ≤ T ≤ MAX_SAFE_INTEGER)%Z →
  (∀ j, (0 ≤ j < T)%Z → ∃ d, fs w !! chunkPathOf tempDir j = Some (File d)) →
  ensureDir (outputDirOf rt (query_path req)) (fs w) = Some fs1 →
  openW finalPath fs1 = Some fs2 →
  let w' := step rt w (EvCombineChunks req) in
  ∃ ds,
    length ds = Z.to_nat T ∧
    log w' = log w ++ [IoOpen finalPath] ++
      imap (λ k d, IoPipe (chunkPathOf tempDir (Z.of_nat k)) finalPath d) ds ++
      [IoEnd finalPath; IoRemoveDirectory tempDir;
       Response (nreq w) 200 (Assembled finalPath)] ∧
    (∀ k, tempDir `prefix_of` k → fs w' !! k = None) ∧
    (¬ tempDir `prefix_of` finalPath →
     (∀ k d, ds !! k = Some d →
             fs w !! chunkPathOf tempDir (Z.of_nat k) = Some (File d)) ∧
     fs w' !! finalPath = Some (File (concat ds))).
Proof.
  intros fileName fileId tempDir finalPath Hc Hcl [(_ & Hn & _) _]
    [(_ & Hid & _) _] Ht [HT _] Hf H1 H2 w'.
  apply is_empty_false in Hn, Hid.
  (* the staging directory is the directory of the chunk files *)
  assert (fs w !! tempDir = Some Directory) as Htmp.
  { destruct (Hf 0%Z) as [d0 Hd0]; [lia|].
    destruct (Hcl _ _ Hd0) as [E|E]; simpl in E.
    - by apply path_join_nonempty in E.
    - unfold chunkPathOf in E. by rewrite parent_path_join in E. }
  pose proof H1 as H1'. apply ensureDir_spec in H1' as (Hcl1 & Ha1 & _); [|done].
  pose proof H2 as H2'. apply openW_spec in H2' as (E2 & Hcl2 & Hnd); [|done].
  subst fs2.
  assert (finalPath ≠ tempDir) as Hne.
  { intros E. apply Hnd. rewrite E. by eapply adds_dirs_Some. }
  set (f2 := <[finalPath := File []]> fs1) in *.
  set (w0 := emit (IoOpen finalPath) (with_fs f2 (with_nreq (S (nreq w)) w))).
  destruct (processNextChunk_reads (Z.to_nat T) tempDir finalPath T 0 0 w0)
    as (ds & w1 & Hr & Hlen & Hlog & Hnr & Hfr & Hcl' & Hco); [lia| |].
  { intros j Hj. destruct (Hf j Hj) as [d Hd]. simpl. unfold f2.
    rewrite lookup_insert. case_decide; [eauto|].
    exists d. by eapply adds_dirs_Some. }
  assert (fs w1 !! tempDir = Some Directory) as Htmp1.
  { destruct (Hfr tempDir) as [->|(E & _)]; [|by destruct Hne].
    simpl. unfold f2. rewrite lookup_insert_ne by done.
    by eapply adds_dirs_Some. }
  assert (step rt w (EvCombineChunks req) =
          respond (nreq w) 200 (Assembled finalPath)
            (emit (IoRemoveDirectory tempDir)
               (with_fs (outside tempDir (fs w1)) w1))) as Hstep.
  { unfold step. rewrite Hc. unfold combineChunksHandler.
    fold fileName fileId. rewrite Hn, Hid, Ht. cbn [orb].
    replace (strict_eq (Some T) (Some 0%Z)) with false
      by (symmetry; apply bool_decide_eq_false; intros [=]; lia).
    cbn [with_nreq fs]. fold tempDir. unfold existsSync at 1.
    rewrite bool_decide_true by by rewrite Htmp. cbn [negb].
    unfold verifyChunks. rewrite firstMissing_none.
    2:{ intros j Hj. unfold existsSync. apply bool_decide_eq_true.
        destruct (Hf j) as [d ->]; [lia|done]. }
    rewrite H1. fold finalPath. rewrite H2. unfold combineChunks.
    fold f2 w0. rewrite Hr.
    by rewrite removeDirectory_spec by (try done; by apply Hcl'). }
  assert (fs w' = outside tempDir (fs w1) ∧
          log w' = log w1 ++ [IoRemoveDirectory tempDir;
                              Response (nreq w) 200 (Assembled finalPath)])
    as [Hfs Hlg].
  { unfold w'. rewrite Hstep. split; [done|]. simpl. by rewrite <- app_assoc. }
  exists ds. split; [done|]. split.
  { rewrite Hlg, Hlog. simpl. rewrite <- !app_assoc. reflexivity. }
  split.
  { intros k Hk. rewrite Hfs, lookup_outside. by rewrite decide_True. }
  intros Hout.
  destruct (Hco) with (c := @nil Byte.byte) as [Hds Hfin]; [| |done|].
  { intros j _ E. apply Hout. rewrite <- E. by exists ["chunk-" +:+ pretty j]. }
  { simpl. unfold f2. apply lookup_insert_eq. }
  split.
  - intros k d Hk. specialize (Hds k d Hk). simpl in Hds. unfold f2 in Hds.
    rewrite lookup_insert_ne in Hds.
    2:{ intros E. apply Hout. rewrite E.
        by exists ["chunk-" +:+ pretty (0 + Z.of_nat k)%Z]. }
    by apply (adds_dirs_file _ _ _ _ Ha1).
  - rewrite Hfs, lookup_outside. by rewrite decide_False.
Qed.

End Assembly.

Lemma missing_chunk_reported_witness :
  let f : filesystem :=
    {[ [] := Directory; ["tmp"] := Directory;
       ["tmp"; "file-server-chunks"] := Directory;
       ["tmp"; "file-server-chunks"; "u1"] := Directory;
       ["tmp"; "file-server-chunks"; "u1"; "chunk-0"] := File [Byte.x61];
       ["tmp"; "file-server-chunks"; "u1"; "chunk-2"] := File [Byte.x63] ]} in
  let w := boot f 1000 in
  let w' := step example_rt w
              (EvCombineChunks (chunk_request "a.bin" "0" "3" "u1" None)) in
  log w' = [Response 0 400 (MissingChunk 1)] ∧ fs w' = fs w.
Proof.
  intros f w w'.
  assert (∀ j, (0 ≤ j < 1)%Z →
    existsSync (chunkPathOf (tempDirOf example_rt "u1") j) (fs w) = true) as Hb.
  { intros j Hj. assert (j = 0%Z) as -> by lia. reflexivity. }
  pose proof (missing_chunk_reported example_rt
                (chunk_request "a.bin" "0" "3" "u1" None) w 3 1
                eq_refl ltac:(done) ltac:(done) eq_refl eq_refl ltac:(lia)
                eq_refl Hb) as (Hl & Hf & _).
  split; [exact Hl|exact Hf].
Defined.

Lemma stored_chunks_assembled_witness :
  let staging := ["tmp"; "file-server-chunks"; "u1"] in
  let f : filesystem :=
    {[ [] := Directory; ["srv"] := Directory; ["tmp"] := Directory;
       ["tmp"; "file-server-chunks"] := Directory;
       staging := Directory;
       staging ++ ["chunk-0"] := File [Byte.x61];
       staging ++ ["chunk-1"] := File [Byte.x62; Byte.x63] ]} in
  let w := boot f 1000 in
  let w' := step example_rt w
              (EvCombineChunks (chunk_request "a.bin" "0" "2" "u1" None)) in
  fs_closed f ∧
  log w' = [IoOpen ["srv"; "a.bin"];
            IoPipe (staging ++ ["chunk-0"]) ["srv"; "a.bin"] [Byte.x61];
            IoPipe (staging ++ ["chunk-1"]) ["srv"; "a.bin"]
              [Byte.x62; Byte.x63];
            IoEnd ["srv"; "a.bin"]; IoRemoveDirectory staging;
            Response 0 200 (Assembled ["srv"; "a.bin"])] ∧
  fs w' !! ["srv"; "a.bin"] = Some (File [Byte.x61; Byte.x62; Byte.x63]) ∧
  ∀ k, staging `prefix_of` k → fs w' !! k = None.
Proof.
  intros staging f w w'.
  assert (fs_closed f) as Hcl by by_compute.
  split; [exact Hcl|]. split; [reflexivity|]. split; [reflexivity|].
  assert (∀ j, (0 ≤ j < 2)%Z →
            ∃ d, fs w !! chunkPathOf (tempDirOf example_rt "u1") j
                 = Some (File d)) as Hf.
  { intros j Hj. assert (j = 0 ∨ j = 1)%Z as [-> | ->] by lia;
      eexists; reflexivity. }
  destruct (stored_chunks_assembled example_rt
              (chunk_request "a.bin" "0" "2" "u1" None) w 2 f
              (<[ ["srv"; "a.bin"] := File [] ]> f)
              eq_refl Hcl ltac:(by_compute) ltac:(by_compute) eq_refl
              ltac:(by_compute) Hf eq_refl eq_refl)
    as (ds & _ & _ & Hgone & _).
  exact Hgone.
Defined.

(** ** A chunk request served without interleaving *)

Lemma finishChunk_written (rid : nat) (p p' : pending) (body : bytes)
      (w W : world) (u : session) (s2 : wstream) :
  heap w !! p_upload p = Some u →
  p_upload p' = p_upload p → p_chunkIndex p' = p_chunkIndex p →
  p_totalChunks p' = p_totalChunks p → p_fileId p' = p_fileId p →
  p_tempDir p' = p_tempDir p →
  heap W = <[p_upload p := with_stream s2 u]> (heap w) →
  fs W = writeAt (ws_path (writeStream u)) (ws_pos (writeStream u)) body (fs w) →
  uploadTracker W = uploadTracker w → timers W = timers w → log W = log w →
  nreq W = nreq w → now W = now w → crashed W = false →
  ws_path s2 = ws_path (writeStream u) →
  ws_pos s2 = ws_pos (writeStream u) + length body →
  ws_ended s2 = false → ws_onDrain s2 = [] →
  chunk_written rid p body w (finishChunk rid p' W) ∧
  inflight (finishChunk rid p' W) = delete rid (inflight W).
Proof.
  intros Hu E1 E2 E3 E4 E5 Hh Hf Ht Htm Hl Hn Hnow Hc S1 S2 S3 S4.
  unfold finishChunk. rewrite E1, Hh, lookup_insert_eq. cbn zeta.
  set (u1 := with_received _ _).
  destruct (strict_eq (Some (Z.of_nat (size (receivedChunks u1))))
              (totalChunks u1)) eqn:Hd.
  - split; [|done]. exists u, (with_stream (ws_end s2) u1).
    split; [done|]. split.
    { rewrite end_stream_unfold. simpl. rewrite lookup_insert_eq. simpl.
      by rewrite lookup_insert_eq. }
    simpl. rewrite E2. do 8 (split; [done|]). do 3 (split; [done|]).
    simpl in Hd. rewrite E2 in Hd. rewrite Hd.
    rewrite E4, E5, Ht, Htm, Hf, Hl. done.
  - split; [|done]. exists u, u1. split; [done|]. split.
    { simpl. by rewrite lookup_insert_eq. }
    simpl. rewrite E2. do 8 (split; [done|]). do 3 (split; [done|]).
    simpl in Hd. rewrite E2 in Hd. rewrite Hd.
    rewrite E3, E4, Ht, Htm, Hf, Hl. done.
Qed.

Section Served.

Variable rt : runtime.

Lemma step_data (rid : nat) (p : pending) (body : bytes) (w : world) :
  crashed w = false → inflight w !! rid = Some p → p_awaiting p = false →
  step rt w (EvData rid body) =
  with_inflight (<[rid := with_dataBuffer (p_dataBuffer p ++ body) p]>
                   (inflight w)) w.
Proof. intros Hc Hp Ha. unfold step, onData. by rewrite Hc, Hp, Ha. Qed.

(** The stream after [write(b)]. *)
Lemma ws_write_open (b : bytes) (s : wstream) (f : filesystem) :
  ws_ended s = false →
  ws_write b s f =
  Some ((ws_length s + N.of_nat (length b) <? HIGH_WATER_MARK)%N,
        {| ws_path := ws_path s; ws_pos := ws_pos s + length b;
           ws_length := ws_length s + N.of_nat (length b);
           ws_needDrain :=
             ws_needDrain s ||
             negb (ws_length s + N.of_nat (length b) <? HIGH_WATER_MARK)%N;
           ws_onDrain := ws_onDrain s; ws_ended := false;
           ws_autoClose := ws_autoClose s; ws_closed := ws_closed s |},
        writeAt (ws_path s) (ws_pos s) b f).
Proof. intros He. unfold ws_write. by rewrite He. Qed.

(** The ['end'] listener when the stream takes the body without
    saturating: it goes on to mark the chunk. *)
Lemma step_end_continue (rid : nat) (p : pending) (w : world) (u : session)
      (s : wstream) (f : filesystem) :
  crashed w = false → inflight w !! rid = Some p → p_awaiting p = false →
  heap w !! p_upload p = Some u →
  ws_write (p_dataBuffer p) (writeStream u) (fs w) = Some (true, s, f) →
  step rt w (EvEnd rid) =
  finishChunk rid p
    (with_heap (<[p_upload p := with_stream s u]> (heap w)) (with_fs f w)).
Proof.
  intros Hc Hp Ha Hu Hw. unfold step, onEnd. by rewrite Hc, Hp, Ha, Hu, Hw.
Qed.

(** The ['end'] listener when the stream reports saturation: it
    subscribes to ['drain'] and waits. *)
Lemma step_end_wait (rid : nat) (p : pending) (w : world) (u : session)
      (s : wstream) (f : filesystem) :
  crashed w = false → inflight w !! rid = Some p → p_awaiting p = false →
  heap w !! p_upload p = Some u →
  ws_write (p_dataBuffer p) (writeStream u) (fs w) = Some (false, s, f) →
  step rt w (EvEnd rid) =
  with_inflight (<[rid := with_awaiting p]> (inflight w))
    (with_heap (<[p_upload p := with_stream (ws_subscribe rid s) u]> (heap w))
       (with_fs f w)).
Proof.
  intros Hc Hp Ha Hu Hw. unfold step, onEnd. by rewrite Hc, Hp, Ha, Hu, Hw.
Qed.

(** The ['drain'] event of a stream that owes one and was not ended. *)
Lemma step_flushed_drain (l : nat) (w : world) (u : session) :
  crashed w = false → heap w !! l = Some u →
  ws_ended (writeStream u) = false → ws_needDrain (writeStream u) = true →
  step rt w (EvFlushed l) =
  foldl resume
    (with_heap
       (<[l := with_stream
                 {| ws_path := ws_path (writeStream u);
                    ws_pos := ws_pos (writeStream u);
                    ws_length := 0; ws_needDrain := false;
                    ws_onDrain := []; ws_ended := false;
                    ws_autoClose := ws_autoClose (writeStream u);
                    ws_closed := ws_closed (writeStream u) |} u]> (heap w)) w)
    (ws_onDrain (writeStream u)).
Proof.
  intros Hc Hu He Hn. unfold step, onFlushed. by rewrite Hc, Hu, He, Hn.
Qed.

(** The body of a pending request arrives and ends: the chunk is written
    to the session's open stream and the request is answered. *)
Lemma receiveBody_written (rid : nat) (p : pending) (body : bytes) (w : world)
      (u : session) :
  crashed w = false → inflight w !! rid = Some p →
  p_awaiting p = false → p_dataBuffer p = [] →
  heap w !! p_upload p = Some u →
  ws_ended (writeStream u) = false → ws_onDrain (writeStream u) = [] →
  chunk_written rid p body w (receiveBody rt rid body w) ∧
  inflight (receiveBody rt rid body w) = delete rid (inflight w).
Proof.
  intros Hc Hp Ha Hb Hu He Hd. unfold receiveBody, run. cbn [foldl].
  rewrite (step_data rid p) by done. rewrite Hb. cbn [app].
  set (pD := with_dataBuffer body p).
  set (wD := with_inflight _ w).
  assert (inflight wD !! rid = Some pD) as HpD by apply lookup_insert_eq.
  pose proof (ws_write_open body (writeStream u) (fs w) He) as Hw.
  destruct (_ <? _)%N eqn:Hsat.
  - rewrite (step_end_continue rid pD wD u _ _ Hc HpD Ha Hu Hw).
    match goal with |- context [finishChunk rid pD ?W] =>
      destruct (finishChunk_written rid p pD body w W u
                  (writeStream (with_stream
                     {| ws_path := ws_path (writeStream u);
                        ws_pos := ws_pos (writeStream u) + length body;
                        ws_length := ws_length (writeStream u)
                                     + N.of_nat (length body);
                        ws_needDrain := ws_needDrain (writeStream u)
                                        || negb true;
                        ws_onDrain := ws_onDrain (writeStream u);
                        ws_ended := false;
                        ws_autoClose := ws_autoClose (writeStream u);
                        ws_closed := ws_closed (writeStream u) |} u)))
        as [Hwr Hi]; try done;
      rewrite Hi; change (inflight W) with (<[rid := pD]> (inflight w))
    end.
    rewrite lookup_delete_eq. split; [done|].
    rewrite Hi. simpl. by rewrite delete_insert_eq.
  - match type of Hw with _ = Some (_, ?s, _) => set (s1 := s) in * end.
    rewrite (step_end_wait rid pD wD u _ _ Hc HpD Ha Hu Hw).
    set (wS := with_inflight _ _).
    assert (inflight wS !! rid = Some (with_awaiting pD)) as ->
      by apply lookup_insert_eq.
    change (p_upload (with_awaiting pD)) with (p_upload p).
    rewrite (step_flushed_drain (p_upload p) wS
               (with_stream (ws_subscribe rid s1) u));
      [|done|apply lookup_insert_eq|done|apply orb_true_r].
    cbn [writeStream with_stream ws_subscribe ws_onDrain ws_path ws_pos s1].
    rewrite Hd. cbn [app foldl]. unfold resume.
    match goal with |- context [inflight ?W !! rid] => set (W' := W) end.
    assert (inflight W' !! rid = Some (with_awaiting pD)) as ->
      by apply lookup_insert_eq.
    cbn [p_awaiting with_awaiting].
    destruct (finishChunk_written rid p (with_awaiting pD) body w W' u
                {| ws_path := ws_path (writeStream u);
                   ws_pos := ws_pos (writeStream u) + length body;
                   ws_length := 0; ws_needDrain := false;
                   ws_onDrain := []; ws_ended := false;
                   ws_autoClose := ws_autoClose (writeStream u);
                   ws_closed := ws_closed (writeStream u) |})
      as [Hwr Hi]; try done.
    { simpl. by rewrite insert_insert_eq. }
    split; [done|]. rewrite Hi. simpl.
    by rewrite delete_insert_eq, delete_insert_eq.
Qed.

End Served.



Section Arrival.

Variable rt : runtime.





End Arrival.

Lemma strict_eq_true (a b : jsnum) : strict_eq a b = true → a = b.
Proof.
  destruct a, b; simpl; try done. by intros ->%bool_decide_eq_true.
Qed.

Lemma openW_insert (p : path) (f f' : filesystem) :
  openW p f = Some f' → f' = <[p := File []]> f.
Proof.
  unfold openW. destruct (f !! p) as [[|]|]; [by intros [= <-]|done|].
  destruct p; [done|]. destruct (f !! parent _) as [[|]|]; try done.
  by intros [= <-].
Qed.

Section FirstChunk.

Variable rt : runtime.

(** The handler on a request with index 0 that names a file, when the
    directories can be created and the destination can be opened: a new
    session object, with an empty set of received chunks, a stream at
    offset 0 on the truncated destination and a timer of its own, is
    stored under the identifier, and the listeners are registered. *)
Lemma uploadChunk_zero (req : request) (w : world) (fileName : string)
      (fs1 fs2 fs3 fs4 : filesystem) :
  let chunkIndex := parseInt (or_default (x_chunk_index req) "0") in
  let total := parseInt (or_default (x_total_chunks req) "1") in
  let fileId := or_default (x_file_id req) (pretty (now w)) in
  let dest := path_join (outputDirOf rt (query_path req)) fileName in
  let l := fresh (dom (heap w)) in
  crashed w = false →
  decodeURIComponent rt (or_default (x_file_name req) "") = Some fileName →
  fileName ≠ "" →
  strict_eq chunkIndex (Some 0%Z) = true →
  ensureDir (path_join (cwd rt) "uploads") (fs w) = Some fs1 →
  ensureDir (tempDirOf rt fileId) fs1 = Some fs2 →
  ensureDir (outputDirOf rt (query_path req)) fs2 = Some fs3 →
  openW dest fs3 = Some fs4 →
  step rt w (EvUploadChunk req) =
  {| fs := fs4;
     heap := <[l := {| finalPath := dest; receivedChunks := ∅;
                       writeStream :=
                         {| ws_path := dest; ws_pos := 0; ws_length := 0;
                            ws_needDrain := false; ws_onDrain := [];
                            ws_ended := false;
                            ws_autoClose := false; ws_closed := false |};
                       totalChunks := total; createdAt := now w;
                       timeout := l |}]> (heap w);
     uploadTracker := <[fileId := l]> (uploadTracker w);
     timers := <[l := {| tm_fileId := fileId;
                         tm_due := (now w + UPLOAD_TIMEOUT)%Z |}]> (timers w);
     inflight := <[nreq w := {| p_fileName := fileName;
                                p_chunkIndex := chunkIndex;
                                p_totalChunks := total; p_fileId := fileId;
                                p_tempDir := tempDirOf rt fileId;
                                p_upload := l; p_dataBuffer := [];
                                p_awaiting := false |}]> (inflight w);
     now := now w; nreq := S (nreq w); log := log w; crashed := false |}.
Proof.
  intros chunkIndex total fileId dest l Hc Hd Hn%is_empty_false Hi H1 H2 H3 H4.
  unfold step. rewrite Hc. unfold uploadChunk. rewrite Hd, Hn.
  cbn [with_nreq fs now]. rewrite H1. fold fileId. rewrite H2.
  fold chunkIndex. rewrite Hi. unfold createSession. cbn [fs with_fs].
  rewrite H3. cbn [mbind option_bind]. fold dest. rewrite H4.
  unfold tracker_get. cbn [uploadTracker heap with_fs with_nreq].
  fold l. rewrite lookup_insert_eq. cbn [mbind option_bind].
  rewrite lookup_insert_eq. cbn [mbind option_bind receivedChunks].
  rewrite bool_decide_false by set_solver.
  unfold with_inflight. cbn. rewrite Hc. by fold total.
Qed.

(** C10: on a chunk request a missing index header counts as index 0,
    a missing total header as total 1, and a missing identifier header as
    the decimal timestamp of the arrival.  A request that carries none
    of the three and is otherwise accepted (its file name is one path
    component, the directories can be created and the destination
    opened) creates a session with total 1, and the write of its single
    chunk finalizes it: the body is written at the start of the
    destination, the staging directory is removed, the answer is
    "complete" with the destination, the stream is ended, the timer
    cleared and the identifier is out of the tracker.  A destination
    outside the staging directory then holds the body. *)
Theorem missing_headers_single_chunk (req : request) (body : bytes)
        (w : world) :
  x_chunk_index req = None → x_total_chunks req = None →
  x_file_id req = None →
  parseInt (or_default (x_chunk_index req) "0") = Some 0%Z ∧
  parseInt (or_default (x_total_chunks req) "1") = Some 1%Z ∧
  or_default (x_file_id req) (pretty (now w)) = pretty (now w) ∧
  ∀ (fileName : string) (fs1 fs2 fs3 fs4 : filesystem),
    let fileId := pretty (now w) in
    let dest := path_join (outputDirOf rt (query_path req)) fileName in
    crashed w = false →
    decodeURIComponent rt (or_default (x_file_name req) "") = Some fileName →
    is_component fileName →
    ensureDir (path_join (cwd rt) "uploads") (fs w) = Some fs1 →
    ensureDir (tempDirOf rt fileId) fs1 = Some fs2 →
    ensureDir (outputDirOf rt (query_path req)) fs2 = Some fs3 →
    openW dest fs3 = Some fs4 →
    (∃ l u, tracker_get fileId (step rt w (EvUploadChunk req)) = Some (l, u) ∧
            heap w !! l = None ∧ totalChunks u = Some 1%Z ∧
            receivedChunks u = ∅ ∧ ws_pos (writeStream u) = 0 ∧
            fs (step rt w (EvUploadChunk req)) = fs4) ∧
    let w' := serve rt w (req, body) in
    log w' = log w ++ [Response (nreq w) 200 (UploadComplete dest)] ∧
    uploadTracker w' !! fileId = None ∧
    (∃ l u, heap w' !! l = Some u ∧ heap w !! l = None ∧
            receivedChunks u = {[Some 0%Z]} ∧
            ws_pos (writeStream u) = length body ∧
            ws_ended (writeStream u) = true ∧
            timers w' !! timeout u = None) ∧
    fs w' = (removeDirectory (tempDirOf rt fileId)
               (writeAt dest 0 body fs4)).2 ∧
    (¬ tempDirOf rt fileId `prefix_of` dest →
     fs w' !! dest = Some (File body)).
Proof.
  intros Ei Et Ef. rewrite Ei, Et, Ef. do 3 (split; [done|]).
  intros fileName fs1 fs2 fs3 fs4 fileId dest Hc Hd [(_ & Hn & _) _]
    H1 H2 H3 H4.
  pose proof (uploadChunk_zero req w fileName fs1 fs2 fs3 fs4) as Hz.
  rewrite Ei, Et, Ef in Hz. specialize (Hz Hc Hd Hn eq_refl H1 H2 H3 H4).
  cbn zeta in Hz. fold fileId dest in Hz.
  pose proof (is_fresh (dom (heap w))) as Hfr.
  rewrite elem_of_dom, <- eq_None_not_Some in Hfr.
  set (l := fresh (dom (heap w))) in *.
  split.
  { rewrite Hz. eexists l, _. unfold tracker_get. simpl.
    rewrite lookup_insert_eq. simpl. rewrite lookup_insert_eq. done. }
  unfold serve. cbn [fst snd]. rewrite Hz.
  match goal with
  | |- context [receiveBody rt ?rid body
                  (Build_world ?a (<[?k := ?u0]> ?h) ?b ?c (<[?r := ?p0]> ?i)
                     ?d ?e ?f ?g)] =>
    destruct (receiveBody_written rt rid p0 body
                (Build_world a (<[k := u0]> h) b c (<[r := p0]> i) d e f g) u0)
      as [Hw _];
      [done|apply lookup_insert_eq|done|done|apply lookup_insert_eq|done|done|];
    set (w' := receiveBody rt rid body
                 (Build_world a (<[k := u0]> h) b c (<[r := p0]> i) d e f g))
      in *; clearbody w'
  end.
  destruct Hw as (u & u' & Hu & Hu' & Hrc & Hfp & Htot & Hto & Hca & Hp & Hpos
                  & Hod & Hnr & Hcr & Hnow & Hfin).
  simpl in Hu. rewrite lookup_insert_eq in Hu. injection Hu as <-.
  simpl in Hrc, Hfp, Htot, Hto, Hpos, Hfin.
  assert (receivedChunks u' = {[Some 0%Z]}) as Hrc'.
  { rewrite Hrc. change (parseInt "0") with (Some 0%Z). set_solver. }
  rewrite Hrc', size_singleton in Hfin.
  change (parseInt "1") with (Some 1%Z) in Hfin. simpl in Hfin.
  destruct Hfin as (He & Htr & Htm & Hfs & Hlog).
  split; [done|]. split.
  { rewrite Htr. apply lookup_delete_eq. }
  split.
  { exists l, u'. split; [done|]. split; [done|]. split; [done|].
    split; [done|]. split; [done|]. rewrite Htm, Hto. apply lookup_delete_eq. }
  split; [done|]. intros Hout. rewrite Hfs.
  apply openW_insert in H4. subst fs4.
  rewrite removeDirectory_frame by done.
  rewrite lookup_writeAt, lookup_insert_eq. rewrite decide_True by done.
  by rewrite (pwrite_end []).
Qed.

End FirstChunk.

Lemma missing_headers_single_chunk_witness :
  let req := {| x_file_name := Some "a.bin"; x_chunk_index := None;
                x_total_chunks := None; x_file_id := None;
                query_path := None |} in
  let w := boot example_fs 1000 in
  let w' := serve example_rt w (req, [Byte.x61]) in
  log w' = [Response 0 200 (UploadComplete ["srv"; "a.bin"])] ∧
  uploadTracker w' !! "1000" = None ∧
  fs w' !! ["srv"; "a.bin"] = Some (File [Byte.x61]).
Proof.
  intros req w w'.
  set (f1 := <[ ["srv"; "uploads"] := Directory]>
               (<[ ["srv"] := Directory]> example_fs)).
  set (f2 := <[ ["tmp"; "file-server-chunks"; "1000"] := Directory]>
               (<[ ["tmp"; "file-server-chunks"] := Directory]>
                  (<[ ["tmp"] := Directory]> f1))).
  destruct (missing_headers_single_chunk example_rt req [Byte.x61] w
              eq_refl eq_refl eq_refl) as (_ & _ & _ & H).
  destruct (H "a.bin" f1 f2 f2 (<[ ["srv"; "a.bin"] := File [] ]> f2)
              eq_refl eq_refl ltac:(by_compute) eq_refl eq_refl eq_refl
              eq_refl)
    as (_ & Hl & Ht & _ & _ & Hf).
  split; [exact Hl|]. split; [exact Ht|]. apply Hf. by_compute.
Defined.

(** ** An upload served chunk by chunk *)



Section Upload.

Variable rt : runtime.





End Upload.



(** ** A request waiting for ['drain'] *)

Section Undisturbed.

Variable rid l : nat.

Lemma undisturbed_refl (w : world) : undisturbed rid l w w.
Proof. split; [done|]. split; [done|]. intros u Hu. by exists u. Qed.

Lemma undisturbed_then (w x x' : world) :
  undisturbed rid l x x' → undisturbed rid l w x → undisturbed rid l w x'.
Proof.
  intros (I2 & L2 & H2) (I1 & L1 & H1). split; [congruence|]. split; [eauto|].
  intros u Hu. destruct (H1 u Hu) as (u1 & Hu1 & D1 & N1).
  destruct (H2 u1 Hu1) as (u2 & Hu2 & D2 & N2). exists u2.
  split; [done|]. split; eauto.
Qed.

Lemma undisturbed_same (x x' : world) :
  inflight x' = inflight x → log x' = log x → heap x' = heap x →
  undisturbed rid l x x'.
Proof.
  intros Ei El Eh. split; [by rewrite Ei|]. split; [by rewrite El|].
  intros u Hu. exists u. by rewrite Eh.
Qed.

Lemma undisturbed_respond (rid' st : nat) (r : reply) (x : world) :
  rid' ≠ rid → undisturbed rid l x (respond rid' st r x).
Proof.
  intros Hne. split; [by apply lookup_delete_ne|]. split.
  - intros st' r'. simpl. rewrite elem_of_app, list_elem_of_singleton.
    intros [?|[= <- _ _]]; done.
  - intros u Hu. by exists u.
Qed.

Lemma undisturbed_emit (o : output) (x : world) :
  (∀ st r, o ≠ Response rid st r) → undisturbed rid l x (emit o x).
Proof.
  intros Hne. split; [done|]. split.
  - intros st r. simpl. rewrite elem_of_app, list_elem_of_singleton.
    intros [?| <-]; [done|]. by destruct (Hne st r).
  - intros u Hu. by exists u.
Qed.

Lemma undisturbed_listen (m : gmap nat pending) (x : world) :
  m !! rid = inflight x !! rid → undisturbed rid l x (with_inflight m x).
Proof. intros E. split; [done|]. split; [done|]. intros u Hu. by exists u. Qed.

Lemma undisturbed_set (l' : nat) (u0 u' : session) (x : world) :
  heap x !! l' = Some u0 →
  (rid ∈ ws_onDrain (writeStream u0) → rid ∈ ws_onDrain (writeStream u')) →
  (ws_needDrain (writeStream u0) = true →
   ws_needDrain (writeStream u') = true) →
  undisturbed rid l x (with_heap (<[l' := u']> (heap x)) x).
Proof.
  intros H0 Hd Hn. split; [done|]. split; [done|]. intros u Hu. simpl.
  rewrite lookup_insert. case_decide as E.
  - subst l'. rewrite H0 in Hu. injection Hu as <-. by exists u'.
  - by exists u.
Qed.

Lemma undisturbed_set_other (l' : nat) (u' : session) (x : world) :
  l' ≠ l → undisturbed rid l x (with_heap (<[l' := u']> (heap x)) x).
Proof.
  intros Hne. split; [done|]. split; [done|]. intros u Hu. simpl.
  rewrite lookup_insert_ne by done. by exists u.
Qed.

Lemma undisturbed_end_stream (l' : nat) (x : world) :
  undisturbed rid l x (end_stream l' x).
Proof.
  rewrite end_stream_unfold. destruct (heap x !! l') as [u|] eqn:E.
  - by apply (undisturbed_set l' u).
  - apply undisturbed_refl.
Qed.

Lemma undisturbed_createSession (rt : runtime) (f name : string)
      (total : jsnum) (q : option string) (x x' : world) :
  createSession rt f name total q x = Some x' → undisturbed rid l x x'.
Proof.
  unfold createSession. destruct (ensureDir _ _) as [fs1|]; [|done].
  simpl. intros [= <-]. split; [done|]. split; [done|].
  intros u Hu. exists u. simpl. rewrite lookup_insert_ne; [done|].
  intros <-. pose proof (is_fresh (dom (heap x))) as Hfr.
  rewrite elem_of_dom in Hfr. destruct Hfr. eauto.
Qed.

Lemma undisturbed_finishChunk (rid' : nat) (p : pending) (x : world) :
  rid' ≠ rid → undisturbed rid l x (finishChunk rid' p x).
Proof.
  intros Hne. unfold finishChunk.
  destruct (heap x !! p_upload p) as [u|] eqn:Hu;
    [|by apply undisturbed_respond].
  cbn zeta. destruct (strict_eq _ _).
  - eapply undisturbed_then; [by apply undisturbed_respond|].
    eapply undisturbed_then; [by apply undisturbed_same|].
    eapply undisturbed_then; [by apply undisturbed_same|].
    eapply undisturbed_then; [by apply undisturbed_same|].
    eapply undisturbed_then; [apply undisturbed_end_stream|].
    by apply (undisturbed_set _ u).
  - eapply undisturbed_then; [by apply undisturbed_respond|].
    by apply (undisturbed_set _ u).
Qed.

Lemma undisturbed_uploadChunk (rt : runtime) (req : request) (x : world) :
  rid < nreq x → undisturbed rid l x (uploadChunk rt req x).
Proof.
  intros Hlt. assert (nreq x ≠ rid) as Hne by lia. unfold uploadChunk.
  assert (undisturbed rid l x (with_nreq (S (nreq x)) x)) as H0
    by by apply undisturbed_same.
  set (w0 := with_nreq (S (nreq x)) x) in *.
  assert (∀ y st r, undisturbed rid l x y →
            undisturbed rid l x (respond (nreq x) st r y)) as Hresp.
  { intros y st r Hy. eapply undisturbed_then; [|exact Hy].
    by apply undisturbed_respond. }
  destruct (decodeURIComponent rt _) as [fileName|]; [|by apply Hresp].
  destruct (is_empty fileName); [by apply Hresp|].
  destruct (ensureDir _ (fs w0)) as [fs1|]; [|by apply Hresp].
  assert (∀ f, undisturbed rid l x (with_fs f w0)) as Hfs.
  { intros f. eapply undisturbed_then; [|exact H0]. by apply undisturbed_same. }
  destruct (ensureDir _ fs1) as [fs2|]; [|by apply Hresp].
  match goal with |- context [if ?b then createSession rt ?a1 ?a2 ?a3 ?a4 ?w2
                               else Some ?w2] =>
    assert (∀ w3, (if b then createSession rt a1 a2 a3 a4 w2 else Some w2)
                  = Some w3 → undisturbed rid l x w3) as Hcs;
    [|destruct (if b then createSession rt a1 a2 a3 a4 w2 else Some w2)
        as [w3|] eqn:E3; [|by apply Hresp]]
  end.
  { intros w3. destruct (strict_eq _ _).
    - intros E. eapply undisturbed_then; [|apply Hfs].
      by eapply undisturbed_createSession.
    - by intros [= <-]. }
  pose proof (Hcs _ eq_refl) as H3.
  destruct (tracker_get _ w3) as [[l' upload]|].
  - case_bool_decide; [by apply Hresp|].
    eapply undisturbed_then; [|exact H3]. by apply undisturbed_listen, lookup_insert_ne.
  - destruct (strict_eq _ _); [|by apply Hresp].
    destruct (createSession rt _ _ _ _ w3) as [w4|] eqn:E4; [|by apply Hresp].
    apply Hresp. eapply undisturbed_then; [|exact H3].
    by eapply undisturbed_createSession.
Qed.

Lemma undisturbed_onData (rid' : nat) (chunk : bytes) (x : world) :
  rid' ≠ rid → undisturbed rid l x (onData rid' chunk x).
Proof.
  intros Hne. unfold onData.
  destruct (inflight x !! rid') as [p|]; [|apply undisturbed_refl].
  destruct (p_awaiting p); [apply undisturbed_refl|].
  by apply undisturbed_listen, lookup_insert_ne.
Qed.

Lemma undisturbed_onError (rid' : nat) (x : world) :
  rid' ≠ rid → undisturbed rid l x (onError rid' x).
Proof.
  intros Hne. unfold onError.
  destruct (inflight x !! rid') as [p|]; [|apply undisturbed_refl].
  destruct (p_awaiting p); [apply undisturbed_refl|].
  by apply undisturbed_respond.
Qed.

Lemma undisturbed_onEnd (rid' : nat) (x : world) :
  rid' ≠ rid → undisturbed rid l x (onEnd rid' x).
Proof.
  intros Hne. unfold onEnd.
  destruct (inflight x !! rid') as [p|]; [|apply undisturbed_refl].
  destruct (p_awaiting p); [apply undisturbed_refl|].
  destruct (heap x !! p_upload p) as [u|] eqn:Hu;
    [|by apply undisturbed_respond].
  destruct (ws_write _ _ _) as [[[c s] fs']|] eqn:Hw;
    [|by apply undisturbed_same].
  assert (ws_onDrain s = ws_onDrain (writeStream u) ∧
          (ws_needDrain (writeStream u) = true → ws_needDrain s = true))
    as [Hd Hn].
  { unfold ws_write in Hw. destruct (ws_ended _); [done|].
    injection Hw as <- <- <-. split; [done|]. simpl. by intros ->. }
  cbn zeta. destruct c.
  - eapply undisturbed_then; [by apply undisturbed_finishChunk|].
    eapply undisturbed_then; [|by apply (undisturbed_same x (with_fs fs' x))].
    apply (undisturbed_set _ u); [done| |done]. simpl. by rewrite Hd.
  - eapply undisturbed_then; [by apply undisturbed_listen, lookup_insert_ne|].
    eapply undisturbed_then; [|by apply (undisturbed_same x (with_fs fs' x))].
    apply (undisturbed_set _ u); [done| |done]. simpl.
    rewrite Hd, elem_of_app. by left.
Qed.

Lemma undisturbed_resume (rid' : nat) (x : world) :
  rid' ≠ rid → undisturbed rid l x (resume x rid').
Proof.
  intros Hne. unfold resume.
  destruct (inflight x !! rid') as [p|]; [|apply undisturbed_refl].
  destruct (p_awaiting p); [|apply undisturbed_refl].
  by apply undisturbed_finishChunk.
Qed.

Lemma undisturbed_foldl_resume (rids : list nat) (x : world) :
  rid ∉ rids → undisturbed rid l x (foldl resume x rids).
Proof.
  revert x. induction rids as [|rid' rids IH]; intros x Hnin; simpl.
  { apply undisturbed_refl. }
  apply not_elem_of_cons in Hnin as [Hne Hnin].
  eapply undisturbed_then; [by apply IH|]. by apply undisturbed_resume.
Qed.

(** The stream of another session object flushes, or this one after
    [end()]. *)
Lemma undisturbed_onFlushed (l' : nat) (x : world) :
  (∀ u, heap x !! l' = Some u →
        (l' ≠ l ∧ rid ∉ ws_onDrain (writeStream u)) ∨
        ws_ended (writeStream u) = true) →
  undisturbed rid l x (onFlushed l' x).
Proof.
  intros H. unfold onFlushed.
  destruct (heap x !! l') as [u|] eqn:Hu; [|apply undisturbed_refl].
  destruct (negb _ && _) eqn:Hb.
  - destruct (H u eq_refl) as [[Hne Hnin]|He].
    + eapply undisturbed_then; [by apply undisturbed_foldl_resume|].
      by apply undisturbed_set_other.
    + by rewrite He in Hb.
  - by apply (undisturbed_set _ u).
Qed.

Lemma undisturbed_timeoutCallback (f : string) (x : world) :
  undisturbed rid l x (timeoutCallback f x).
Proof.
  rewrite timeoutCallback_unfold. destruct (tracker_get f x) as [[l' u]|].
  - eapply undisturbed_then; [apply undisturbed_end_stream|].
    by apply undisturbed_same.
  - by apply undisturbed_same.
Qed.

Lemma undisturbed_onTimer (h : nat) (x : world) :
  undisturbed rid l x (onTimer h x).
Proof.
  unfold onTimer. destruct (timers x !! h) as [tm|]; [|apply undisturbed_refl].
  case_bool_decide; [|apply undisturbed_refl].
  eapply undisturbed_then; [apply undisturbed_timeoutCallback|].
  by apply undisturbed_same.
Qed.

Lemma undisturbed_sweep_one (x : world) (e : string * nat) :
  undisturbed rid l x (sweep_one x e).
Proof.
  unfold sweep_one. destruct (heap x !! e.2) as [u|]; [|apply undisturbed_refl].
  case_bool_decide; [|apply undisturbed_refl].
  eapply undisturbed_then; [by apply undisturbed_same|].
  eapply undisturbed_then; [by apply undisturbed_same|].
  apply undisturbed_end_stream.
Qed.

Lemma undisturbed_sweep (x : world) : undisturbed rid l x (sweep x).
Proof.
  unfold sweep. generalize (map_to_list (uploadTracker x)). intros es.
  revert x. induction es as [|e es IH]; intros x; simpl.
  { apply undisturbed_refl. }
  eapply undisturbed_then; [apply IH|]. apply undisturbed_sweep_one.
Qed.

Lemma undisturbed_processNextChunk (fuel : nat) (dir : path) (total : jsnum)
      (out : path) (i : Z) (pos : nat) (x : world) :
  undisturbed rid l x
    (settled_world (processNextChunk fuel dir total out i pos x)).
Proof.
  revert i pos x. induction fuel as [|fuel IH]; intros i pos x;
    cbn [processNextChunk]; [apply undisturbed_refl|].
  destruct (js_ge (Some i) total); simpl.
  { by apply undisturbed_emit. }
  destruct (readFile _ _) as [d|]; simpl; [|apply undisturbed_refl].
  eapply undisturbed_then; [apply IH|].
  eapply undisturbed_then; [by apply undisturbed_emit|].
  by apply undisturbed_same.
Qed.

Lemma undisturbed_combineChunksHandler (rt : runtime) (req : request)
      (x : world) :
  rid < nreq x → undisturbed rid l x (combineChunksHandler rt req x).
Proof.
  intros Hlt. assert (nreq x ≠ rid) as Hne by lia. unfold combineChunksHandler.
  assert (undisturbed rid l x (with_nreq (S (nreq x)) x)) as H0
    by by apply undisturbed_same.
  set (w0 := with_nreq (S (nreq x)) x) in *.
  assert (∀ y st r, undisturbed rid l x y →
            undisturbed rid l x (respond (nreq x) st r y)) as Hresp.
  { intros y st r Hy. eapply undisturbed_then; [|exact Hy].
    by apply undisturbed_respond. }
  assert (∀ f, undisturbed rid l x (with_fs f w0)) as Hfs.
  { intros f. eapply undisturbed_then; [|exact H0]. by apply undisturbed_same. }
  destruct (_ || _); [by apply Hresp|].
  destruct (negb _); [by apply Hresp|].
  destruct (verifyChunks _ _ _); [by apply Hresp|].
  destruct (ensureDir _ _) as [fs1|].
  2:{ eapply undisturbed_then; [|exact H0]. by apply undisturbed_same. }
  destruct (openW _ _) as [fs2|].
  2:{ destruct (js_ge _ _); [|by apply Hresp].
      eapply undisturbed_then; [by apply undisturbed_same|].
      apply Hresp. eapply undisturbed_then; [by apply undisturbed_emit|].
      eapply undisturbed_then; [by apply undisturbed_same|].
      eapply undisturbed_then; [by apply undisturbed_emit|apply Hfs]. }
  unfold combineChunks.
  match goal with |- context [processNextChunk ?a ?b ?c ?d ?e ?f ?g] =>
    pose proof (undisturbed_processNextChunk a b c d e f g) as Hp;
    assert (undisturbed rid l x g) as Hg
      by (eapply undisturbed_then; [by apply undisturbed_emit|apply Hfs]);
    destruct (processNextChunk a b c d e f g) as [w1|w1|w1]
  end; simpl in Hp.
  - apply Hresp. eapply undisturbed_then; [by apply undisturbed_emit|].
    eapply undisturbed_then; [by apply undisturbed_same|].
    eapply undisturbed_then; [exact Hp|exact Hg].
  - apply Hresp. eapply undisturbed_then; [exact Hp|exact Hg].
  - eapply undisturbed_then; [exact Hp|exact Hg].
Qed.

End Undisturbed.

Lemma undisturbed_waiting (rid : nat) (p : pending) (w w' : world) :
  waiting rid p w → undisturbed rid (p_upload p) w w' → waiting rid p w'.
Proof.
  intros (Hp & Ha & (u & Hu & Hd & Hn) & Hl) (I & L & H).
  split; [by rewrite I|]. split; [done|]. split.
  - destruct (H u Hu) as (u' & Hu' & Hd' & Hn'). exists u'.
    split; [done|]. split; eauto.
  - intros st r Hr. by eapply Hl, L.
Qed.

(** What the part of the ['end'] listener after the wait does: the chunk
    is marked and the request is answered. *)
Lemma finishChunk_answers (rid : nat) (p : pending) (w : world) :
  is_Some (heap w !! p_upload p) →
  (∃ st r, Response rid st r ∈ log (finishChunk rid p w)) ∧
  ∃ u, heap (finishChunk rid p w) !! p_upload p = Some u ∧
       p_chunkIndex p ∈ receivedChunks u.
Proof.
  intros [u Hu]. unfold finishChunk. rewrite Hu. cbn zeta.
  destruct (strict_eq _ _).
  - split.
    { eexists _, _. simpl. rewrite elem_of_app, list_elem_of_singleton.
      by right. }
    simpl. rewrite lookup_alter_eq, lookup_insert_eq. simpl.
    eexists. split; [done|]. simpl. set_solver.
  - split.
    { eexists _, _. simpl. rewrite elem_of_app, list_elem_of_singleton.
      by right. }
    simpl. rewrite lookup_insert_eq. eexists. split; [done|]. simpl.
    set_solver.
Qed.

(** A listener that runs later keeps the responses and the chunks
    marked. *)
Lemma resume_keeps (w : world) (rid' : nat) :
  (∀ o, o ∈ log w → o ∈ log (resume w rid')) ∧
  ∀ l u, heap w !! l = Some u →
    ∃ u', heap (resume w rid') !! l = Some u' ∧
          receivedChunks u ⊆ receivedChunks u'.
Proof.
  unfold resume. destruct (inflight w !! rid') as [p|]; [|by eauto].
  destruct (p_awaiting p); [|by eauto]. unfold finishChunk.
  destruct (heap w !! p_upload p) as [u0|] eqn:H0.
  2:{ split; [|by eauto]. intros o Ho. simpl. rewrite elem_of_app. by left. }
  cbn zeta. destruct (strict_eq _ _).
  - split.
    { intros o Ho. simpl. rewrite elem_of_app. by left. }
    intros l u Hu. simpl. destruct (decide (p_upload p = l)) as [<-|E].
    + rewrite lookup_alter_eq, lookup_insert_eq. simpl.
      rewrite H0 in Hu. injection Hu as <-.
      eexists. split; [done|]. simpl. set_solver.
    + rewrite lookup_alter_ne, lookup_insert_ne by done. by eauto.
  - split.
    { intros o Ho. simpl. rewrite elem_of_app. by left. }
    intros l u Hu. simpl. rewrite lookup_insert. case_decide as E.
    + subst l. rewrite H0 in Hu. injection Hu as <-.
      eexists. split; [done|]. simpl. set_solver.
    + by eauto.
Qed.

Lemma foldl_resume_keeps (rids : list nat) (w : world) :
  (∀ o, o ∈ log w → o ∈ log (foldl resume w rids)) ∧
  ∀ l u, heap w !! l = Some u →
    ∃ u', heap (foldl resume w rids) !! l = Some u' ∧
          receivedChunks u ⊆ receivedChunks u'.
Proof.
  revert w. induction rids as [|rid' rids IH]; intros w; simpl; [by eauto|].
  destruct (resume_keeps w rid') as [L1 H1].
  destruct (IH (resume w rid')) as [L2 H2]. split; [by eauto|].
  intros l u Hu. destruct (H1 l u Hu) as (u1 & Hu1 & S1).
  destruct (H2 l u1 Hu1) as (u2 & Hu2 & S2). exists u2. split; [done|].
  by etrans.
Qed.

(** The ['drain'] listeners run: a waiting request among them is answered
    and its chunk marked. *)
Lemma foldl_resume_answers (rid : nat) (p : pending) (rids : list nat)
      (w : world) :
  rid ∈ rids → inflight w !! rid = Some p → p_awaiting p = true →
  is_Some (heap w !! p_upload p) →
  (∃ st r, Response rid st r ∈ log (foldl resume w rids)) ∧
  ∃ u, heap (foldl resume w rids) !! p_upload p = Some u ∧
       p_chunkIndex p ∈ receivedChunks u.
Proof.
  revert w. induction rids as [|rid' rids IH]; intros w Hin Hp Ha Hu.
  { by apply elem_of_nil in Hin. }
  simpl. destruct (decide (rid' = rid)) as [->|Hne].
  - assert (resume w rid = finishChunk rid p w) as ->
      by (unfold resume; by rewrite Hp, Ha).
    destruct (finishChunk_answers rid p w Hu) as [(st & r & Hr) (u & Hu' & Hi)].
    destruct (foldl_resume_keeps rids (finishChunk rid p w)) as [L H].
    split; [by eauto|]. destruct (H _ _ Hu') as (u' & ? & Hs).
    exists u'. split; [done|]. by apply Hs.
  - apply elem_of_cons in Hin as [?|Hin]; [congruence|].
    destruct (undisturbed_resume rid (p_upload p) rid' w Hne) as (I & _ & H).
    apply IH; [done|by rewrite I|done|].
    destruct Hu as [u Hu]. destruct (H u Hu) as (u' & ? & _). by eauto.
Qed.

Section Drain.

Variable rt : runtime.

(** An event other than the ['drain'] event of its stream leaves a
    waiting request waiting. *)
Lemma step_waiting (rid : nat) (p : pending) (w : world) (e : event) :
  world_ok w → waiting rid p w →
  (e = EvFlushed (p_upload p) →
   ∀ u, heap w !! p_upload p = Some u → ws_ended (writeStream u) = true) →
  waiting rid p (step rt w e).
Proof.
  intros H Hw He. apply (undisturbed_waiting rid p w); [done|].
  destruct Hw as (Hp & Ha & (u & Hu & Hd & Hn) & Hl).
  assert (rid < nreq w) as Hlt by by eapply ok_rid.
  unfold step. destruct (crashed w); [apply undisturbed_refl|].
  destruct e as [req|rid' chunk|rid'|rid'|l'|h| |dt|req].
  - by apply undisturbed_uploadChunk.
  - destruct (decide (rid' = rid)) as [->|]; [|by apply undisturbed_onData].
    unfold onData. rewrite Hp, Ha. apply undisturbed_refl.
  - destruct (decide (rid' = rid)) as [->|]; [|by apply undisturbed_onEnd].
    unfold onEnd. rewrite Hp, Ha. apply undisturbed_refl.
  - destruct (decide (rid' = rid)) as [->|]; [|by apply undisturbed_onError].
    unfold onError. rewrite Hp, Ha. apply undisturbed_refl.
  - apply undisturbed_onFlushed. intros u' Hu'.
    destruct (decide (l' = p_upload p)) as [->|Hne].
    + right. by apply He.
    + left. split; [done|]. intros Hin. destruct Hne. symmetry.
      by eapply (ok_drain_owner _ H).
  - apply undisturbed_onTimer.
  - apply undisturbed_sweep.
  - by apply undisturbed_same.
  - by apply undisturbed_combineChunksHandler.
Qed.

Lemma run_waiting (rid : nat) (p : pending) (es : list event) (w : world) :
  world_ok w → waiting rid p w → EvFlushed (p_upload p) ∉ es →
  waiting rid p (run rt w es).
Proof.
  revert w. induction es as [|e es IH]; intros w H Hw Hnin; simpl; [done|].
  apply not_elem_of_cons in Hnin as [Hne Hnin].
  apply IH; [by apply step_ok| |done]. by apply step_waiting.
Qed.

(** C8: the ['end'] listener of a request whose write saturates the
    stream ([write] returns [false]) has written the body but has
    neither marked the chunk nor answered: it waits for ['drain'].  While
    the stream has not flushed, whatever else happens, the request stays
    unanswered and waiting.  When the stream, not ended since, then emits
    ['drain'], the chunk is marked as received and the request is
    answered. *)
Theorem acknowledged_after_drain (rid : nat) (p : pending) (u : session)
        (s : wstream) (f : filesystem) (w : world) :
  let w1 := step rt w (EvEnd rid) in
  world_ok w → crashed w = false →
  inflight w !! rid = Some p → p_awaiting p = false →
  heap w !! p_upload p = Some u →
  ws_write (p_dataBuffer p) (writeStream u) (fs w) = Some (false, s, f) →
  (fs w1 = f ∧ log w1 = log w ∧
   ∃ u1, heap w1 !! p_upload p = Some u1 ∧
         receivedChunks u1 = receivedChunks u) ∧
  ∀ es, EvFlushed (p_upload p) ∉ es →
    let w2 := run rt w1 es in
    waiting rid (with_awaiting p) w2 ∧
    (crashed w2 = false →
     (∀ u2, heap w2 !! p_upload p = Some u2 →
            ws_ended (writeStream u2) = false) →
     let w3 := step rt w2 (EvFlushed (p_upload p)) in
     (∃ st r, Response rid st r ∈ log w3) ∧
     ∃ u3, heap w3 !! p_upload p = Some u3 ∧
           p_chunkIndex p ∈ receivedChunks u3).
Proof.
  intros w1 H Hc Hp Ha Hu Hw.
  assert (w1 = with_inflight (<[rid := with_awaiting p]> (inflight w))
                 (with_heap (<[p_upload p := with_stream (ws_subscribe rid s) u]>
                               (heap w)) (with_fs f w))) as E1
    by by apply step_end_wait.
  assert (world_ok w1) as H1 by by apply step_ok.
  assert (waiting rid (with_awaiting p) w1) as W1.
  { rewrite E1. split; [apply lookup_insert_eq|]. split; [done|]. split.
    - eexists. split; [apply lookup_insert_eq|]. simpl.
      split; [rewrite elem_of_app, list_elem_of_singleton; by right|].
      unfold ws_write in Hw. destruct (ws_ended _); [done|].
      injection Hw as Hr <- _. simpl. rewrite Hr. apply orb_true_r.
    - intros st r Hr. simpl in Hr. apply (ok_log _ H) in Hr as [_ Hr].
      congruence. }
  split.
  { rewrite E1. do 2 (split; [done|]). eexists.
    split; [apply lookup_insert_eq|done]. }
  intros es Hes w2.
  assert (waiting rid (with_awaiting p) w2) as W2 by by apply run_waiting.
  split; [done|]. intros Hc2 He w3.
  destruct W2 as (Hp2 & _ & (u2 & Hu2 & Hd2 & Hn2) & _). simpl in Hu2.
  unfold w3. rewrite (step_flushed_drain rt _ _ u2) by eauto.
  apply (foldl_resume_answers rid (with_awaiting p)); [done|done|done|].
  simpl. rewrite lookup_insert_eq. by eauto.
Qed.

End Drain.

(** The first chunk of an upload arrives while the stream holds one byte
    less than its high-water mark. *)
Lemma acknowledged_after_drain_witness :
  let req := chunk_request "a.bin" "0" "2" "u1" None in
  let w0 := run example_rt (boot example_fs 1000)
              [EvUploadChunk req; EvData 0 [Byte.x61]] in
  let s0 := {| ws_path := ["srv"; "a.bin"]; ws_pos := 0;
               ws_length := HIGH_WATER_MARK - 1; ws_needDrain := false;
               ws_onDrain := []; ws_ended := false;
               ws_autoClose := false; ws_closed := false |} in
  let u0 := {| finalPath := ["srv"; "a.bin"]; receivedChunks := ∅;
               writeStream := {| ws_path := ["srv"; "a.bin"]; ws_pos := 0;
                                 ws_length := 0; ws_needDrain := false;
                                 ws_onDrain := []; ws_ended := false;
                                 ws_autoClose := false; ws_closed := false |};
               totalChunks := Some 2%Z; createdAt := 1000; timeout := 0 |} in
  let w := with_heap (<[0 := with_stream s0 u0]> (heap w0)) w0 in
  let w1 := step example_rt w (EvEnd 0) in
  log w1 = [] ∧
  (∀ st r, Response 0 st r ∉ log (run example_rt w1 [EvTick 5; EvSweep])) ∧
  ∃ st r, Response 0 st r ∈ log (step example_rt w1 (EvFlushed 0)).
Proof.
  intros req w0 s0 u0 w w1.
  set (p := {| p_fileName := "a.bin"; p_chunkIndex := Some 0%Z;
               p_totalChunks := Some 2%Z; p_fileId := "u1";
               p_tempDir := ["tmp"; "file-server-chunks"; "u1"];
               p_upload := 0; p_dataBuffer := [Byte.x61];
               p_awaiting := false |}).
  set (s := {| ws_path := ["srv"; "a.bin"]; ws_pos := 1;
               ws_length := HIGH_WATER_MARK; ws_needDrain := true;
               ws_onDrain := []; ws_ended := false;
               ws_autoClose := false; ws_closed := false |}).
  assert (world_ok w) as H.
  { apply (ok_set_stream 0 u0 s0 w0); [apply run_ok, boot_ok|reflexivity|done]. }
  pose proof (acknowledged_after_drain example_rt 0 p (with_stream s0 u0) s
                (writeAt ["srv"; "a.bin"] 0 [Byte.x61] (fs w)) w H eq_refl
                eq_refl eq_refl eq_refl eq_refl) as [(_ & Hl & _) Hes].
  split; [exact Hl|]. split.
  - refine (match Hes [EvTick 5; EvSweep] _ with
            | conj (conj _ (conj _ (conj _ Hn))) _ => Hn end).
    intros [?|[?|?%elem_of_nil]%elem_of_cons]%elem_of_cons; done.
  - refine (match Hes [] _ with conj _ Hd => _ end); [by intros ?%elem_of_nil|].
    refine (match Hd eq_refl _ with conj Hr _ => Hr end).
    intros u2 Hu2. vm_compute in Hu2. by injection Hu2 as <-.
Defined.

(** ** The expiry of a session *)






















(** The clean-up loop after its entries [es]: the session object [l] of
    an expired entry is ended and unregistered, and the files are not
    touched. *)
Lemma foldl_sweep_one_expired (es : list (string * nat)) (id : string)
      (l : nat) (u : session) (w : world) :
  (∀ e, e ∈ es → e.2 = l → e.1 = id) →
  heap w !! l = Some u → timeout u = l →
  (now w - createdAt u > UPLOAD_TIMEOUT)%Z →
  ((id, l) ∈ es ∨
   (uploadTracker w !! id = None ∧ timers w !! l = None ∧
    ws_ended (writeStream u) = true)) →
  let w' := foldl sweep_one w es in
  uploadTracker w' !! id = None ∧ timers w' !! l = None ∧
  (∃ u', heap w' !! l = Some u' ∧ ws_ended (writeStream u') = true ∧
         receivedChunks u' = receivedChunks u) ∧
  fs w' = fs w.
Proof.
  revert u w. induction es as [|[f l'] es IH]; intros u w Hes Hu Ht Hage Hin.
  { destruct Hin as [Hin|(? & ? & ?)]; [by apply elem_of_nil in Hin|].
    simpl. do 2 (split; [done|]). split; [|done]. by exists u. }
  cbn [foldl].
  assert (∀ e, e ∈ es → e.2 = l → e.1 = id) as Hes'.
  { intros e He. apply Hes. by right. }
  destruct (decide (l' = l)) as [->|Hne].
  - assert (f = id) as -> by (by apply (Hes (f, l)); [left|]).
    assert (sweep_one w (id, l)
            = tracker_delete id (clearTimeout l (end_stream l w))) as ->.
    { unfold sweep_one. cbn [fst snd].
      rewrite Hu, bool_decide_true by done. by rewrite Ht. }
    set (u1 := with_stream (ws_end (writeStream u)) u).
    match goal with |- context [foldl sweep_one ?W es] =>
      destruct (IH u1 W) as (A & B & (u' & C & D & E) & F) end; try done.
    + simpl. rewrite lookup_alter_eq, Hu. reflexivity.
    + right. simpl. split; [apply lookup_delete_eq|].
      split; [apply lookup_delete_eq|done].
    + do 2 (split; [done|]). split; [|done]. by exists u'.
  - assert ((id, l) ∈ es ∨
            uploadTracker w !! id = None ∧ timers w !! l = None ∧
            ws_ended (writeStream u) = true) as Hin'.
    { destruct Hin as [Hin|?]; [|by right].
      apply elem_of_cons in Hin as [[= ? ?]|?]; [congruence|by left]. }
    assert (sweep_one w (f, l') = w ∨
            ∃ u0, sweep_one w (f, l')
                  = tracker_delete f
                      (clearTimeout (timeout u0) (end_stream l' w)))
      as [->|[u0 ->]].
    { unfold sweep_one. cbn [fst snd].
      destruct (heap w !! l') as [u0|]; [|by left].
      case_bool_decide; [right; by eexists|by left]. }
    { by apply IH. }
    match goal with |- context [foldl sweep_one ?W es] =>
      destruct (IH u W) as (A & B & C & D) end; try done.
    + simpl. by rewrite lookup_alter_ne.
    + destruct Hin' as [?|(? & ? & ?)]; [by left|]. right. simpl.
      split; [by apply lookup_delete_None; right|].
      split; [by apply lookup_delete_None; right|done].
Qed.

Section Expiry.

Variable rt : runtime.




End Expiry.



(** * More properties *)

(** ** Chunks in any order *)


Section AnyOrder.

Variable rt : runtime.




End AnyOrder.


(** ** [removeDirectory] *)

(** Nothing lies below a path that does not exist. *)
Lemma outside_absent (p : path) (fs : filesystem) :
  fs_closed fs → fs !! p = None → outside p fs = fs.
Proof.
  intros Hc Hp. apply map_eq. intros k. rewrite lookup_outside.
  case_decide as Hk; [|done]. destruct Hk as [q ->].
  destruct (fs !! (p ++ q)) as [e|] eqn:E; [|done].
  destruct q as [|x q]; [by rewrite app_nil_r, Hp in E|].
  assert (fs !! p = Some Directory) as Hd
    by (by apply (closed_ancestor fs p (x :: q))).
  congruence.
Qed.

(** X2: [removeDirectory] on a directory, or on a path that does not exist:
    it returns without throwing, the path and everything below it are
    gone and every other entry is as it was; a second call changes
    nothing. *)
Theorem removeDirectory_removes_subtree (p : path) (fs : filesystem) :
  fs_closed fs → p ≠ [] →
  fs !! p = Some Directory ∨ fs !! p = None →
  ∃ fs',
    removeDirectory p fs = (Some (), fs') ∧
    (∀ k, fs' !! k = if decide (p `prefix_of` k) then None else fs !! k) ∧
    fs_closed fs' ∧
    removeDirectory p fs' = (Some (), fs').
Proof.
  intros Hc Hne Hp. exists (outside p fs).
  assert (removeDirectory p fs = (Some (), outside p fs)) as E.
  { destruct Hp as [Hp|Hp]; [by apply removeDirectory_spec|].
    rewrite outside_absent by done. unfold removeDirectory.
    cbn [removeDirectory_rec]. unfold fs_bind, existsSyncM, existsSync.
    rewrite bool_decide_false; [done|]. rewrite Hp. by intros [? ?]. }
  split; [done|]. split; [apply lookup_outside|].
  split; [by apply outside_closed|].
  assert (outside p fs !! p = None) as Hp'.
  { rewrite lookup_outside. by rewrite decide_True. }
  unfold removeDirectory. cbn [removeDirectory_rec].
  unfold fs_bind, existsSyncM, existsSync.
  rewrite bool_decide_false; [done|]. rewrite Hp'. by intros [? ?].
Qed.

Lemma removeDirectory_removes_subtree_witness :
  let fs := {[ [] := Directory; ["t"] := Directory; ["t"; "u1"] := Directory;
               ["t"; "u1"; "chunk-0"] := File [Byte.x61];
               ["t"; "u1"; "d"] := Directory;
               ["t"; "u1"; "d"; "x"] := File [];
               ["t"; "u2"] := Directory ]} : filesystem in
  ∃ fs',
    removeDirectory ["t"; "u1"] fs = (Some (), fs') ∧
    fs' !! ["t"; "u1"] = None ∧ fs' !! ["t"; "u1"; "d"; "x"] = None ∧
    fs' !! ["t"; "u2"] = Some Directory.
Proof.
  intros fs.
  destruct (removeDirectory_removes_subtree ["t"; "u1"] fs)
    as (fs' & E & Hk & _); [by_compute|done|by left|].
  exists fs'. split; [exact E|]. rewrite !Hk. repeat split; reflexivity.
Defined.

(** ** Requests that are turned down *)

Section Rejections.

Variable rt : runtime.

(** The listeners of a request that has been answered, or never had any,
    do nothing. *)
Lemma run_body_ignored (rid : nat) (chunks : list bytes) (w : world) :
  inflight w !! rid = None →
  run rt w ((EvData rid <$> chunks) ++ [EvEnd rid]) = w.
Proof.
  intros Hr. induction chunks as [|c chunks IH]; simpl.
  - unfold step, onEnd. rewrite Hr. by destruct (crashed w).
  - assert (step rt w (EvData rid c) = w) as ->; [|exact IH].
    unfold step, onData. rewrite Hr. by destruct (crashed w).
Qed.

(** X3: a chunk request whose file name header is missing or empty is
    answered 400 ["Missing file name"], and one whose file name cannot be
    decoded is answered 500, before anything is looked at: no directory
    is created, no session is created or changed, and the body that
    follows is dropped. *)
Theorem chunk_without_file_name_rejected (req : request)
        (chunks : list bytes) (w : world) (st : nat) (r : reply) :
  let name := decodeURIComponent rt (or_default (x_file_name req) "") in
  let rid := nreq w in
  let w' := run rt w (EvUploadChunk req ::
                        (EvData rid <$> chunks) ++ [EvEnd rid]) in
  crashed w = false →
  (name = Some "" ∧ st = 400 ∧ r = MissingFileName) ∨
  (name = None ∧ st = 500 ∧ r = ServerError) →
  log w' = log w ++ [Response rid st r] ∧
  fs w' = fs w ∧ heap w' = heap w ∧ uploadTracker w' = uploadTracker w ∧
  timers w' = timers w ∧ inflight w' !! rid = None.
Proof.
  intros name rid w' Hc Hr. unfold w'. cbn [run foldl].
  assert (step rt w (EvUploadChunk req)
          = respond rid st r (with_nreq (S rid) w)) as ->.
  { unfold step, uploadChunk. rewrite Hc. fold name.
    by destruct Hr as [(-> & -> & ->)|(-> & -> & ->)]. }
  change (foldl (step rt) ?W ?es) with (run rt W es).
  rewrite run_body_ignored by apply lookup_delete_eq.
  do 5 (split; [done|]). apply lookup_delete_eq.
Qed.

(** The ['data'] listener only collects the body. *)
Lemma run_data (rid : nat) (p : pending) (chunks : list bytes) (w : world) :
  crashed w = false → inflight w !! rid = Some p → p_awaiting p = false →
  run rt w (EvData rid <$> chunks)
  = with_inflight
      (<[rid := with_dataBuffer (p_dataBuffer p ++ concat chunks) p]>
         (inflight w)) w.
Proof.
  revert p w. induction chunks as [|c chunks IH]; intros p w Hc Hp Ha; simpl.
  - rewrite app_nil_r.
    replace (with_dataBuffer (p_dataBuffer p) p) with p by (by destruct p).
    rewrite insert_id by done. clear. destruct w. reflexivity.
  - rewrite (step_data rt rid p) by done.
    change (foldl (step rt) ?W ?es) with (run rt W es).
    rewrite (IH (with_dataBuffer (p_dataBuffer p ++ c) p));
      [|done|apply lookup_insert_eq|done].
    unfold with_inflight; simpl. rewrite insert_insert_eq.
    by rewrite <- app_assoc.
Qed.

(** X4: a request whose body fails with an ['error'] event before it ends is
    answered 500 ["Error uploading chunk"]; what was received of the body
    is dropped: nothing is written, the chunk is not marked, and the
    session, its stream and its timer are as they were. *)
Theorem request_error_drops_body (rid : nat) (p : pending)
        (chunks : list bytes) (w : world) :
  let w' := run rt w ((EvData rid <$> chunks) ++ [EvError rid]) in
  crashed w = false → inflight w !! rid = Some p → p_awaiting p = false →
  log w' = log w ++ [Response rid 500 ChunkUploadError] ∧
  fs w' = fs w ∧ heap w' = heap w ∧ uploadTracker w' = uploadTracker w ∧
  timers w' = timers w ∧ inflight w' = delete rid (inflight w) ∧
  ∀ more, run rt w' ((EvData rid <$> more) ++ [EvEnd rid]) = w'.
Proof.
  intros w' Hc Hp Ha. unfold w', run. rewrite foldl_app.
  change (foldl (step rt) w (EvData rid <$> chunks))
    with (run rt w (EvData rid <$> chunks)).
  rewrite (run_data rid p) by done. cbn [foldl].
  set (W := with_inflight _ w).
  assert (step rt W (EvError rid) = respond rid 500 ChunkUploadError W) as ->.
  { unfold step, onError, W. cbn [crashed with_inflight inflight].
    rewrite Hc, lookup_insert_eq. cbn [p_awaiting with_dataBuffer].
    by rewrite Ha. }
  do 5 (split; [done|]). split.
  { simpl. by rewrite delete_insert_eq. }
  intros more. apply run_body_ignored. simpl. apply lookup_delete_eq.
Qed.

(** X5: a request for the assembly without file name, without identifier or
    with a total of 0 (the value of a missing header) is answered 400
    ["Missing file information"]; one that has the three, with an
    identifier that is one path component, and whose staging directory
    does not exist is answered 404.  Neither touches the file system or
    the sessions. *)
Theorem assembly_request_rejected (req : request) (w : world) :
  let fileName := or_default (x_file_name req) "" in
  let fileId := or_default (x_file_id req) "" in
  let total := parseInt (or_default (x_total_chunks req) "0") in
  let w' := step rt w (EvCombineChunks req) in
  let untouched :=
    fs w' = fs w ∧ heap w' = heap w ∧ uploadTracker w' = uploadTracker w ∧
    timers w' = timers w in
  crashed w = false →
  (fileName = "" ∨ fileId = "" ∨ total = Some 0%Z →
   log w' = log w ++ [Response (nreq w) 400 MissingFileInformation] ∧
   untouched) ∧
  (fileName ≠ "" → is_component fileId → total ≠ Some 0%Z →
   fs w !! tempDirOf rt fileId = None →
   log w' = log w ++ [Response (nreq w) 404 StagingNotFound] ∧ untouched).
Proof.
  intros fileName fileId total w' untouched Hc. unfold untouched, w', step.
  rewrite Hc. unfold combineChunksHandler. fold fileName fileId total.
  assert (total = Some 0%Z ↔ strict_eq total (Some 0%Z) = true) as Ht.
  { destruct total as [t|]; simpl; [|done]. rewrite bool_decide_eq_true.
    split; [by intros [= ->]|by intros ->]. }
  assert (fileName = "" ∨ fileId = "" ∨ total = Some 0%Z ↔
          is_empty fileName || is_empty fileId || strict_eq total (Some 0%Z)
          = true) as Hb.
  { rewrite !orb_true_iff, <- Ht.
    assert (∀ s, s = "" ↔ is_empty s = true) as Hs by (by intros []).
    rewrite <- !Hs. tauto. }
  destruct (is_empty fileName || is_empty fileId ||
            strict_eq total (Some 0%Z)).
  - split; [done|]. intros H1 [(_ & H2 & _) _] H3 _.
    assert (fileName = "" ∨ fileId = "" ∨ total = Some 0%Z) as [?|[?|?]]
      by (by apply Hb); done.
  - assert (¬ (fileName = "" ∨ fileId = "" ∨ total = Some 0%Z)) as Hn
      by (by intros ?%Hb).
    split; [done|]. cbn [with_nreq fs]. unfold existsSync.
    intros _ _ _ He. rewrite He, bool_decide_false by (by intros [? ?]).
    done.
Qed.

(** X6: a request for the assembly with a negative total, a file name and
    an identifier that are each one path component, a staging directory
    that exists and an output outside it that can be opened: no chunk is
    looked for and none is read; the output is created empty, the
    staging directory is removed with all it holds, and the answer is
    200. *)
Theorem negative_total_assembles_nothing (req : request) (w : world) (T : Z)
        (fs1 fs2 : filesystem) :
  let fileName := or_default (x_file_name req) "" in
  let fileId := or_default (x_file_id req) "" in
  let tempDir := tempDirOf rt fileId in
  let finalPath := path_join (outputDirOf rt (query_path req)) fileName in
  let w' := step rt w (EvCombineChunks req) in
  crashed w = false → fs_closed (fs w) →
  is_component fileName → is_component fileId →
  parseInt (or_default (x_total_chunks req) "0") = Some T → (T < 0)%Z →
  fs w !! tempDir = Some Directory →
  ¬ tempDir `prefix_of` finalPath →
  ensureDir (outputDirOf rt (query_path req)) (fs w) = Some fs1 →
  openW finalPath fs1 = Some fs2 →
  log w' = log w ++ [IoOpen finalPath; IoEnd finalPath;
                     IoRemoveDirectory tempDir;
                     Response (nreq w) 200 (Assembled finalPath)] ∧
  (∀ k, fs w' !! k = if decide (tempDir `prefix_of` k) then None
                     else fs2 !! k) ∧
  fs w' !! finalPath = Some (File []).
Proof.
  intros fileName fileId tempDir finalPath w' Hc Hcl [(_ & Hn & _) _]
    [(_ & Hid & _) _] Ht HT Htmp Hout H1 H2.
  apply is_empty_false in Hn, Hid.
  pose proof H1 as H1'. apply ensureDir_spec in H1' as (Hcl1 & Ha1 & _); [|done].
  pose proof H2 as H2'. apply openW_spec in H2' as (E2 & Hcl2 & Hnd); [|done].
  assert (fs1 !! tempDir = Some Directory) as Htmp1
    by by eapply adds_dirs_Some.
  assert (finalPath ≠ tempDir) as Hne by (intros E; apply Hnd; by rewrite E).
  assert (fs2 !! tempDir = Some Directory) as Htmp2
    by (rewrite E2; by rewrite lookup_insert_ne).
  assert (step rt w (EvCombineChunks req) =
          respond (nreq w) 200 (Assembled finalPath)
            (emit (IoRemoveDirectory tempDir)
               (with_fs (outside tempDir fs2)
                  (emit (IoEnd finalPath)
                     (emit (IoOpen finalPath)
                        (with_fs fs2 (with_nreq (S (nreq w)) w))))))) as Hstep.
  { unfold step. rewrite Hc. unfold combineChunksHandler.
    fold fileName fileId. rewrite Hn, Hid, Ht. cbn [orb].
    replace (strict_eq (Some T) (Some 0%Z)) with false
      by (symmetry; apply bool_decide_eq_false; intros [=]; lia).
    cbn [with_nreq fs]. fold tempDir. unfold existsSync at 1.
    rewrite bool_decide_true by by rewrite Htmp. cbn [negb].
    unfold verifyChunks. replace (Z.to_nat T) with 0 by lia.
    cbn [firstMissing]. rewrite H1. fold finalPath. rewrite H2.
    unfold combineChunks. replace (Z.to_nat T) with 0 by lia.
    rewrite processNextChunk_S, js_ge_int, bool_decide_true by lia.
    cbn [emit with_fs fs]. by rewrite removeDirectory_spec. }
  unfold w'. rewrite Hstep. split.
  { simpl. rewrite <- !app_assoc. reflexivity. }
  split.
  { intros k. simpl. apply lookup_outside. }
  simpl. rewrite lookup_outside, decide_False by done.
  rewrite E2. apply lookup_insert_eq.
Qed.

End Rejections.

Lemma chunk_without_file_name_rejected_witness :
  let req := {| x_file_name := None; x_chunk_index := Some "0";
                x_total_chunks := Some "1"; x_file_id := Some "u1";
                query_path := None |} in
  let w := boot example_fs 1000 in
  let w' := run example_rt w [EvUploadChunk req; EvData 0 [Byte.x61];
                              EvEnd 0] in
  log w' = [Response 0 400 MissingFileName] ∧ fs w' = example_fs.
Proof.
  intros req w w'.
  destruct (chunk_without_file_name_rejected example_rt req [[Byte.x61]] w
              400 MissingFileName eq_refl) as (Hl & Hf & _).
  { left. by repeat split. }
  split; [exact Hl|exact Hf].
Defined.

Lemma request_error_drops_body_witness :
  let w := run example_rt (boot example_fs 1000)
             [EvUploadChunk (chunk_request "a.bin" "0" "2" "u1" None)] in
  let w' := run example_rt w [EvData 0 [Byte.x61]; EvError 0] in
  log w' = [Response 0 500 ChunkUploadError] ∧
  fs w' !! ["srv"; "a.bin"] = Some (File []) ∧
  is_Some (uploadTracker w' !! "u1").
Proof.
  intros w w'.
  pose proof (request_error_drops_body example_rt 0
                {| p_fileName := "a.bin"; p_chunkIndex := Some 0%Z;
                   p_totalChunks := Some 2%Z; p_fileId := "u1";
                   p_tempDir := ["tmp"; "file-server-chunks"; "u1"];
                   p_upload := 0; p_dataBuffer := []; p_awaiting := false |}
                [[Byte.x61]] w eq_refl eq_refl eq_refl)
    as (Hl & Hf & _ & Ht & _).
  split; [exact Hl|]. split.
  - transitivity (fs w !! ["srv"; "a.bin"]); [|reflexivity].
    exact (f_equal (λ f : filesystem, f !! ["srv"; "a.bin"]) Hf).
  - assert (uploadTracker w' !! "u1" = uploadTracker w !! "u1") as ->
      by exact (f_equal (λ t : gmap string nat, t !! "u1") Ht).
    by_compute.
Defined.

Lemma assembly_request_rejected_witness :
  let w := boot example_fs 1000 in
  log (step example_rt w
         (EvCombineChunks (chunk_request "a.bin" "0" "0" "u1" None)))
  = [Response 0 400 MissingFileInformation] ∧
  log (step example_rt w
         (EvCombineChunks (chunk_request "a.bin" "0" "3" "u1" None)))
  = [Response 0 404 StagingNotFound].
Proof.
  intros w. split.
  - destruct (assembly_request_rejected example_rt
                (chunk_request "a.bin" "0" "0" "u1" None) w eq_refl)
      as (H & _). apply H. right. by right.
  - destruct (assembly_request_rejected example_rt
                (chunk_request "a.bin" "0" "3" "u1" None) w eq_refl)
      as (_ & H).
    apply (H ltac:(done) ltac:(by_compute) ltac:(done) eq_refl).
Defined.

Lemma negative_total_assembles_nothing_witness :
  let f : filesystem :=
    {[ [] := Directory; ["srv"] := Directory; ["tmp"] := Directory;
       ["tmp"; "file-server-chunks"] := Directory;
       ["tmp"; "file-server-chunks"; "u1"] := Directory;
       ["tmp"; "file-server-chunks"; "u1"; "chunk-0"] := File [Byte.x61] ]} in
  let w' := step example_rt (boot f 1000)
              (EvCombineChunks (chunk_request "a.bin" "0" "-1" "u1" None)) in
  fs w' !! ["srv"; "a.bin"] = Some (File []) ∧
  fs w' !! ["tmp"; "file-server-chunks"; "u1"; "chunk-0"] = None ∧
  last (log w') = Some (Response 0 200 (Assembled ["srv"; "a.bin"])).
Proof.
  intros f w'.
  pose proof (negative_total_assembles_nothing example_rt
                (chunk_request "a.bin" "0" "-1" "u1" None) (boot f 1000) (-1)
                f (<[ ["srv"; "a.bin"] := File [] ]> f) eq_refl
                ltac:(by_compute) ltac:(by_compute) ltac:(by_compute) eq_refl
                ltac:(lia) eq_refl ltac:(by_compute) eq_refl eq_refl)
    as (Hl & Hk & Hf).
  split; [exact Hf|]. split.
  - etrans; [apply Hk|]. reflexivity.
  - etrans; [exact (f_equal last Hl)|]. reflexivity.
Defined.

(** ** An assembly without a known total *)

Lemma chunkPathOf_inj (dir : path) (i j : Z) :
  chunkPathOf dir i = chunkPathOf dir j → i = j.
Proof.
  unfold chunkPathOf, path_join. intros E%app_inv_head.
  injection E as E. by apply pretty_Z_inj in E.
Qed.

(** The chunk files of the indices below [n] are [n] entries. *)
Lemma chunk_files_count (dir : path) (n : nat) (f : filesystem) :
  (∀ j, (0 ≤ j < Z.of_nat n)%Z → is_Some (f !! chunkPathOf dir j)) →
  (n ≤ size f)%nat.
Proof.
  intros H.
  set (ks := (λ k, chunkPathOf dir (Z.of_nat k)) <$> seq 0 n).
  assert (NoDup ks) as Hnd.
  { apply NoDup_fmap_2; [|apply NoDup_seq].
    intros a b E%chunkPathOf_inj. lia. }
  assert (list_to_set ks ⊆ dom f) as Hsub.
  { intros k [a [-> Ha%elem_of_seq]]%elem_of_list_to_set%list_elem_of_fmap.
    apply elem_of_dom, H. lia. }
  apply subseteq_size in Hsub.
  rewrite size_list_to_set, size_dom in Hsub by done.
  unfold ks in Hsub. by rewrite length_fmap, length_seq in Hsub.
Qed.

(** [mkdirSync] with [recursive] creates nothing but the directories on
    the way to its target. *)
Lemma mkdir_from_only_prefixes (rest : list string) (pre : path)
      (f f' : filesystem) (k : path) :
  mkdir_from pre rest f = Some f' →
  f' !! k = f !! k ∨ k `prefix_of` pre ++ rest.
Proof.
  revert pre f. induction rest as [|n rest IH]; intros pre f; simpl.
  - rewrite app_nil_r. destruct (f !! pre) as [[|]|] eqn:E; [done|..];
      intros [= <-]; [by left|].
    rewrite lookup_insert. case_decide; [subst; by right|by left].
  - destruct (f !! pre) as [[|]|] eqn:E; [done|..]; intros Hm;
      apply IH in Hm; rewrite <- app_assoc in Hm; simpl in Hm; [done|].
    destruct Hm as [Hm|?]; [|by right]. rewrite Hm, lookup_insert.
    case_decide; [|by left]. subst. right. by exists (n :: rest).
Qed.

(** [combineChunks] when [totalChunks] is [NaN]: [currentChunk >=
    totalChunks] is never true, so chunk files are piped to the output
    until one cannot be read, and the promise is rejected. *)
Lemma processNextChunk_until_missing (n fuel : nat) (dir out : path) (i : Z)
      (pos : nat) (w : world) :
  (n < fuel)%nat →
  (∀ j, (i ≤ j < i + Z.of_nat n)%Z →
        ∃ d, fs w !! chunkPathOf dir j = Some (File d)) →
  readFile (chunkPathOf dir (i + Z.of_nat n)) (fs w) = None →
  (∀ j, chunkPathOf dir j ≠ out) →
  ∃ ds w',
    processNextChunk fuel dir None out i pos w = Rejected w' ∧
    length ds = n ∧
    log w' = log w ++
      imap (λ k d, IoPipe (chunkPathOf dir (i + Z.of_nat k)) out d) ds ∧
    nreq w' = nreq w ∧ inflight w' = inflight w ∧ heap w' = heap w ∧
    uploadTracker w' = uploadTracker w ∧ timers w' = timers w ∧
    (∀ k, k ≠ out → fs w' !! k = fs w !! k) ∧
    (∀ k d, ds !! k = Some d →
            fs w !! chunkPathOf dir (i + Z.of_nat k) = Some (File d)) ∧
    ∀ c, fs w !! out = Some (File c) → pos = length c →
         fs w' !! out = Some (File (c ++ concat ds)).
Proof.
  revert fuel i pos w. induction n as [|n IH]; intros fuel i pos w Hlt Hf Hm Hne;
    (destruct fuel as [|fuel]; [lia|]); rewrite processNextChunk_S;
    cbn [js_ge].
  - rewrite Z.add_0_r in Hm. rewrite Hm. exists [], w.
    split; [done|]. split; [done|]. split; [by rewrite app_nil_r|].
    do 6 (split; [done|]). split; [done|]. intros c Hc _.
    by rewrite app_nil_r.
  - destruct (Hf i) as [d Hd]; [lia|]. unfold readFile at 1. rewrite Hd.
    set (w1 := emit _ _).
    assert (∀ k, k ≠ out → fs w1 !! k = fs w !! k) as Hfr1.
    { intros k Hk. simpl. rewrite lookup_writeAt.
      destruct (fs w !! k) as [[dk|]|]; [|done..]. by rewrite decide_False. }
    destruct (IH fuel (i + 1)%Z (pos + length d) w1)
      as (ds & w' & Hr & Hlen & Hlog & Hn & Hi & Hh & Ht & Htm & Hfr & Hds
          & Hout); [lia| | |done|].
    { intros j Hj. rewrite Hfr1 by done. apply Hf. lia. }
    { unfold readFile. rewrite Hfr1 by done.
      replace (i + 1 + Z.of_nat n)%Z with (i + Z.of_nat (S n))%Z by lia.
      exact Hm. }
    exists (d :: ds), w'. split; [exact Hr|]. split; [simpl; lia|]. split.
    { rewrite Hlog. simpl. rewrite <- app_assoc. simpl. f_equal.
      rewrite Z.add_0_r. f_equal. apply imap_ext. intros k x _.
      simpl. do 2 f_equal. lia. }
    do 5 (split; [done|]). split.
    { intros k Hk. rewrite Hfr by done. by apply Hfr1. }
    split.
    { intros [|k] dk; simpl.
      - intros [= <-]. by rewrite Z.add_0_r.
      - intros Hk%Hds. rewrite Hfr1 in Hk by done.
        by replace (i + Z.of_nat (S k))%Z with (i + 1 + Z.of_nat k)%Z by lia. }
    intros c Hc ->. rewrite (Hout (c ++ d)).
    + simpl. by rewrite <- app_assoc.
    + simpl. rewrite lookup_writeAt, Hc. rewrite decide_True by done.
      by rewrite pwrite_end.
    + by rewrite length_app.
Qed.

Section NoTotal.

Variable rt : runtime.

(** X7: a request for the assembly whose total header is not a number,
    with a file name and an identifier that are each one path
    component, and an output outside the staging directory: the check
    for missing chunks and the end test of the copy both compare with
    [NaN] and never hold.  The output is opened, the chunk files 0,
    1, ... are copied to it up to the first index [n] that has no
    readable chunk file, and the answer is 500 ["Failed to combine
    chunks"]; the staging directory is left as it is and the output
    keeps what was copied. *)
Theorem assembly_without_total_copies_then_fails (req : request) (w : world)
        (n : nat) (fs1 fs2 : filesystem) :
  let fileName := or_default (x_file_name req) "" in
  let fileId := or_default (x_file_id req) "" in
  let tempDir := tempDirOf rt fileId in
  let finalPath := path_join (outputDirOf rt (query_path req)) fileName in
  let w' := step rt w (EvCombineChunks req) in
  crashed w = false → fs_closed (fs w) →
  is_component fileName → is_component fileId →
  parseInt (or_default (x_total_chunks req) "0") = None →
  (Z.of_nat n ≤ MAX_SAFE_INTEGER)%Z →
  is_Some (fs w !! tempDir) →
  (∀ j, (0 ≤ j < Z.of_nat n)%Z →
        ∃ d, fs w !! chunkPathOf tempDir j = Some (File d)) →
  readFile (chunkPathOf tempDir (Z.of_nat n)) (fs w) = None →
  ¬ tempDir `prefix_of` finalPath →
  ensureDir (outputDirOf rt (query_path req)) (fs w) = Some fs1 →
  openW finalPath fs1 = Some fs2 →
  ∃ ds,
    length ds = n ∧
    (∀ k d, ds !! k = Some d →
            fs w !! chunkPathOf tempDir (Z.of_nat k) = Some (File d)) ∧
    log w' = log w ++ [IoOpen finalPath] ++
      imap (λ k d, IoPipe (chunkPathOf tempDir (Z.of_nat k)) finalPath d) ds ++
      [Response (nreq w) 500 CombineFailed] ∧
    fs w' !! finalPath = Some (File (concat ds)) ∧
    ∀ k, tempDir `prefix_of` k → fs w' !! k = fs w !! k.
Proof.
  intros fileName fileId tempDir finalPath w' Hc Hcl [(_ & Hn & _) _]
    [(_ & Hid & _) _] Ht _ Htmp Hf Hm Hout H1 H2.
  apply is_empty_false in Hn, Hid.
  pose proof H1 as H1'. apply ensureDir_spec in H1' as (Hcl1 & Ha1 & _); [|done].
  pose proof H2 as H2'. apply openW_spec in H2' as (E2 & Hcl2 & Hnd); [|done].
  assert (∀ j, chunkPathOf tempDir j ≠ finalPath) as Hne.
  { intros j E. apply Hout. rewrite <- E.
    by exists ["chunk-" +:+ pretty j]. }
  assert (∀ k, tempDir `prefix_of` k → fs2 !! k = fs w !! k) as Hkeep.
  { intros k Hk. rewrite E2, lookup_insert_ne by (by intros ->).
    unfold ensureDir in H1. destruct (existsSync _ _); [congruence|].
    destruct (mkdir_from_only_prefixes _ _ _ _ k H1) as [->|Hp]; [done|].
    destruct Hout. etrans; [exact Hk|]. etrans; [exact Hp|].
    by exists [fileName]. }
  set (w0 := emit (IoOpen finalPath) (with_fs fs2 (with_nreq (S (nreq w)) w))).
  assert (n ≤ size fs2)%nat as Hsz.
  { apply (chunk_files_count tempDir). intros j Hj.
    rewrite Hkeep by (by exists ["chunk-" +:+ pretty j]).
    destruct (Hf j Hj) as [d ->]. done. }
  destruct (processNextChunk_until_missing n (S (size fs2)) tempDir finalPath
              0 0 w0)
    as (ds & w1 & Hr & Hlen & Hlog & Hnr & Hi & Hh & Htr & Htm & Hfr & Hds
        & Hfin); [lia| | |done|].
  { intros j Hj. simpl. rewrite Hkeep by (by exists ["chunk-" +:+ pretty j]).
    apply Hf. lia. }
  { unfold readFile. simpl.
    rewrite Hkeep by (by exists ["chunk-" +:+ pretty (Z.of_nat n)]).
    exact Hm. }
  assert (step rt w (EvCombineChunks req) =
          respond (nreq w) 500 CombineFailed w1) as Hstep.
  { unfold step. rewrite Hc. unfold combineChunksHandler.
    fold fileName fileId. rewrite Hn, Hid, Ht. cbn [orb strict_eq].
    cbn [with_nreq fs]. fold tempDir. unfold existsSync at 1.
    rewrite bool_decide_true by done. cbn [negb verifyChunks].
    rewrite H1. fold finalPath. rewrite H2. unfold combineChunks.
    change (fs (emit _ (with_fs fs2 _))) with fs2. fold w0. by rewrite Hr. }
  exists ds. split; [done|]. split.
  { intros k d Hk. apply Hds in Hk. simpl in Hk.
    by rewrite Hkeep in Hk by (by exists ["chunk-" +:+ pretty (Z.of_nat k)]). }
  unfold w'. rewrite Hstep. split.
  { simpl. rewrite Hlog. simpl. by rewrite <- !app_assoc. }
  split.
  { simpl. rewrite (Hfin []); [done| |done]. simpl. rewrite E2.
    apply lookup_insert_eq. }
  intros k Hk. simpl. rewrite Hfr by (by intros ->). simpl. by apply Hkeep.
Qed.

End NoTotal.

(** The chunk files 0 and 1 are stored and the total header is ["abc"]. *)
Lemma assembly_without_total_copies_then_fails_witness :
  let f : filesystem :=
    {[ [] := Directory; ["srv"] := Directory; ["tmp"] := Directory;
       ["tmp"; "file-server-chunks"] := Directory;
       ["tmp"; "file-server-chunks"; "u1"] := Directory;
       ["tmp"; "file-server-chunks"; "u1"; "chunk-0"] := File [Byte.x61];
       ["tmp"; "file-server-chunks"; "u1"; "chunk-1"] := File [Byte.x62] ]} in
  let w' := step example_rt (boot f 1000)
              (EvCombineChunks (chunk_request "a.bin" "0" "abc" "u1" None)) in
  last (log w') = Some (Response 0 500 CombineFailed) ∧
  fs w' !! ["srv"; "a.bin"] = Some (File [Byte.x61; Byte.x62]) ∧
  fs w' !! ["tmp"; "file-server-chunks"; "u1"; "chunk-0"]
  = Some (File [Byte.x61]).
Proof.
  intros f w'.
  destruct (assembly_without_total_copies_then_fails example_rt
              (chunk_request "a.bin" "0" "abc" "u1" None) (boot f 1000) 2
              f (<[ ["srv"; "a.bin"] := File [] ]> f) eq_refl
              ltac:(by_compute) ltac:(by_compute) ltac:(by_compute) eq_refl
              ltac:(by_compute) ltac:(by_compute))
    as (ds & Hlen & Hds & Hlog & Hout & Hkeep);
    [|reflexivity|by_compute|reflexivity|reflexivity|].
  { intros j Hj. assert (j = 0 ∨ j = 1)%Z as [->| ->] by lia; by eexists. }
  split; [|split].
  - unfold w'. rewrite Hlog, !app_assoc. apply last_snoc.
  - destruct ds as [|d0 [|d1 [|? ?]]]; [done..| |done].
    pose proof (Hds 0 d0 eq_refl) as H0. pose proof (Hds 1 d1 eq_refl) as H1.
    vm_compute in H0, H1. injection H0 as <-. injection H1 as <-.
    exact Hout.
  - unfold w'. rewrite Hkeep by by_compute. reflexivity.
Defined.

(** ** Timers, the hourly clean-up and shutdown *)

(** The clean-up loop touches neither the files nor the requests. *)
Lemma foldl_sweep_one_frame (es : list (string * nat)) (w : world) :
  fs (foldl sweep_one w es) = fs w ∧ log (foldl sweep_one w es) = log w ∧
  inflight (foldl sweep_one w es) = inflight w ∧
  now (foldl sweep_one w es) = now w ∧
  crashed (foldl sweep_one w es) = crashed w.
Proof.
  revert w. induction es as [|e es IH]; intros w; simpl; [done|].
  destruct (IH (sweep_one w e)) as (-> & -> & -> & -> & ->).
  unfold sweep_one. destruct (heap w !! e.2); [|done]. by case_bool_decide.
Qed.

(** The clean-up loop leaves a session that is not older than the timeout
    as it is. *)
Lemma foldl_sweep_one_spares (es : list (string * nat)) (id : string)
      (l : nat) (u : session) (w : world) :
  (∀ l' u', heap w !! l' = Some u' → timeout u' = l') →
  (∀ e, e ∈ es → e.1 = id → e.2 = l) →
  heap w !! l = Some u →
  (now w - createdAt u ≤ UPLOAD_TIMEOUT)%Z →
  uploadTracker (foldl sweep_one w es) !! id = uploadTracker w !! id ∧
  heap (foldl sweep_one w es) !! l = Some u ∧
  timers (foldl sweep_one w es) !! l = timers w !! l.
Proof.
  revert w. induction es as [|[f l'] es IH]; intros w Hto Hes Hu Hage;
    [done|]. cbn [foldl].
  assert (∀ e, e ∈ es → e.1 = id → e.2 = l) as Hes'.
  { intros e He. apply Hes. by right. }
  assert (sweep_one w (f, l') = w ∨
          ∃ u0, heap w !! l' = Some u0 ∧
                (now w - createdAt u0 > UPLOAD_TIMEOUT)%Z ∧
                sweep_one w (f, l')
                = tracker_delete f (clearTimeout l' (end_stream l' w)))
    as [->|(u0 & Hu0 & Hold & ->)]; [|by apply IH|].
  { unfold sweep_one. cbn [fst snd].
    destruct (heap w !! l') as [u0|] eqn:Hu0; [|by left].
    case_bool_decide; [|by left]. right. exists u0.
    by rewrite (Hto _ _ Hu0). }
  assert (l' ≠ l) as Hne.
  { intros ->. rewrite Hu in Hu0. injection Hu0 as <-. lia. }
  assert (f ≠ id) as Hnf.
  { intros ->. apply Hne. by apply (Hes (id, l')); [left|]. }
  match goal with |- context [foldl sweep_one ?W es] =>
    destruct (IH W) as (-> & -> & ->) end.
  - intros l0 u1. simpl. rewrite lookup_alter.
    case_decide; [|by apply Hto]. subst.
    destruct (heap w !! l0) as [u2|] eqn:E; [|done]. simpl.
    intros [= <-]. simpl. by apply Hto.
  - done.
  - simpl. by rewrite lookup_alter_ne.
  - done.
  - simpl. rewrite lookup_delete_ne by done. split; [done|]. split; [done|].
    by rewrite lookup_delete_ne.
Qed.

Section Teardown.

Variable rt : runtime.

(** X8: the callback of a timer looks the session up by the identifier it
    was armed with.  When it fires, whichever session is registered under
    that identifier at that time has its stream ended and is deleted from
    the tracker, also when it is another, younger session than the one
    the timer was armed with; the timer of that session is not cleared.
    No other identifier and no other session object is touched, no file
    is removed and no pending request is answered. *)
Theorem timer_tears_down_by_identifier (h : nat) (tm : timer) (w : world) :
  let w' := step rt w (EvTimer h) in
  crashed w = false → timers w !! h = Some tm → (tm_due tm ≤ now w)%Z →
  uploadTracker w' = delete (tm_fileId tm) (uploadTracker w) ∧
  timers w' = delete h (timers w) ∧
  (∀ l u, tracker_get (tm_fileId tm) w = Some (l, u) →
          heap w' = <[l := with_stream (ws_end (writeStream u)) u]> (heap w)) ∧
  (tracker_get (tm_fileId tm) w = None → heap w' = heap w) ∧
  fs w' = fs w ∧ log w' = log w ∧ inflight w' = inflight w.
Proof.
  intros w' Hc Ht Hdue. unfold w', step, onTimer.
  rewrite Hc, Ht, bool_decide_true by done. rewrite timeoutCallback_unfold.
  assert (tracker_get (tm_fileId tm) (clearTimeout h w)
          = tracker_get (tm_fileId tm) w) as -> by done.
  destruct (tracker_get (tm_fileId tm) w) as [[l u]|] eqn:Hg.
  - apply tracker_get_Some in Hg as [_ Hu]. rewrite end_stream_unfold.
    cbn [heap tracker_delete clearTimeout with_tracker with_timers].
    rewrite Hu. do 2 (split; [done|]). split.
    { by intros ? ? [= <- <-]. }
    by split.
  - do 2 (split; [done|]). split; [done|]. by split.
Qed.

(** X9: the hourly clean-up leaves a session whose age is at most
    [UPLOAD_TIMEOUT] registered, with its stream and its timer as they
    are, and it touches no file, answers no request. *)
Theorem sweep_spares_young_sessions (w : world) :
  let w' := step rt w EvSweep in
  world_ok w →
  fs w' = fs w ∧ log w' = log w ∧ inflight w' = inflight w ∧
  ∀ id l u,
    uploadTracker w !! id = Some l → heap w !! l = Some u →
    (now w - createdAt u ≤ UPLOAD_TIMEOUT)%Z →
    uploadTracker w' !! id = Some l ∧ heap w' !! l = Some u ∧
    timers w' !! l = timers w !! l.
Proof.
  intros w' H. unfold w', step. destruct (crashed w) eqn:Hc.
  { do 3 (split; [done|]). by intros. }
  unfold sweep.
  destruct (foldl_sweep_one_frame (map_to_list (uploadTracker w)) w)
    as (-> & -> & -> & _).
  do 3 (split; [done|]). intros id l u Hid Hu Hage.
  destruct (foldl_sweep_one_spares (map_to_list (uploadTracker w)) id l u w)
    as (-> & -> & ->); try done.
  - apply (ok_timeout _ H).
  - intros [f l'] He%elem_of_map_to_list. simpl in *. intros ->. congruence.
Qed.

End Teardown.

Lemma ws_end_twice (s : wstream) : ws_end (ws_end s) = ws_end s.
Proof.
  destruct s as [? ? n ? ? ? a c]. unfold ws_end, ws_finish. simpl.
  f_equal. by destruct c, a, (n =? 0)%N.
Qed.

(** The loop of the [SIGINT] handler over the entries [es] of the
    tracker. *)
Lemma foldl_shutdown_one (es : list (string * nat)) (w : world) :
  (∀ l u, heap w !! l = Some u → timeout u = l) →
  let w' := foldl shutdown_one w es in
  fs w' = fs w ∧ log w' = log w ∧ inflight w' = inflight w ∧
  uploadTracker w' = uploadTracker w ∧
  ∀ l,
    (l ∈ es.*2 →
     heap w' !! l
     = (λ u, with_stream (ws_end (writeStream u)) u) <$> heap w !! l ∧
     (is_Some (heap w !! l) → timers w' !! l = None)) ∧
    (l ∉ es.*2 →
     heap w' !! l = heap w !! l ∧ timers w' !! l = timers w !! l).
Proof.
  revert w. induction es as [|[f l'] es IH]; intros w Hto; cbn [foldl].
  { do 4 (split; [done|]). intros l. split; [by intros ?%elem_of_nil|done]. }
  assert (∀ l, heap (shutdown_one w (f, l')) !! l =
               (if decide (l = l')
                then (λ u, with_stream (ws_end (writeStream u)) u) <$>
                     heap w !! l
                else heap w !! l) ∧
               timers (shutdown_one w (f, l')) !! l =
               (if decide (l = l' ∧ is_Some (heap w !! l)) then None
                else timers w !! l)) as H1.
  { intros l. unfold shutdown_one. cbn [fst snd].
    destruct (heap w !! l') as [u0|] eqn:Hu0.
    - rewrite (Hto _ _ Hu0). simpl. split.
      + destruct (decide (l = l')) as [->|].
        * by rewrite lookup_alter_eq.
        * by rewrite lookup_alter_ne.
      + destruct (decide (l = l')) as [->|].
        * rewrite decide_True by (by rewrite Hu0). apply lookup_delete_eq.
        * rewrite decide_False by tauto. by apply lookup_delete_ne.
    - split.
      + case_decide; [subst; by rewrite Hu0|done].
      + rewrite decide_False; [done|]. intros [-> [? ?]]. congruence. }
  assert (fs (shutdown_one w (f, l')) = fs w ∧
          log (shutdown_one w (f, l')) = log w ∧
          inflight (shutdown_one w (f, l')) = inflight w ∧
          uploadTracker (shutdown_one w (f, l')) = uploadTracker w)
    as (E1 & E2 & E3 & E4).
  { unfold shutdown_one. by destruct (heap w !! (f, l').2). }
  destruct (IH (shutdown_one w (f, l'))) as (-> & -> & -> & -> & Hl).
  { intros l u. destruct (H1 l) as [-> _]. case_decide; [|by apply Hto].
    destruct (heap w !! l) as [u1|] eqn:E; [|done]. simpl.
    intros [= <-]. simpl. by apply Hto. }
  do 4 (split; [done|]). intros l. destruct (Hl l) as [Hin Hout].
  destruct (H1 l) as [Eh Et]. cbn [fmap list_fmap snd]. split.
  - intros Hel. destruct (decide (l ∈ es.*2)) as [Hes|Hes].
    + destruct (Hin Hes) as [Eh' Et']. rewrite Eh', Eh. split.
      * destruct (decide (l = l')); [|done].
        destruct (heap w !! l) as [u|]; [|done]. simpl.
        unfold with_stream. simpl. by rewrite ws_end_twice.
      * intros Hs. apply Et'. rewrite Eh. destruct (decide (l = l')); [|done].
        by destruct Hs as [? ->].
    + destruct (Hout Hes) as [Eh' Et']. rewrite Eh', Et', Eh, Et.
      assert (l = l') as -> by (apply elem_of_cons in Hel; tauto).
      rewrite decide_True by done. split; [done|]. intros Hs.
      by rewrite decide_True.
  - intros Hnel. apply not_elem_of_cons in Hnel as [Hne Hes].
    destruct (Hout Hes) as [-> ->]. rewrite Eh, Et.
    rewrite decide_False by done. rewrite decide_False by tauto. done.
Qed.

(** X10: the [SIGINT] handler: every session of the tracker has its stream
    ended and its timer cleared, the tracker is emptied and the process
    ends.  Session objects that are no longer in the tracker and their
    timers are not touched, no file is removed (the destination of an
    unfinished upload stays as far as it was written) and no pending
    request is answered. *)
Theorem sigint_ends_registered_sessions (rt : runtime) (w : world) :
  let w' := onSigint w in
  world_ok w →
  uploadTracker w' = ∅ ∧ fs w' = fs w ∧ log w' = log w ∧
  inflight w' = inflight w ∧
  (∀ id l u,
     uploadTracker w !! id = Some l → heap w !! l = Some u →
     heap w' !! l = Some (with_stream (ws_end (writeStream u)) u) ∧
     timers w' !! l = None) ∧
  (∀ l, (∀ id, uploadTracker w !! id ≠ Some l) →
        heap w' !! l = heap w !! l ∧ timers w' !! l = timers w !! l) ∧
  ∀ e, step rt w' e = w'.
Proof.
  intros w' H. unfold w', onSigint.
  destruct (foldl_shutdown_one (map_to_list (uploadTracker w)) w
              (ok_timeout _ H)) as (Hf & Hl & Hi & _ & Hh).
  split; [done|]. do 3 (split; [done|]).
  assert (∀ l, l ∈ (map_to_list (uploadTracker w)).*2 ↔
               ∃ id, uploadTracker w !! id = Some l) as Hin.
  { intros l. rewrite list_elem_of_fmap. split.
    - intros ([id l'] & -> & He%elem_of_map_to_list). by exists id.
    - intros [id Hid]. exists (id, l). split; [done|].
      by apply elem_of_map_to_list. }
  split; [|split].
  - intros id l u Hid Hu. destruct (Hh l) as [[E1 E2] _].
    { apply Hin. eauto. }
    simpl. rewrite E1, Hu. split; [done|]. apply E2. by rewrite Hu.
  - intros l Hno. destruct (Hh l) as [_ [E1 E2]]; [|done].
    intros [id Hid]%Hin. by apply (Hno id).
  - by intros e.
Qed.

(** The chunk 0 of an upload is sent a second time five seconds after the
    first: when the timer of the first session is due, the second
    session, younger than the timeout, is the one that is removed. *)
Lemma timer_tears_down_by_identifier_witness :
  let r0 := chunk_request "a.bin" "0" "2" "u1" None in
  let w := run example_rt (boot example_fs 1000)
             [EvUploadChunk r0; EvData 0 [Byte.x61]; EvEnd 0; EvTick 5000;
              EvUploadChunk r0; EvTick 86395000] in
  (∃ u, tracker_get "u1" w = Some (1, u) ∧
        (now w - createdAt u < UPLOAD_TIMEOUT)%Z) ∧
  uploadTracker (step example_rt w (EvTimer 0)) = ∅.
Proof.
  intros r0 w. split.
  { eval_in (tracker_get "u1" w) E. eexists. split; [exact E|]. by_compute. }
  destruct (timer_tears_down_by_identifier example_rt 0
              {| tm_fileId := "u1"; tm_due := 86401000 |} w eq_refl eq_refl
              ltac:(by_compute)) as (Ht & _).
  rewrite Ht. reflexivity.
Defined.

(** A session exactly [UPLOAD_TIMEOUT] old when the clean-up runs. *)
Lemma sweep_spares_young_sessions_witness :
  let w := run example_rt (boot example_fs 1000)
             [EvUploadChunk (chunk_request "a.bin" "0" "2" "u1" None);
              EvData 0 [Byte.x61]; EvEnd 0; EvTick 86400000] in
  uploadTracker (step example_rt w EvSweep) !! "u1" = Some 0.
Proof.
  intros w.
  destruct (sweep_spares_young_sessions example_rt w
              ltac:(apply run_ok, boot_ok)) as (_ & _ & _ & H).
  eval_in (heap w !! 0) Hu.
  destruct (H "u1" 0 _ eq_refl Hu ltac:(by_compute)) as (Ht & _).
  exact Ht.
Defined.

Lemma sigint_ends_registered_sessions_witness :
  let w := run example_rt (boot example_fs 1000)
             [EvUploadChunk (chunk_request "a.bin" "0" "2" "u1" None);
              EvData 0 [Byte.x61]; EvEnd 0] in
  uploadTracker (onSigint w) = ∅ ∧
  timers (onSigint w) !! 0 = None ∧
  fs (onSigint w) !! ["srv"; "a.bin"] = Some (File [Byte.x61]).
Proof.
  intros w.
  destruct (sigint_ends_registered_sessions example_rt w
              ltac:(apply run_ok, boot_ok)) as (Ht & Hf & _ & _ & H & _).
  eval_in (heap w !! 0) Hu.
  destruct (H "u1" 0 _ eq_refl Hu) as [_ Htm].
  split; [exact Ht|]. split; [exact Htm|]. rewrite Hf. reflexivity.
Defined.

(** ** Static files and folder lists *)

Lemma append_cons (c : ascii) (a b : string) :
  String c a +:+ b = String c (a +:+ b).
Proof. done. Qed.

Lemma append_nil_l (b : string) : "" +:+ b = b.
Proof. done. Qed.

Lemma append_nil_r (a : string) : a +:+ "" = a.
Proof. induction a as [|c a IH]; [done|]. by rewrite append_cons, IH. Qed.

Lemma append_assoc (a b c : string) : (a +:+ b) +:+ c = a +:+ (b +:+ c).
Proof.
  induction a as [|x a IH]; [done|]. by rewrite !append_cons, IH.
Qed.

Lemma prefix_append (a b : string) : String.prefix a (a +:+ b) = true.
Proof.
  induction a as [|c a IH]; [by destruct b|]. rewrite append_cons. simpl.
  by destruct (ascii_dec c c).
Qed.

Lemma prefix_shorter (a b s : string) :
  String.prefix (a +:+ b) s = true → String.prefix a s = true.
Proof.
  revert s. induction a as [|c a IH]; intros s; [by destruct s|].
  destruct s as [|c' s]; [done|]. rewrite append_cons. simpl.
  destruct (ascii_dec c c'); [apply IH|done].
Qed.

Lemma eqb_append_nonempty (a b : string) :
  b ≠ "" → String.eqb (a +:+ b) a = false.
Proof.
  intros Hb. apply String.eqb_neq. intros E. apply Hb. clear Hb.
  induction a as [|c a IH]; [done|]. rewrite append_cons in E.
  injection E as E. auto.
Qed.

(** X11: the static file handler reads nothing but paths that begin with
    [./public]; when the path of the request begins with [/], as the
    path of a URL does, they begin with [./public/]. *)
Theorem static_path_under_public (pathname : string) :
  String.prefix "./public" (staticFilePath pathname) = true ∧
  (starts_with_slash pathname = true →
   String.prefix "./public/" (staticFilePath pathname) = true).
Proof.
  unfold staticFilePath. cbn zeta.
  destruct (String.eqb ("." +:+ pathname) "./") eqn:E1; [done|].
  destruct (String.prefix "./public/" ("." +:+ pathname)) eqn:E2; cbn [negb].
  - split; [|done]. by apply (prefix_shorter "./public" "/").
  - split; [apply (prefix_append "./public")|].
    destruct pathname as [|a s]; [done|]. simpl.
    intros ->%Ascii.eqb_eq. apply (prefix_append "./public/").
Qed.

(** A string without [/] is one component. *)
Lemma split_path_plain (s cur : string) :
  no_slash s = true →
  split_path s cur = if is_empty (cur +:+ s) then [] else [cur +:+ s].
Proof.
  revert cur. induction s as [|a s IH]; intros cur Hs; simpl.
  { by rewrite append_nil_r. }
  simpl in Hs. apply andb_true_iff in Hs as [Ha Hs].
  apply negb_true_iff in Ha. rewrite Ha, IH by done.
  by rewrite append_assoc.
Qed.

Lemma split_path_slash (a b cur : string) :
  no_slash a = true →
  split_path (a +:+ String "/" b) cur =
  (if is_empty (cur +:+ a) then [] else [cur +:+ a]) ++ split_path b "".
Proof.
  revert cur. induction a as [|c a IH]; intros cur Ha.
  { rewrite append_nil_l, append_nil_r. done. }
  rewrite append_cons. simpl in *. apply andb_true_iff in Ha as [Hc Ha].
  apply negb_true_iff in Hc. rewrite Hc, IH by done.
  by rewrite append_assoc.
Qed.

Lemma ends_with_slash_app (a b : string) :
  b ≠ "" → ends_with_slash (a +:+ b) = ends_with_slash b.
Proof.
  intros Hb. induction a as [|c a IH]; [done|]. rewrite append_cons.
  cbn [ends_with_slash]. rewrite IH.
  destruct (a +:+ b) eqn:E; [|done]. by destruct a, b.
Qed.

Lemma ends_with_slash_plain (s : string) :
  no_slash s = true → ends_with_slash s = false.
Proof.
  induction s as [|a s IH]; [done|]. simpl.
  intros [Ha Hs]%andb_true_iff. destruct s; [|by apply IH].
  by apply negb_true_iff.
Qed.




Lemma split_public_up (name : string) :
  plain_name name →
  split_path ("./public/../" +:+ name) "" = ["."; "public"; ".."; name].
Proof.
  intros (Hs & Hne & _).
  change ("./public/../" +:+ name)
    with ("." +:+ String "/" ("public" +:+ String "/"
                                (".." +:+ String "/" name))).
  rewrite (split_path_slash "." _ ""), (split_path_slash "public" _ ""),
    (split_path_slash ".." _ ""), split_path_plain by done.
  rewrite !append_nil_l. by destruct name.
Qed.

Lemma eqb_plain (name : string) :
  plain_name name →
  String.eqb name "." = false ∧ String.eqb name ".." = false.
Proof. intros (_ & _ & ? & ?). by rewrite !String.eqb_neq. Qed.

Lemma ends_with_slash_public (pre name : string) :
  plain_name name → ends_with_slash (pre +:+ name) = false.
Proof.
  intros (Hs & Hne & _). rewrite ends_with_slash_app by done.
  by apply ends_with_slash_plain.
Qed.

Section Static.

Variable rt : runtime.
Variable extname : string → string.



(** X13: the static file handler does not keep to [public]: a [GET] for
    [/../name] reads [name] in the working directory itself. *)
Theorem static_serves_outside_public (name : string) (f : filesystem)
        (d : bytes) :
  plain_name name →
  f !! cwd rt = Some Directory →
  f !! path_join (cwd rt) "public" = Some Directory →
  f !! path_join (cwd rt) name = Some (File d) →
  serveStatic rt extname ("/../" +:+ name) f =
  (200, FileContent (contentTypeOf (extname ("./public/../" +:+ name))) d).
Proof.
  intros Hp Hc Hpub Hf. unfold serveStatic. cbn zeta.
  assert (staticFilePath ("/../" +:+ name) = "./public/../" +:+ name) as ->.
  { unfold staticFilePath. cbn zeta.
    change ("." +:+ ("/../" +:+ name)) with ("./" +:+ ("../" +:+ name)).
    rewrite eqb_append_nonempty by done. done. }
  unfold readFileAt.
  change (is_empty ("./public/../" +:+ name)) with false.
  change (starts_with_slash ("./public/../" +:+ name)) with false.
  cbn iota. rewrite split_public_up, ends_with_slash_public by done.
  destruct (eqb_plain name Hp) as [E1 E2].
  cbn [walk String.eqb Ascii.eqb Bool.eqb].
  repeat (rewrite ?Hc, ?Hpub, ?E1, ?E2, ?parent_path_join, ?Hf; cbn iota).
  done.
Qed.

(** X14: [GET /] and [GET /index.html] read the same file; when it is missing
    the first answers 500 and the second 404. *)
Theorem index_missing_or_served (f : filesystem) :
  staticFilePath "/index.html" = "./public/index.html" ∧
  match readFileAt (cwd rt) "./public/index.html" f with
  | ReadOk d =>
    serveIndex rt f = (200, FileContent "text/html" d) ∧
    ∃ ct, serveStatic rt extname "/index.html" f = (200, FileContent ct d)
  | ENOENT =>
    serveIndex rt f = (500, Text "Error loading HTML") ∧
    serveStatic rt extname "/index.html" f = (404, Text "File not found")
  | OtherError =>
    serveIndex rt f = (500, Text "Error loading HTML") ∧
    serveStatic rt extname "/index.html" f = (500, ErrorText)
  end.
Proof.
  split; [done|]. unfold serveIndex, serveStatic. cbn zeta.
  change (staticFilePath "/index.html") with "./public/index.html".
  destruct (readFileAt _ _ _); [|done..]. split; [done|]. by eexists.
Qed.

Variable win32 : bool.

(** X15: [GET /list-folders] away from the root of a Windows machine: for a
    path that resolves to a directory the answer lists, each once, the
    names of the directories directly in it, and no file; for a path
    that does not exist or is a file the answer is the error list, with
    the root as path and no folder.  The status is 200 in both cases. *)
Theorem list_folders_lists_directories (q : option string) (f : filesystem) :
  let p := path_resolve rt (or_default q "/") in
  win32 = false ∨ (or_default q "/" ≠ "/" ∧ or_default q "/" ≠ "\") →
  (f !! p = Some Directory →
   ∃ folders,
     listFolders rt win32 q f = (200, FoldersOf p folders) ∧
     NoDup folders ∧
     ∀ name, name ∈ folders ↔ f !! path_join p name = Some Directory) ∧
  (f !! p ≠ Some Directory →
   listFolders rt win32 q f = (200, FoldersFailed)).
Proof.
  intros p Hw. unfold listFolders. cbn zeta.
  assert ((String.eqb (or_default q "/") "/"
           || String.eqb (or_default q "/") "\") && win32 = false) as ->.
  { destruct Hw as [->|[H1 H2]]; [apply andb_false_r|].
    apply String.eqb_neq in H1, H2. by rewrite H1, H2. }
  fold p. unfold readdirSync. split.
  - intros Hp. rewrite Hp. eexists. split; [done|]. split.
    + apply NoDup_filter, NoDup_children.
    + intros name. rewrite list_elem_of_filter, elem_of_children.
      unfold path_join. split; [by intros [? _]|]. intros E.
      split; [done|]. by rewrite E.
  - intros Hp. by destruct (f !! p) as [[|]|].
Qed.

End Static.


Lemma static_serves_outside_public_witness :
  let f : filesystem :=
    {[ [] := Directory; ["srv"] := Directory;
       ["srv"; "public"] := Directory;
       ["srv"; "server.js"] := File [Byte.x2f; Byte.x2f] ]} in
  serveStatic example_rt (λ _, ".js") "/../server.js" f
  = (200, FileContent "text/javascript" [Byte.x2f; Byte.x2f]).
Proof.
  intros f.
  exact (static_serves_outside_public example_rt (λ _, ".js") "server.js" f
           [Byte.x2f; Byte.x2f] ltac:(by repeat split) eq_refl eq_refl
           eq_refl).
Defined.

Lemma list_folders_lists_directories_witness :
  let f : filesystem :=
    {[ [] := Directory; ["srv"] := Directory;
       ["srv"; "public"] := Directory; ["srv"; "uploads"] := Directory;
       ["srv"; "server.js"] := File [] ]} in
  (∃ folders,
     listFolders example_rt false (Some "/srv") f
     = (200, FoldersOf ["srv"] folders) ∧
     "public" ∈ folders ∧ "uploads" ∈ folders ∧ "server.js" ∉ folders) ∧
  listFolders example_rt false (Some "/srv/server.js") f
  = (200, FoldersFailed).
Proof.
  intros f. split.
  - destruct (list_folders_lists_directories example_rt false (Some "/srv") f
                ltac:(by left)) as [H _].
    destruct (H eq_refl) as (folders & E & _ & Hin). exists folders.
    split; [exact E|]. rewrite !Hin. by repeat split.
  - destruct (list_folders_lists_directories example_rt false
                (Some "/srv/server.js") f ltac:(by left)) as [_ H].
    by apply H.
Defined.

(** ** A body that ends after the stream was ended *)

Section LateBody.

Variable rt : runtime.

(** After [process.exit] or an uncaught error no event is handled. *)
Lemma run_crashed (es : list event) (w : world) :
  crashed w = true → run rt w es = w.
Proof.
  intros Hc. induction es as [|e es IH]; simpl; [done|].
  assert (step rt w e = w) as -> by (unfold step; by rewrite Hc).
  exact IH.
Qed.

(** The ['end'] listener of a request whose session object has an ended
    stream: the write fails with an ['error'] event of the stream, which
    has no listener. *)
Lemma end_on_ended_stream (rid : nat) (p : pending) (u : session)
      (w : world) :
  crashed w = false → inflight w !! rid = Some p → p_awaiting p = false →
  heap w !! p_upload p = Some u → ws_ended (writeStream u) = true →
  step rt w (EvEnd rid) = crash w.
Proof.
  intros Hc Hp Ha Hu He. unfold step, onEnd, ws_write.
  by rewrite Hc, Hp, Ha, Hu, He.
Qed.

(** The body of a request, from a world in which the stream of its
    session object is ended. *)
Lemma body_on_ended_stream (rid : nat) (p : pending) (u : session)
      (chunks : list bytes) (w : world) :
  let w' := run rt w ((EvData rid <$> chunks) ++ [EvEnd rid]) in
  crashed w = false → inflight w !! rid = Some p → p_awaiting p = false →
  heap w !! p_upload p = Some u → ws_ended (writeStream u) = true →
  crashed w' = true ∧ log w' = log w ∧ fs w' = fs w.
Proof.
  intros w' Hc Hp Ha Hu He. unfold w', run. rewrite foldl_app.
  change (foldl (step rt) w (EvData rid <$> chunks))
    with (run rt w (EvData rid <$> chunks)).
  rewrite (run_data rt rid p) by done. cbn [foldl].
  rewrite (end_on_ended_stream rid
             (with_dataBuffer (p_dataBuffer p ++ concat chunks) p) u);
    [done|done|apply lookup_insert_eq|done|done|done].
Qed.

(** X16: a chunk request is pending for a session older than [UPLOAD_TIMEOUT]
    when the timer of the session or the hourly clean-up runs: the
    stream of the session is ended, and when the body of the request
    ends, its write comes after [end()] and fails.  The body is not
    written, nothing is logged, and the request is never answered,
    whatever events follow. *)
Theorem body_after_expiry_never_answered (rid : nat) (p : pending)
        (u : session) (e : event) (chunks : list bytes) (w : world) :
  let w' := run rt w (e :: (EvData rid <$> chunks) ++ [EvEnd rid]) in
  world_ok w → crashed w = false →
  inflight w !! rid = Some p → p_awaiting p = false →
  uploadTracker w !! p_fileId p = Some (p_upload p) →
  heap w !! p_upload p = Some u →
  (now w - createdAt u > UPLOAD_TIMEOUT)%Z →
  e = EvTimer (timeout u) ∨ e = EvSweep →
  log w' = log w ∧ fs w' = fs w ∧
  ∀ es st r, Response rid st r ∉ log (run rt w' es).
Proof.
  intros w' H Hc Hp Ha Hid Hu Hage He.
  pose proof (ok_timeout _ H _ _ Hu) as Ht.
  pose proof (ok_timer _ H _ _ _ Hid Hu) as Htm.
  set (l := p_upload p) in *.
  assert (∃ u', heap (step rt w e) !! l = Some u' ∧
                ws_ended (writeStream u') = true ∧
                crashed (step rt w e) = false ∧
                inflight (step rt w e) = inflight w ∧
                log (step rt w e) = log w ∧ fs (step rt w e) = fs w)
    as (u' & Hu' & Hended & Hc' & Hi' & Hl' & Hf').
  { destruct He as [-> | ->]; unfold step; rewrite Hc.
    - unfold onTimer. rewrite Ht, Htm, bool_decide_true by (simpl; lia).
      rewrite timeoutCallback_unfold. cbn [tm_fileId].
      assert (tracker_get (p_fileId p) (clearTimeout l w) = Some (l, u)) as ->
        by by apply tracker_get_Some.
      rewrite end_stream_unfold. cbn [heap tracker_delete clearTimeout
        with_tracker with_timers]. rewrite Hu. simpl.
      rewrite lookup_insert_eq. by eexists.
    - destruct (foldl_sweep_one_expired (map_to_list (uploadTracker w))
                  (p_fileId p) l u w) as (_ & _ & (u' & Hu' & He' & _) & _);
        try done.
      + intros [f l'] Hin%elem_of_map_to_list <-. simpl in *.
        by eapply ok_inj.
      + left. by apply elem_of_map_to_list.
      + destruct (foldl_sweep_one_frame (map_to_list (uploadTracker w)) w)
          as (Hf & Hl & Hi & _ & Hcr).
        exists u'. unfold sweep. by rewrite Hf, Hl, Hi, Hcr. }
  assert (inflight (step rt w e) !! rid = Some p) as Hp' by by rewrite Hi'.
  destruct (body_on_ended_stream rid p u' chunks (step rt w e))
    as (Hcr & Hlog & Hfs); try done.
  assert (crashed w' = true) as Hw' by exact Hcr.
  assert (log w' = log w) as Hlw by (by etrans; [exact Hlog|]).
  split; [done|]. split; [by etrans; [exact Hfs|]|].
  intros es st r. rewrite run_crashed, Hlw by done.
  intros [_ Hn]%(ok_log _ H). congruence.
Qed.

(** X17: two chunk requests are pending for one session, and the chunk of the
    first completes the upload: its ['end'] listener ends the stream and
    answers [complete]; when the body of the second ends, its write
    comes after [end()] and fails.  The second body is not written and
    the second request is never answered, whatever events follow. *)
Theorem body_after_completion_never_answered (rid1 rid2 : nat)
        (p1 p2 : pending) (u : session) (w : world) :
  let s := writeStream u in
  let w' := run rt w [EvEnd rid1; EvEnd rid2] in
  world_ok w → crashed w = false → rid1 ≠ rid2 →
  inflight w !! rid1 = Some p1 → inflight w !! rid2 = Some p2 →
  p_awaiting p1 = false → p_awaiting p2 = false →
  p_upload p2 = p_upload p1 → heap w !! p_upload p1 = Some u →
  ws_ended s = false →
  (ws_length s + N.of_nat (length (p_dataBuffer p1)) < HIGH_WATER_MARK)%N →
  strict_eq (Some (Z.of_nat (size ({[p_chunkIndex p1]} ∪ receivedChunks u))))
    (totalChunks u) = true →
  log w' = log w ++ [Response rid1 200 (UploadComplete (finalPath u))] ∧
  fs w'
  = (removeDirectory (p_tempDir p1)
       (writeAt (ws_path s) (ws_pos s) (p_dataBuffer p1) (fs w))).2 ∧
  ∀ es st r, Response rid2 st r ∉ log (run rt w' es).
Proof.
  intros s w' H Hc Hne Hp1 Hp2 Ha1 Ha2 Hl Hu He Hlen Hdone.
  set (l := p_upload p1) in *.
  set (s1 := {| ws_path := ws_path s; ws_pos := ws_pos s + length (p_dataBuffer p1);
                ws_length := (ws_length s + N.of_nat (length (p_dataBuffer p1)))%N;
                ws_needDrain := ws_needDrain s || negb true;
                ws_onDrain := ws_onDrain s; ws_ended := false;
                ws_autoClose := ws_autoClose s; ws_closed := ws_closed s |}).
  set (fs1 := writeAt (ws_path s) (ws_pos s) (p_dataBuffer p1) (fs w)).
  set (u1 := with_received ({[p_chunkIndex p1]} ∪ receivedChunks u)
               (with_stream s1 u)).
  set (W0 := with_heap (<[l := with_stream s1 u]> (heap w)) (with_fs fs1 w)).
  assert (step rt w (EvEnd rid1) = finishChunk rid1 p1 W0) as Hstep.
  { unfold step, onEnd, ws_write. rewrite Hc, Hp1, Ha1. fold l.
    rewrite Hu. fold s. rewrite He.
    apply N.ltb_lt in Hlen. by rewrite Hlen. }
  set (w1 := respond rid1 200 (UploadComplete (finalPath u))
               (with_fs (removeDirectory (p_tempDir p1) fs1).2
                  (tracker_delete (p_fileId p1)
                     (clearTimeout (timeout u)
                        (end_stream l
                           (with_heap (<[l := u1]> (heap W0)) W0)))))).
  assert (finishChunk rid1 p1 W0 = w1) as Hfin.
  { unfold finishChunk. fold l.
    assert (heap W0 !! l = Some (with_stream s1 u)) as ->
      by apply lookup_insert_eq.
    change (with_received _ (with_stream s1 u)) with u1.
    change (strict_eq _ (totalChunks u1))
      with (strict_eq
              (Some (Z.of_nat (size ({[p_chunkIndex p1]} ∪ receivedChunks u))))
              (totalChunks u)).
    by rewrite Hdone. }
  rewrite Hfin in Hstep. clear Hfin.
  assert (crashed w1 = false) as Hc1 by (unfold w1; by rewrite end_stream_unfold;
    cbn [heap with_heap]; rewrite lookup_insert_eq).
  assert (inflight w1 = delete rid1 (inflight w)) as Hi1.
  { unfold w1. rewrite end_stream_unfold. cbn [heap with_heap].
    by rewrite lookup_insert_eq. }
  assert (heap w1 !! l = Some (with_stream (ws_end (writeStream u1)) u1))
    as Hh1.
  { unfold w1. rewrite end_stream_unfold. cbn [heap with_heap].
    rewrite lookup_insert_eq. simpl. apply lookup_insert_eq. }
  assert (log w1 = log w ++ [Response rid1 200 (UploadComplete (finalPath u))])
    as Hl1.
  { unfold w1. rewrite end_stream_unfold. cbn [heap with_heap].
    by rewrite lookup_insert_eq. }
  assert (fs w1 = (removeDirectory (p_tempDir p1) fs1).2) as Hf1 by done.
  assert (w' = crash w1) as Hw'.
  { unfold w', run. cbn [foldl]. rewrite Hstep.
    apply (end_on_ended_stream rid2 p2
             (with_stream (ws_end (writeStream u1)) u1)); try done.
    - by rewrite Hi1, lookup_delete_ne.
    - by rewrite Hl. }
  clearbody w'. subst w'. split; [exact Hl1|]. split; [exact Hf1|].
  intros es st r. rewrite run_crashed by done. cbn [crash log].
  rewrite Hl1. intros [Hin|Hin%list_elem_of_singleton]%elem_of_app.
  - apply (ok_log _ H) in Hin as [_ Hn]. congruence.
  - congruence.
Qed.

End LateBody.

(** A day and a second after the first chunk of an upload of two, the
    second chunk is on its way when the timer of the session is due. *)
Lemma body_after_expiry_never_answered_witness :
  let w := run example_rt (boot example_fs 1000)
             [EvUploadChunk (chunk_request "a.bin" "0" "2" "u1" None);
              EvData 0 [Byte.x61]; EvEnd 0;
              EvUploadChunk (chunk_request "a.bin" "1" "2" "u1" None);
              EvTick 86401000] in
  let w' := run example_rt w [EvTimer 0; EvData 1 [Byte.x62]; EvEnd 1] in
  log w' = log w ∧ fs w' !! ["srv"; "a.bin"] = Some (File [Byte.x61]) ∧
  Response 1 200 (UploadComplete ["srv"; "a.bin"])
  ∉ log (run example_rt w' [EvFlushed 0]).
Proof.
  intros w w'.
  eval_in (inflight w !! 1) Hp. eval_in (heap w !! 0) Hu.
  destruct (body_after_expiry_never_answered example_rt 1 _ _ (EvTimer 0)
              [[Byte.x62]] w ltac:(apply run_ok, boot_ok) eq_refl Hp eq_refl
              eq_refl Hu ltac:(by_compute) ltac:(by left))
    as (Hl & Hf & Hn).
  split; [exact Hl|]. split; [|apply Hn].
  unfold w'. etrans; [apply (f_equal (λ f, f !! ["srv"; "a.bin"]) Hf)|].
  reflexivity.
Defined.

(** The last chunk of an upload of two is sent twice at the same time. *)
Lemma body_after_completion_never_answered_witness :
  let r1 := chunk_request "a.bin" "1" "2" "u1" None in
  let w := run example_rt (boot example_fs 1000)
             [EvUploadChunk (chunk_request "a.bin" "0" "2" "u1" None);
              EvData 0 [Byte.x61]; EvEnd 0;
              EvUploadChunk r1; EvUploadChunk r1;
              EvData 1 [Byte.x62]; EvData 2 [Byte.x62]] in
  let w' := run example_rt w [EvEnd 1; EvEnd 2] in
  log w' = log w ++ [Response 1 200 (UploadComplete ["srv"; "a.bin"])] ∧
  Response 2 200 (UploadComplete ["srv"; "a.bin"])
  ∉ log (run example_rt w' [EvFlushed 0]).
Proof.
  intros r1 w w'.
  eval_in (inflight w !! 1) Hp1. eval_in (inflight w !! 2) Hp2.
  eval_in (heap w !! 0) Hu.
  destruct (body_after_completion_never_answered example_rt 1 2 _ _ _ w
              ltac:(apply run_ok, boot_ok) eq_refl ltac:(lia) Hp1 Hp2
              eq_refl eq_refl eq_refl Hu eq_refl
              ltac:(by_compute) ltac:(vm_compute; reflexivity))
    as (Hl & _ & Hn).
  split; [exact Hl|]. apply Hn.
Defined.
